(** * Seoul NightSpots Agent: origin resolution, geo ranking, answer
      synthesis and semantic search

    A shallow embedding of [app/services/geo.py], [app/agents/nodes.py],
    [app/agents/graph.py] and [app/services/rag.py].

    Conventions of the embedding.
    - A Python [float] is a real number ([R]).  NaN and the infinities have
      no counterpart, so [math.isfinite] is constantly true and arithmetic
      is exact.
    - A Python [str] is a [string] (a sequence of bytes, UTF-8 for the
      Korean literals of the source).
    - A Python [dict] with string keys is a [gmap string _].
    - A raised exception is the [Raise] branch of [result].
    - Library code the repository calls but does not contain (the numeral
      grammar of [float()] and [int()], [repr] of a float, the HTTP request
      to the chat endpoint, the map renderer, the embedding backends and
      [numpy.argsort]) is a [Variable] of the section. *)

From Stdlib Require Import Reals Lra Lia ZArith Ascii DecimalString.
From Stdlib Require Import FunctionalExtensionality.
From stdpp Require Import gmap strings list fin_maps sorting.

(** ** Python values *)

Inductive scalar : Type :=
| VNone
| VBool (b : bool)
| VInt (z : Z)
| VFloat (x : R)
| VStr (s : string).

(** Values a pipeline context holds: scalars, lists of dicts (catalog rows,
    recommendations, sources) and the [(lat, lon)] tuple of [center]. *)
Inductive pyval : Type :=
| PScalar (v : scalar)
| PRows (l : list (gmap string scalar))
| PPair (a b : R).

Inductive exn : Type :=
| ValueError (msg : string)
| TypeError
| AttributeError
| IndexError.

Inductive result (A : Type) : Type :=
| Ok (a : A)
| Raise (e : exn).

Arguments Ok {A} a.
Arguments Raise {A} e.

Definition rbind {A B : Type} (m : result A) (f : A → result B) : result B :=
  match m with
  | Ok a => f a
  | Raise e => Raise e
  end.

Notation "'let*' x := m 'in' k" := (rbind m (fun x => k))
  (at level 10, x name, m at level 100, k at level 200).

Definition is_ok {A : Type} (m : result A) : bool :=
  match m with Ok _ => true | Raise _ => false end.

(** [d.get(k)] and [d.get(k, default)]. *)
Definition row_get (r : gmap string scalar) (k : string) : scalar :=
  default VNone (r !! k).

Definition state_get (s : gmap string pyval) (k : string) : pyval :=
  default (PScalar VNone) (s !! k).

Definition state_get_default (s : gmap string pyval) (k : string) (d : pyval) : pyval :=
  default d (s !! k).

(** Truth value of a Python object. *)
Definition truthy (v : scalar) : bool :=
  match v with
  | VNone => false
  | VBool b => b
  | VInt z => negb (z =? 0)%Z
  | VFloat x => if Req_dec_T x 0 then false else true
  | VStr s => negb (String.eqb s "")
  end.

Definition truthy_val (p : pyval) : bool :=
  match p with
  | PScalar v => truthy v
  | PRows l => match l with [] => false | _ => true end
  | PPair _ _ => true
  end.

(** ** Strings: [str.strip()] and [str.lower()] on the ASCII range *)

Definition is_space (c : ascii) : bool :=
  let n := nat_of_ascii c in
  ((9 <=? n) && (n <=? 13)) || ((28 <=? n) && (n <=? 32)).

Fixpoint lstrip_chars (l : list ascii) : list ascii :=
  match l with
  | c :: t => if is_space c then lstrip_chars t else l
  | [] => []
  end.

Definition strip (s : string) : string :=
  String.string_of_list_ascii
    (rev (lstrip_chars (rev (lstrip_chars (String.list_ascii_of_string s))))).

Definition lower_char (c : ascii) : ascii :=
  let n := nat_of_ascii c in
  if (65 <=? n) && (n <=? 90) then ascii_of_nat (n + 32) else c.

Fixpoint lower (s : string) : string :=
  match s with
  | EmptyString => EmptyString
  | String c t => String (lower_char c) (lower t)
  end.

(** [(v or "").strip()]: a true value that is not a string has no [strip]. *)
Definition or_empty_strip (v : scalar) : result string :=
  if truthy v then
    match v with
    | VStr s => Ok (strip s)
    | _ => Raise AttributeError
    end
  else Ok "".

Definition or_empty_strip_val (p : pyval) : result string :=
  match p with
  | PScalar v => or_empty_strip v
  | PRows l => if truthy_val p then Raise AttributeError else Ok ""
  | PPair _ _ => Raise AttributeError
  end.

(** ** Numbers *)

(** Truncation toward zero, as [int(x)] does on a float. *)
Definition Ztrunc (x : R) : Z :=
  if Rle_dec 0 x then Int_part x else (- Int_part (- x))%Z.

(** [round(x, ndigits)]: to the nearest multiple of [10^-ndigits], a tie
    going to the even one. *)
Definition round_half_even (x : R) : Z :=
  let n := Int_part x in
  let f := frac_part x in
  if Rlt_dec f (1 / 2) then n
  else if Rlt_dec (1 / 2) f then (n + 1)%Z
  else if Z.even n then n else (n + 1)%Z.

Definition py_round (x : R) (ndigits : nat) : R :=
  (IZR (round_half_even (x * 10 ^ ndigits)) / 10 ^ ndigits)%R.

(** [math.radians] and [math.atan2]. *)
Definition radians (x : R) : R := (x * (PI / 180))%R.

Definition atan2 (y x : R) : R :=
  if Rlt_dec 0 x then atan (y / x)
  else if Rlt_dec x 0 then
    (if Rle_dec 0 y then atan (y / x) + PI else atan (y / x) - PI)%R
  else if Rlt_dec 0 y then (PI / 2)%R
  else if Rlt_dec y 0 then (- (PI / 2))%R
  else 0%R.

(** [list.sort(key=...)]: a stable sort that compares keys with [<] only.
    On totally ordered keys every stable sort returns the same list, here
    the one of insertion sort. *)
Section stable_sort.
Context {A : Type} (key : A → R).

Fixpoint insert_by (x : A) (l : list A) : list A :=
  match l with
  | [] => [x]
  | y :: l' => if Rlt_dec (key y) (key x) then y :: insert_by x l' else x :: l
  end.

Fixpoint sort_by (l : list A) : list A :=
  match l with
  | [] => []
  | x :: l' => insert_by x (sort_by l')
  end.

End stable_sort.

(** [l[:k]] for an integer [k]: a negative [k] counts from the end. *)
Definition py_take {A : Type} (k : Z) (l : list A) : list A :=
  if (0 <=? k)%Z then take (Z.to_nat k) l
  else take (length l - Z.to_nat (- k)) l.

#[global] Instance R_eq_dec : EqDecision R := Req_dec_T.

Definition Rltb (x y : R) : bool := if Rlt_dec x y then true else false.
Definition Rleb (x y : R) : bool := if Rle_dec x y then true else false.

(** A value that compares with a float: [float], [int] and [bool]. *)
Definition numeric (p : pyval) : option R :=
  match p with
  | PScalar (VFloat x) => Some x
  | PScalar (VInt z) => Some (IZR z)
  | PScalar (VBool b) => Some (if b then 1%R else 0%R)
  | _ => None
  end.

(** [d > v] for a float [d]. *)
Definition float_gt (d : R) (v : pyval) : result bool :=
  match numeric v with
  | Some x => Ok (Rltb x d)
  | None => Raise TypeError
  end.

(** [str(v)] of an integer. *)
Definition str_of_Z (z : Z) : string := NilZero.string_of_int (Z.to_int z).

Section program.

(** The numeral grammars of [float(s)] and [int(s)] on a stripped,
    non-empty string, and [repr] of a float. *)
Variable parse_float : string → option R.
Variable parse_int : string → option Z.
Variable repr_float : R → string.

(** [float(v)]. *)
Definition py_float (v : scalar) : result R :=
  match v with
  | VNone => Raise TypeError
  | VBool b => Ok (if b then 1%R else 0%R)
  | VInt z => Ok (IZR z)
  | VFloat x => Ok x
  | VStr s =>
      let t := strip s in
      if String.eqb t "" then Raise (ValueError "could not convert string to float")
      else match parse_float t with
           | Some x => Ok x
           | None => Raise (ValueError "could not convert string to float")
           end
  end.

Definition py_float_val (p : pyval) : result R :=
  match p with
  | PScalar v => py_float v
  | _ => Raise TypeError
  end.

(** [int(v)]. *)
Definition py_int (v : scalar) : result Z :=
  match v with
  | VNone => Raise TypeError
  | VBool b => Ok (if b then 1%Z else 0%Z)
  | VInt z => Ok z
  | VFloat x => Ok (Ztrunc x)
  | VStr s =>
      let t := strip s in
      if String.eqb t "" then Raise (ValueError "invalid literal for int()")
      else match parse_int t with
           | Some z => Ok z
           | None => Raise (ValueError "invalid literal for int()")
           end
  end.

Definition py_int_val (p : pyval) : result Z :=
  match p with
  | PScalar v => py_int v
  | _ => Raise TypeError
  end.

(** [str(v)]. *)
Definition py_str (v : scalar) : string :=
  match v with
  | VNone => "None"
  | VBool true => "True"
  | VBool false => "False"
  | VInt z => str_of_Z z
  | VFloat x => repr_float x
  | VStr s => s
  end.

(** ** app/services/geo.py *)

Definition EARTH_RADIUS_KM : R := 6371.0088%R.

(** Over the reals the term [a] lies in [0, 1] and both square roots are
    defined.  In floating point, rounding can push [a] above 1 for points
    that are nearly antipodal, and [math.sqrt] then raises: that failure
    has no counterpart here, and statements that [nearest] returns are
    made away from it. *)
Definition haversine_km (lat1 lon1 lat2 lon2 : R) : R :=
  let phi1 := radians lat1 in
  let phi2 := radians lat2 in
  let dphi := (phi2 - phi1)%R in
  let dlambda := radians (lon2 - lon1) in
  let a := (sin (dphi / 2) ^ 2 + cos phi1 * cos phi2 * sin (dlambda / 2) ^ 2)%R in
  let c := (2 * atan2 (sqrt a) (sqrt (1 - a)))%R in
  (EARTH_RADIUS_KM * c)%R.

(** A [VFloat] is a finite number: the NaN that [float("nan")] gives, and
    that the code keeps, has no counterpart here. *)
Definition _safe_float (x : scalar) : option R :=
  match x with
  | VNone => None
  | _ =>
      match py_float x with
      | Ok f => if Req_dec_T f 0 then None else Some f
      | Raise _ => None
      end
  end.

(** One turn of the loop of [nearest]: [None] for a row that is skipped. *)
Definition candidate (lat lon : R) (radius_km : pyval) (r : gmap string scalar)
  : result (option (gmap string scalar)) :=
  match _safe_float (row_get r "LA"), _safe_float (row_get r "LO") with
  | Some la, Some lo =>
      let d := haversine_km lat lon la lo in
      let* far := match radius_km with
                  | PScalar VNone => Ok false
                  | _ => float_gt d radius_km
                  end in
      if (far : bool) then Ok None
      else
        let* title := or_empty_strip (row_get r "TITLE") in
        let* addr := or_empty_strip (row_get r "ADDR") in
        let* op := or_empty_strip (row_get r "OPERATING_TIME") in
        let* url := or_empty_strip (row_get r "URL") in
        Ok (Some ({[ "TITLE" := VStr title;
                     "ADDR" := VStr addr;
                     "OPERATING_TIME" := VStr op;
                     "URL" := VStr url;
                     "LA" := VFloat la;
                     "LO" := VFloat lo;
                     "DIST_KM" := VFloat (py_round d 3) ]} : gmap string scalar))
  | _, _ => Ok None
  end.

Fixpoint candidates (lat lon : R) (radius_km : pyval) (rows : list (gmap string scalar))
  : result (list (gmap string scalar)) :=
  match rows with
  | [] => Ok []
  | r :: rows' =>
      let* c := candidate lat lon radius_km r in
      let* cs := candidates lat lon radius_km rows' in
      Ok (match c with Some x => x :: cs | None => cs end)
  end.

(** The sort key [lambda x: x["DIST_KM"]]. *)
Definition dist_key (c : gmap string scalar) : R :=
  match c !! "DIST_KM" with
  | Some (VFloat x) => x
  | _ => 0%R
  end.

Definition nearest (rows : list (gmap string scalar)) (lat lon : R) (topn : Z)
    (radius_km : pyval) : result (list (gmap string scalar)) :=
  let* cands := candidates lat lon radius_km rows in
  Ok (take (Z.to_nat (Z.max 1 topn)) (sort_by dist_key cands)).

Definition validate_coords (lat lon : pyval) : bool :=
  match py_float_val lat, py_float_val lon with
  | Ok lat_f, Ok lon_f =>
      Rleb (-90) lat_f && Rleb lat_f 90 && Rleb (-180) lon_f && Rleb lon_f 180
  | _, _ => false
  end.

Definition PRESET_COORDS : gmap string (R * R) :=
  {[ "시청" := (37.5663, 126.9779)%R;
     "광화문" := (37.5759, 126.9768)%R;
     "남산" := (37.5512, 126.9882)%R;
     "잠실" := (37.5130, 127.1028)%R;
     "강남" := (37.4979, 127.0276)%R;
     "여의도" := (37.5219, 126.9244)%R ]}.

Definition _PRESET_ALIASES : gmap string string :=
  {[ "seoul city hall" := "시청";
     "city hall" := "시청";
     "gwanghwamun" := "광화문";
     "namsan" := "남산";
     "jamsil" := "잠실";
     "gangnam" := "강남";
     "yeouido" := "여의도" ]}.

Definition _normalize_label (label : string) : string := lower (strip label).

Definition get_preset_coord (label : pyval) : result (option (R * R)) :=
  if negb (truthy_val label) then Ok None
  else
    match label with
    | PScalar (VStr s) =>
        match PRESET_COORDS !! s with
        | Some c => Ok (Some c)
        | None =>
            let key := _normalize_label s in
            match _PRESET_ALIASES !! key ≫= (λ mapped, PRESET_COORDS !! mapped) with
            | Some c => Ok (Some c)
            | None => Ok (PRESET_COORDS !! strip s)
            end
        end
    | PRows _ => Raise TypeError
    | _ => Raise AttributeError
    end.

(** ** app/agents/nodes.py *)

(** The configuration object of [utils/config.py]: a value that is not set
    reads as [ENV_MISSING]. *)
Record Settings : Type := {
  KAKAO_API_KEY : string;
  AOAI_ENDPOINT : string;
  AOAI_API_KEY : string;
  AOAI_DEPLOYMENT : string
}.

Definition ENV_MISSING : string := "환경변수 없음".

(** What a run does besides computing its result: the request to the chat
    endpoint, and the entry into a node of the graph. *)
Inductive event : Type :=
| EvRemoteChat
| EvNode (name : string).

(** A computation that may raise, together with the events it emitted. *)
Definition io (A : Type) : Type := (result A * list event)%type.

Definition io_ret {A : Type} (a : A) : io A := (Ok a, []).

Definition io_bind {A B : Type} (m : io A) (f : A → io B) : io B :=
  match m with
  | (Ok a, t) => let '(r, t') := f a in (r, t ++ t')
  | (Raise e, t) => (Raise e, t)
  end.

Definition io_lift {A : Type} (m : result A) : io A := (m, []).

Definition emit (ev : event) : io unit := (Ok tt, [ev]).

Notation "'io*' x := m 'in' k" := (io_bind m (fun x => k))
  (at level 10, x name, m at level 100, k at level 200).

Variable settings : Settings.

(** The body of the [try] block of [_llm_answer_azure]: the request built
    from the question and the recommendations, posted, and the content of
    the first choice read from the response; [None] when any step raises. *)
Variable aoai_chat : Settings → pyval → list (gmap string scalar) → option string.

(** The [try] block of [agent_e]: the HTML of the map for a provider, the
    recommendations and a center, or the inline error message when the
    renderer raises. *)
Variable render_map : string → pyval → pyval → string.

Definition newline : string := String (ascii_of_nat 10) EmptyString.

Fixpoint join (sep : string) (l : list string) : string :=
  match l with
  | [] => ""
  | [s] => s
  | s :: l' => s +:+ sep +:+ join sep l'
  end.

(** [v or d], formatted in an f-string. *)
Definition str_or (v : scalar) (d : string) : string :=
  if truthy v then py_str v else d.

Definition _format_sources (recs : list (gmap string scalar)) : string :=
  join newline
    (map (λ r,
       let title := str_or (row_get r "TITLE") "(제목 없음)" in
       let url := row_get r "URL" in
       strip ("- " +:+ title +:+ " " +:+
              (if truthy url then "(" +:+ py_str url +:+ ")" else "")))
     (take 5 recs)).

Definition _llm_answer_azure (question : pyval) (recs : list (gmap string scalar))
  : io (option string) :=
  if String.eqb (AOAI_ENDPOINT settings) ENV_MISSING
     || String.eqb (AOAI_API_KEY settings) ENV_MISSING
     || String.eqb (AOAI_DEPLOYMENT settings) ENV_MISSING
  then io_ret None
  else
    io* _ := emit EvRemoteChat in
    io_ret (aoai_chat settings question recs).

(** [state.get(k) or []], then iterated as a list of dicts. *)
Definition iter_rows (p : pyval) : result (list (gmap string scalar)) :=
  if negb (truthy_val p) then Ok []
  else
    match p with
    | PRows l => Ok l
    | PScalar (VStr _) => Raise AttributeError
    | PPair _ _ => Raise AttributeError
    | PScalar _ => Raise TypeError
    end.

(** [out.setdefault(k, v)]. *)
Definition setdefault (k : string) (v : pyval) (m : gmap string pyval)
  : gmap string pyval :=
  match m !! k with
  | Some _ => m
  | None => <[k := v]> m
  end.

Definition agent_c (state : gmap string pyval) : result (gmap string pyval) :=
  let rows := state_get state "rows" in
  let* lat := py_float_val (state_get state "lat") in
  let* lon := py_float_val (state_get state "lon") in
  let* topn := py_int_val (state_get_default state "topn" (PScalar (VInt 5))) in
  let radius_km := state_get state "radius_km" in
  let radius_km :=
    match radius_km with
    | PScalar (VStr s) => if String.eqb (strip s) "" then PScalar VNone else radius_km
    | _ => radius_km
    end in
  let* rows := iter_rows rows in
  let* recs := nearest rows lat lon topn radius_km in
  let out := <["recommendations" := PRows recs]> state in
  Ok (setdefault "center" (PPair lat lon) out).

Definition EMPTY_MAP_HTML : string :=
  "<p style='color:gray'>표시할 추천 결과가 없습니다.</p>".

Definition agent_e (state : gmap string pyval) : result (gmap string pyval) :=
  let recs := state_get state "recommendations" in
  let provider := state_get state "map_provider" in
  let* provider :=
    if negb (truthy_val provider) then Ok "leaflet"
    else match provider with
         | PScalar (VStr s) => Ok (lower s)
         | _ => Raise AttributeError
         end in
  let center := state_get state "center" in
  let center :=
    if negb (truthy_val center)
       && bool_decide (is_Some (state !! "lat"))
       && bool_decide (is_Some (state !! "lon"))
    then match py_float_val (state_get state "lat"),
               py_float_val (state_get state "lon") with
         | Ok a, Ok b => PPair a b
         | _, _ => PScalar VNone
         end
    else center in
  if negb (truthy_val recs) then Ok (<["map_html" := PScalar (VStr EMPTY_MAP_HTML)]> state)
  else Ok (<["map_html" := PScalar (VStr (render_map provider recs center))]> state).

Definition NO_RESULTS_ANSWER : string :=
  "추천 결과가 없어 답변을 생성할 수 없습니다. 기준 좌표 또는 반경 조건을 확인해 주세요.".

(** The rule-based answer of [agent_d]. *)
Definition template_answer (recs : list (gmap string scalar)) : string :=
  join newline
    (["아래 추천 결과를 참고해 주세요:"] ++
     map (λ r,
       let t := str_or (row_get r "TITLE") "(제목 없음)" in
       let d := match r !! "DIST_KM" with Some v => py_str v | None => "-" end in
       let addr := str_or (row_get r "ADDR") "-" in
       let op := str_or (row_get r "OPERATING_TIME") "-" in
       let url := row_get r "URL" in
       "- " +:+ t +:+ " · " +:+ d +:+ "km · " +:+ addr +:+ " · 운영시간 " +:+ op +:+
       (if truthy url then " · " +:+ py_str url else "")) recs ++
     [newline +:+ "참고한 명소와 URL:"; _format_sources recs]).

Definition source_of (r : gmap string scalar) : gmap string scalar :=
  {[ "TITLE" := row_get r "TITLE"; "URL" := row_get r "URL" ]}.

Definition agent_d (state : gmap string pyval) : io (gmap string pyval) :=
  let question :=
    let q := state_get state "question" in
    if truthy_val q then q else PScalar (VStr "") in
  io* recs := io_lift (iter_rows (state_get state "recommendations")) in
  io* answer :=
    match recs with
    | [] => io_ret NO_RESULTS_ANSWER
    | _ =>
        io* llm := _llm_answer_azure question recs in
        let answer := match llm with Some a => a | None => "" end in
        if String.eqb answer "" then io_ret (template_answer recs)
        else io_ret answer
    end in
  let out := <["answer" := PScalar (VStr answer)]> state in
  io_ret (<["sources" := PRows (map source_of recs)]> out).

Definition is_none (p : pyval) : bool :=
  match p with PScalar VNone => true | _ => false end.

(** [p or d]. *)
Definition val_or (p d : pyval) : pyval := if truthy_val p then p else d.

Definition origin_resolver_node (state : gmap string pyval)
  : result (gmap string pyval) :=
  let out := state in
  let* mode := or_empty_strip_val (state_get out "origin_mode") in
  let mode := lower mode in
  if negb (String.eqb mode "device" || String.eqb mode "manual") then
    Raise (ValueError "[Agent O] origin_mode가 'device' 또는 'manual'이 아닙니다.")
  else
    let* resolved :=
      if String.eqb mode "device" then
        let lat := state_get out "origin_lat" in
        let lon := state_get out "origin_lon" in
        if is_none lat || is_none lon || negb (validate_coords lat lon) then
          Raise (ValueError "[Agent O] device 모드에서 유효한 좌표를 가져오지 못했습니다.")
        else
          Ok (lat, lon, val_or (state_get out "origin_label") (PScalar (VStr "내 위치")))
      else
        let label := val_or (state_get out "origin_label") (PScalar (VStr "")) in
        let* coords := if truthy_val label then get_preset_coord label else Ok None in
        match coords with
        | Some (la, lo) => Ok (PScalar (VFloat la), PScalar (VFloat lo), label)
        | None =>
            let lat := state_get out "origin_lat" in
            let lon := state_get out "origin_lon" in
            if is_none lat || is_none lon || negb (validate_coords lat lon) then
              Raise (ValueError "[Agent O] manual 모드에서 좌표가 없거나 잘못되었습니다.")
            else
              Ok (lat, lon, val_or label (PScalar (VStr "사용자 지정")))
        end in
    let '(lat, lon, origin_label) := resolved in
    let radius_km := state_get_default out "radius_km" (PScalar (VFloat 3)) in
    let radius_km :=
      match radius_km with
      | PScalar VNone => PScalar VNone
      | _ => match py_float_val radius_km with
             | Ok x => PScalar (VFloat x)
             | Raise _ => PScalar VNone
             end
      end in
    let topn := state_get_default out "topn" (PScalar (VInt 5)) in
    let topn :=
      match py_int_val topn with
      | Ok n => n
      | Raise _ => 5%Z
      end in
    let* lat_f := py_float_val lat in
    let* lon_f := py_float_val lon in
    Ok (<["topn" := PScalar (VInt topn)]>
        (<["radius_km" := radius_km]>
        (<["lon" := PScalar (VFloat lon_f)]>
        (<["lat" := PScalar (VFloat lat_f)]>
        (<["origin_lon" := PScalar (VFloat lon_f)]>
        (<["origin_lat" := PScalar (VFloat lat_f)]>
        (<["origin_label" := origin_label]>
        (<["origin_mode" := PScalar (VStr mode)]> out)))))))).

(** ** app/agents/graph.py *)

Definition is_empty_str (p : pyval) : bool :=
  match p with PScalar (VStr s) => String.eqb s "" | _ => false end.

Definition ensure_origin_valid (state : gmap string pyval) : result unit :=
  let* mode := or_empty_strip_val (state_get state "origin_mode") in
  let mode := lower mode in
  if negb (String.eqb mode "device" || String.eqb mode "manual") then
    Raise (ValueError "[Agent O] origin_mode는 'device' 또는 'manual'이어야 합니다.")
  else
    match py_float_val (state_get state "origin_lat"),
          py_float_val (state_get state "origin_lon") with
    | Ok lat, Ok lon =>
        if negb (Rleb (-90) lat && Rleb lat 90 && Rleb (-180) lon && Rleb lon 180) then
          Raise (ValueError "[Agent O] 좌표 범위를 벗어났습니다 (lat[-90,90], lon[-180,180]).")
        else
          let rk := state_get state "radius_km" in
          let* _ :=
            if negb (is_none rk) && negb (is_empty_str rk) then
              match py_float_val rk with
              | Ok rk_val =>
                  if Rltb rk_val 0 then
                    Raise (ValueError "[Agent O] radius_km은 0 이상이어야 합니다.")
                  else Ok tt
              | Raise _ => Raise (ValueError "[Agent O] radius_km은 숫자여야 합니다.")
              end
            else Ok tt in
          match py_int_val (state_get_default state "topn" (PScalar (VInt 5))) with
          | Ok topn =>
              if (topn <? 1)%Z then
                Raise (ValueError "[Agent O] topn은 1 이상이어야 합니다.")
              else Ok tt
          | Raise _ => Raise (ValueError "[Agent O] topn은 정수여야 합니다.")
          end
    | _, _ => Raise (ValueError "[Agent O] origin_lat / origin_lon이 유효한 숫자가 아닙니다.")
    end.

(** One node of a compiled graph: entering it is an event, and the dict it
    returns updates the state. *)
Definition run_node (name : string)
    (node : gmap string pyval → io (gmap string pyval))
    (state : gmap string pyval) : io (gmap string pyval) :=
  io* _ := emit (EvNode name) in
  io* out := node state in
  io_ret (out ∪ state).

(** [build_graph_full().invoke]: the edges O → C → E → D → END. *)
Definition build_graph_full (state : gmap string pyval) : io (gmap string pyval) :=
  io* s1 := run_node "AgentO_OriginResolver" (λ s, io_lift (origin_resolver_node s)) state in
  io* s2 := run_node "AgentC_Recommender" (λ s, io_lift (agent_c s)) s1 in
  io* s3 := run_node "AgentE_Map" (λ s, io_lift (agent_e s)) s2 in
  run_node "AgentD_Answer" agent_d s3.

(** [build_graph_ced().invoke]: the edges C → E → D → END. *)
Definition build_graph_ced (state : gmap string pyval) : io (gmap string pyval) :=
  io* s2 := run_node "AgentC_Recommender" (λ s, io_lift (agent_c s)) state in
  io* s3 := run_node "AgentE_Map" (λ s, io_lift (agent_e s)) s2 in
  run_node "AgentD_Answer" agent_d s3.

Definition opt_float (x : option R) : pyval :=
  match x with Some r => PScalar (VFloat r) | None => PScalar VNone end.

(** The state [run_o_to_d] builds from its arguments. *)
Definition o_to_d_state (rows : list (gmap string scalar)) (origin_mode : string)
    (origin_lat origin_lon : R) (origin_label question : string) (topn : Z)
    (radius_km : option R) (map_provider : option string) : gmap string pyval :=
  let state : gmap string pyval :=
    {[ "rows" := PRows rows;
       "origin_mode" := PScalar (VStr origin_mode);
       "origin_lat" := PScalar (VFloat origin_lat);
       "origin_lon" := PScalar (VFloat origin_lon);
       "origin_label" := PScalar (VStr origin_label);
       "topn" := PScalar (VInt topn);
       "radius_km" := opt_float radius_km;
       "question" := PScalar (VStr question) ]} in
  match map_provider with
  | Some p => if String.eqb p "" then state else <["map_provider" := PScalar (VStr p)]> state
  | None => state
  end.

Definition run_o_to_d (rows : list (gmap string scalar)) (origin_mode : string)
    (origin_lat origin_lon : R) (origin_label question : string) (topn : Z)
    (radius_km : option R) (map_provider : option string) : io (gmap string pyval) :=
  let state := o_to_d_state rows origin_mode origin_lat origin_lon origin_label
                 question topn radius_km map_provider in
  io* _ := io_lift (ensure_origin_valid state) in
  build_graph_full state.

Definition run_c_to_d (rows : list (gmap string scalar)) (lat lon : R)
    (question : string) (topn : Z) (radius_km : option R)
    (map_provider : option string) (center : option (R * R)) : io (gmap string pyval) :=
  let state : gmap string pyval :=
    {[ "rows" := PRows rows;
       "lat" := PScalar (VFloat lat);
       "lon" := PScalar (VFloat lon);
       "topn" := PScalar (VInt topn);
       "radius_km" := opt_float radius_km;
       "question" := PScalar (VStr question) ]} in
  let state :=
    match map_provider with
    | Some p => if String.eqb p "" then state else <["map_provider" := PScalar (VStr p)]> state
    | None => state
    end in
  let state :=
    match center with
    | Some (a, b) => <["center" := PPair a b]> state
    | None => state
    end in
  build_graph_ced state.

(** ** app/services/rag.py *)

Record Document : Type := {
  doc_id : nat;
  doc_title : string;
  doc_url : string;
  doc_text : string;
  doc_meta : gmap string scalar
}.

(** An embedding backend, as far as [search] uses it. *)
Record Embedder : Type := {
  embedder_name : string;
  encode_query : string → list R
}.

(** The process-wide [_INDEX]. *)
Record Index : Type := {
  docs : list Document;
  embeddings : option (list (list R));
  embedder : option Embedder
}.

(** [get_embedder] of [services/embeddings.py]: the first backend that
    succeeds among the remote one, TF-IDF and keyword counts, together with
    the vectors of the corpus. *)
Variable get_embedder : list string → Embedder * list (list R).

(** [numpy.argsort] with its default [kind]: indices that sort the array in
    ascending order. *)
Variable argsort : list R → list nat.

Definition CONCAT_KEYS : list string :=
  ["TITLE"; "CONTENTS"; "OPERATING_TIME"; "ENTR_FEE"; "SUBWAY"; "BUS";
   "PARKING_INFO"; "ADDR"; "URL"].

Definition _concat_fields (row : gmap string scalar) : string :=
  join " | "
    (omap (λ k, let v := row_get row k in
                if truthy v then Some (py_str v) else None) CONCAT_KEYS).

Fixpoint replace_newlines (s : string) : string :=
  match s with
  | EmptyString => EmptyString
  | String c t =>
      String (if Ascii.eqb c (ascii_of_nat 10) then " "%char else c) (replace_newlines t)
  end.

(** A string holds the UTF-8 bytes of a Python [str]; [len] and slices
    count code points.  A code point is a byte that is not a continuation
    byte ([10xxxxxx]), followed by its continuation bytes. *)
Definition is_continuation (c : ascii) : bool :=
  let n := nat_of_ascii c in (128 <=? n) && (n <? 192).

(** [len(s)]. *)
Fixpoint py_len (s : string) : nat :=
  match s with
  | EmptyString => 0
  | String c t => if is_continuation c then py_len t else S (py_len t)
  end.

(** [s[:n]]. *)
Fixpoint py_prefix (n : nat) (s : string) : string :=
  match s with
  | EmptyString => EmptyString
  | String c t =>
      if is_continuation c then String c (py_prefix n t)
      else match n with
           | 0 => EmptyString
           | S n' => String c (py_prefix n' t)
           end
  end.

Definition _make_snippet (text : string) : string :=
  let s := strip (replace_newlines text) in
  py_prefix 160 s +:+ (if 160 <? py_len s then "…" else "").

Definition EMPTY_INDEX : Index :=
  {| docs := []; embeddings := None; embedder := None |}.

Fixpoint make_docs (i : nat) (rows : list (gmap string scalar)) : result (list Document) :=
  match rows with
  | [] => Ok []
  | r :: rows' =>
      let* title := or_empty_strip (row_get r "TITLE") in
      let* url := or_empty_strip (row_get r "URL") in
      let text := _concat_fields r in
      let d := {| doc_id := i; doc_title := title; doc_url := url; doc_text := text;
                  doc_meta := {[ "addr" := row_get r "ADDR";
                                 "operating" := row_get r "OPERATING_TIME";
                                 "fee" := row_get r "ENTR_FEE" ]} |} in
      let* ds := make_docs (S i) rows' in
      Ok (d :: ds)
  end.

(** [np.array(doc_vecs, dtype=float)] raises on rows of unequal length. *)
Definition np_array (vecs : list (list R)) : result (list (list R)) :=
  match vecs with
  | [] => Ok []
  | v :: vs =>
      if forallb (λ w, length w =? length v) vs then Ok vecs
      else Raise (ValueError "setting an array element with a sequence")
  end.

(** [build_index(rows)] on the index [idx]: the outcome and the index
    afterwards (unchanged when the build raises). *)
Definition build_index (rows : list (gmap string scalar)) (idx : Index)
  : result unit * Index :=
  match rows with
  | [] => (Ok tt, EMPTY_INDEX)
  | _ =>
      match (let* ds := make_docs 0 rows in
             let '(e, doc_vecs) := get_embedder (map doc_text ds) in
             let* m := np_array doc_vecs in
             Ok {| docs := ds; embeddings := Some m; embedder := Some e |}) with
      | Ok idx' => (Ok tt, idx')
      | Raise e => (Raise e, idx)
      end
  end.

Definition Rsum (l : list R) : R := foldr Rplus 0%R l.

(** [np.linalg.norm] of a vector. *)
Definition norm (v : list R) : R := sqrt (Rsum (map (λ x, x * x)%R v)).

(** The product of a matrix row and a vector, which need equal length. *)
Definition dot (u v : list R) : result R :=
  if length u =? length v then Ok (Rsum (zip_with Rmult u v))
  else Raise (ValueError "matmul: dimension mismatch").

Fixpoint mapM {A B : Type} (f : A → result B) (l : list A) : result (list B) :=
  match l with
  | [] => Ok []
  | x :: l' => let* y := f x in let* ys := mapM f l' in Ok (y :: ys)
  end.

(** The cosine of the query with each row of the matrix. *)
Definition cosine_scores (doc_mat : list (list R)) (q_vec : list R) : result (list R) :=
  let doc_norms := map norm doc_mat in
  let q_norm := norm q_vec in
  if Req_dec_T q_norm 0 then Ok (map (λ _, 0%R) doc_mat)
  else
    let* dots := mapM (λ row, dot row q_vec) doc_mat in
    Ok (zip_with (λ dn d, if Rlt_dec 0 dn then (d / (dn * q_norm))%R else 0%R)
          doc_norms dots).

Definition hit_of (d : Document) (score : R) : gmap string scalar :=
  {[ "TITLE" := VStr (doc_title d);
     "URL" := VStr (doc_url d);
     "SNIPPET" := VStr (_make_snippet (doc_text d));
     "SCORE" := VFloat score ]}.

Definition search (idx : Index) (query : string) (k : Z)
  : result (list (gmap string scalar)) :=
  match docs idx, embeddings idx, embedder idx with
  | _ :: _, Some doc_mat, Some e =>
      if String.eqb query "" then Ok []
      else
        let q_vec := encode_query e query in
        match doc_mat with
        | [] => Raise (ValueError "axis 1 is out of bounds for array of dimension 1")
        | _ =>
            let* scores := cosine_scores doc_mat q_vec in
            let idxs := py_take k (argsort (map Ropp scores)) in
            mapM (λ i, match docs idx !! i, scores !! i with
                       | Some d, Some s => Ok (hit_of d s)
                       | _, _ => Raise IndexError
                       end) idxs
        end
  | _, _, _ => Ok []
  end.

(** ** app/services/datastore.py *)

Definition FIELDS : list string :=
  ["NUM"; "SUBJECT_CD"; "TITLE"; "ADDR"; "LA"; "LO";
   "TEL_NO"; "URL"; "OPERATING_TIME"; "FREE_YN"; "ENTR_FEE";
   "CONTENTS"; "SUBWAY"; "BUS"; "PARKING_INFO"; "REG_DATE"; "MOD_DATE"].

(** A value that is not [None] is trimmed with [value.strip()], which
    only a string has; [float] of a string raises [ValueError] only. *)
Definition _normalize_value (key : string) (value : scalar) : result scalar :=
  match value with
  | VNone => Ok VNone
  | VStr s =>
      let value := strip s in
      if String.eqb value "" then Ok VNone
      else if String.eqb key "LA" || String.eqb key "LO" then
        match py_float (VStr value) with
        | Ok fval => Ok (if Req_dec_T fval 0 then VNone else VFloat fval)
        | Raise (ValueError _) => Ok VNone
        | Raise e => Raise e
        end
      else Ok (VStr value)
  | _ => Raise AttributeError
  end.

(** The loop of [normalize_row], from the dict [out] built so far. *)
Fixpoint normalize_fields (keys : list string) (row out : gmap string scalar)
  : result (gmap string scalar) :=
  match keys with
  | [] => Ok out
  | key :: keys' =>
      let* v := _normalize_value key (row_get row key) in
      normalize_fields keys' row (<[key := v]> out)
  end.

Definition normalize_row (row : gmap string scalar) : result (gmap string scalar) :=
  normalize_fields FIELDS row ∅.

Definition normalize_rows (rows : list (gmap string scalar))
  : result (list (gmap string scalar)) :=
  mapM normalize_row rows.

(** ** scripts/fetch_and_index.py *)

Definition PAGE_SIZE : Z := 200.

Definition page_to_index_range (page page_size : Z) : Z * Z :=
  ((page - 1) * page_size + 1, page * page_size)%Z.

(** [s.split("-", 1)] when [s] holds a dash: the text before the first
    dash and the text after it. *)
Fixpoint split_dash (s : string) : option (string * string) :=
  match s with
  | EmptyString => None
  | String c t =>
      if Ascii.eqb c "-"%char then Some (EmptyString, t)
      else match split_dash t with
           | Some (a, b) => Some (String c a, b)
           | None => None
           end
  end.

(** [list(range(start, end + 1))] is a list of any length here; in Python
    a run too long for the memory raises. *)
Definition parse_pages (pages_arg : string) : result (list Z) :=
  let pages_arg := strip pages_arg in
  match split_dash pages_arg with
  | Some (s, e) =>
      let* start := py_int (VStr s) in
      let* end_ := py_int (VStr e) in
      if (start <=? 0)%Z || (end_ <? start)%Z then
        Raise (ValueError "--pages 범위를 확인하세요 (예: 1-5)")
      else Ok (seqZ start (end_ + 1 - start))
  | None =>
      let* val := py_int (VStr pages_arg) in
      if (val <=? 0)%Z then
        Raise (ValueError "--pages는 1 이상의 정수여야 합니다.")
      else Ok [val]
  end.

(** The keys of [dedupe_rows]: the tuple [("NUM", str(num))], or the tuple
    [("TALALOKEY", title, addr, la, lo)]. *)
Inductive dedupe_key : Type :=
| KeyNum (num : string)
| KeyFields (title addr la lo : string).

#[global] Instance dedupe_key_eq_dec : EqDecision dedupe_key.
Proof. solve_decision. Defined.

(** [str(v or "")]. *)
Definition str_or_empty (v : scalar) : string :=
  if truthy v then py_str v else "".

Definition dedupe_key_of (r : gmap string scalar) : dedupe_key :=
  if truthy (row_get r "NUM") then KeyNum (py_str (row_get r "NUM"))
  else KeyFields (strip (str_or_empty (row_get r "TITLE")))
                 (strip (str_or_empty (row_get r "ADDR")))
                 (str_or_empty (row_get r "LA"))
                 (str_or_empty (row_get r "LO")).

(** The loop of [dedupe_rows], from the set [seen] of the keys met. *)
Fixpoint dedupe_loop (rows : list (gmap string scalar)) (seen : list dedupe_key)
  : list (gmap string scalar) :=
  match rows with
  | [] => []
  | r :: rows' =>
      let key := dedupe_key_of r in
      if decide (key ∈ seen) then dedupe_loop rows' seen
      else r :: dedupe_loop rows' (key :: seen)
  end.

Definition dedupe_rows (rows : list (gmap string scalar))
  : list (gmap string scalar) :=
  dedupe_loop rows [].

(** ** app/services/embeddings.py *)

(** The loop of [_cosine] over [zip(a, b)], from the three sums so far. *)
Fixpoint cosine_loop (a b : list R) (num da db : R) : R * R * R :=
  match a, b with
  | x :: a', y :: b' => cosine_loop a' b' (num + x * y) (da + x * x) (db + y * y)
  | _, _ => (num, da, db)
  end.

Definition _cosine (a b : list R) : R :=
  let '(num, da, db) := cosine_loop a b 0 0 0 in
  if Req_dec_T da 0 then 0
  else if Req_dec_T db 0 then 0
  else num / (sqrt da * sqrt db).

(** [BaseEmbedder.similarity]. *)
Definition similarity (doc_vecs : list (list R)) (query_vec : list R) : list R :=
  map (λ v, _cosine v query_vec) doc_vecs.

(** ** app/services/vis.py *)

(** The functions of this module return [None] where the Python raises:
    [min] of no points ([ValueError]), a recommendation without [LA] or
    [LO] ([KeyError]), a coordinate that is not a number ([TypeError]), a
    division by zero ([ZeroDivisionError]). *)

(** [min(l)] and [max(l)]: the first least and the first greatest element. *)
Definition py_min (l : list R) : option R :=
  match l with
  | [] => None
  | x :: l' => Some (foldl (λ m y, if Rlt_dec y m then y else m) x l')
  end.

Definition py_max (l : list R) : option R :=
  match l with
  | [] => None
  | x :: l' => Some (foldl (λ m y, if Rlt_dec m y then y else m) x l')
  end.

(** [math.isclose(a, b)], with [rel_tol = 1e-09] and [abs_tol = 0.0]. *)
Definition isclose (a b : R) : bool :=
  Rleb (Rabs (a - b)) (Rmax (1e-9 * Rmax (Rabs a) (Rabs b)) 0).

Definition _bounds_from_points (points : list (R * R)) (padding_ratio : R)
  : option (R * R * R * R) :=
  let lats := map fst points in
  let lons := map snd points in
  min_lat ← py_min lats;
  max_lat ← py_max lats;
  min_lon ← py_min lons;
  max_lon ← py_max lons;
  let '(min_lat, max_lat) :=
    if isclose min_lat max_lat then (min_lat - 0.001, max_lat + 0.001)%R
    else (min_lat, max_lat) in
  let '(min_lon, max_lon) :=
    if isclose min_lon max_lon then (min_lon - 0.001, max_lon + 0.001)%R
    else (min_lon, max_lon) in
  let lat_pad := ((max_lat - min_lat) * padding_ratio)%R in
  let lon_pad := ((max_lon - min_lon) * padding_ratio)%R in
  Some (min_lat - lat_pad, max_lat + lat_pad, min_lon - lon_pad, max_lon + lon_pad)%R.

(** A value that takes part in float arithmetic and comparison. *)
Definition number_of (v : scalar) : option R :=
  match v with
  | VFloat x => Some x
  | VInt z => Some (IZR z)
  | VBool b => Some (if b then 1%R else 0%R)
  | _ => None
  end.

(** [(r["LA"], r["LO"])], as numbers. *)
Definition rec_point (r : gmap string scalar) : option (R * R) :=
  la ← r !! "LA";
  lo ← r !! "LO";
  la ← number_of la;
  lo ← number_of lo;
  Some (la, lo).

Fixpoint rec_points (recs : list (gmap string scalar)) : option (list (R * R)) :=
  match recs with
  | [] => Some []
  | r :: recs' =>
      p ← rec_point r;
      ps ← rec_points recs';
      Some (p :: ps)
  end.

(** [a / b] on floats. *)
Definition py_div (a b : R) : option R :=
  if Req_dec_T b 0 then None else Some (a / b)%R.

(** The inner function [to_xy] of [normalize_points_for_scatter], for the
    bounds it closes over. *)
Definition to_xy (b : R * R * R * R) (lat lon : R) : option (R * R) :=
  let '(min_lat, max_lat, min_lon, max_lon) := b in
  x ← py_div (lon - min_lon) (max_lon - min_lon);
  y ← py_div (lat - min_lat) (max_lat - min_lat);
  Some (x, y).

(** The dict [normalize_points_for_scatter] returns. *)
Record Scatter : Type := {
  xs : list R;
  ys : list R;
  titles : list scalar;
  center_x : R;
  center_y : R;
  bounds : option (R * R * R * R)
}.

(** The loop over the recommendations: [to_xy] is called with [LA] for its
    first and [LO] for its second argument, and what it returns is unpacked
    as [x, y]. *)
Fixpoint scatter_loop (b : R * R * R * R) (recs : list (gmap string scalar))
  : option (list R * list R * list scalar) :=
  match recs with
  | [] => Some ([], [], [])
  | r :: recs' =>
      p ← rec_point r;
      xy ← to_xy b p.1 p.2;
      let t := row_get r "TITLE" in
      let t := if truthy t then t else VStr "(제목 없음)" in
      '(xs, ys, titles) ← scatter_loop b recs';
      Some (xy.1 :: xs, xy.2 :: ys, t :: titles)
  end.

Definition normalize_points_for_scatter (recs : list (gmap string scalar))
    (center : R * R) : option Scatter :=
  match recs with
  | [] => Some {| xs := []; ys := []; titles := []; center_x := 0; center_y := 0;
                  bounds := None |}
  | _ =>
      pts ← rec_points recs;
      b ← _bounds_from_points (pts ++ [center]) 0.15;
      '(xs, ys, titles) ← scatter_loop b recs;
      c ← to_xy b center.1 center.2;
      Some {| xs := xs; ys := ys; titles := titles; center_x := c.1; center_y := c.2;
              bounds := Some b |}
  end.

(** ** app/services/embeddings.py: the keyword backend *)

(** [str.split()] with no argument: the maximal runs of characters that are
    not white space. *)
Variable py_split : string → list string.

Definition _simple_tokenize (text : string) : list string :=
  filter (λ t, t ≠ "") (py_split (lower text)).

(** The order of [sorted] on strings. *)
Definition string_le (a b : string) : Prop := String.leb a b = true.

#[global] Instance string_le_dec (a b : string) : Decision (string_le a b).
Proof. unfold string_le. apply _. Defined.

(** [{w: i for i, w in enumerate(sorted(vocab_set))}], for the set of the
    tokens of the corpus. *)
Definition vocab_words (tokenized_docs : list (list string)) : list string :=
  merge_sort string_le (remove_dups (concat tokenized_docs)).

Definition vocab_of (words : list string) : gmap string nat :=
  list_to_map (imap (λ i w, (w, i)) words).

(** The loop of [_to_vec]: [vec[idx] += 1.0] raises [IndexError] past the
    end of [vec]. *)
Fixpoint to_vec_loop (vocab : gmap string nat) (toks : list string) (vec : list R)
  : result (list R) :=
  match toks with
  | [] => Ok vec
  | tok :: toks' =>
      match vocab !! tok with
      | Some idx =>
          match vec !! idx with
          | Some x => to_vec_loop vocab toks' (<[idx := (x + 1)%R]> vec)
          | None => Raise IndexError
          end
      | None => to_vec_loop vocab toks' vec
      end
  end.

Definition _to_vec (vocab : gmap string nat) (toks : list string) : result (list R) :=
  to_vec_loop vocab toks (replicate (size vocab) 0%R).

(** The attributes of a [KeywordEmbedder]. *)
Record KeywordEmbedder : Type := {
  vocab : gmap string nat;
  doc_vecs : list (list R)
}.

(** [KeywordEmbedder.__init__]. *)
Definition KeywordEmbedder_init (corpus : list string) : result KeywordEmbedder :=
  let tokenized_docs := map _simple_tokenize corpus in
  let vocab := vocab_of (vocab_words tokenized_docs) in
  let* doc_vecs := mapM (_to_vec vocab) tokenized_docs in
  Ok {| vocab := vocab; doc_vecs := doc_vecs |}.

(** [KeywordEmbedder.encode_texts], and [BaseEmbedder.encode_query] on it:
    [encode_texts([text])[0]]. *)
Definition KeywordEmbedder_encode_texts (e : KeywordEmbedder) (texts : list string)
  : result (list (list R)) :=
  mapM (λ t, _to_vec (vocab e) (_simple_tokenize t)) texts.

Definition KeywordEmbedder_encode_query (e : KeywordEmbedder) (text : string)
  : result (list R) :=
  let* vs := KeywordEmbedder_encode_texts e [text] in
  match vs with
  | v :: _ => Ok v
  | [] => Raise IndexError
  end.
(** Proofs depend on the parameters their statements name, and on no others. *)
Set Default Proof Using "Type*".

(** ** Facts on the stable sort *)
Section stable_sort_facts.
Context {A : Type} (key : A → R).

Lemma insert_by_perm (x : A) (l : list A) : insert_by key x l ≡ₚ x :: l.
Proof.
  induction l as [|y l IH]; simpl; [done|].
  destruct (Rlt_dec (key y) (key x)); [|done].
  rewrite IH. apply Permutation_swap.
Qed.

Lemma sort_by_perm (l : list A) : sort_by key l ≡ₚ l.
Proof.
  induction l as [|x l IH]; simpl; [done|].
  by rewrite insert_by_perm, IH.
Qed.

Lemma sort_by_length (l : list A) : length (sort_by key l) = length l.
Proof. apply Permutation_length, sort_by_perm. Qed.

Lemma insert_by_sorted (x : A) (l : list A) :
  StronglySorted (λ a b, (key a <= key b)%R) l →
  StronglySorted (λ a b, (key a <= key b)%R) (insert_by key x l).
Proof.
  induction 1 as [|y l Hl IH Hy]; simpl.
  - repeat constructor.
  - destruct (Rlt_dec (key y) (key x)) as [Hlt|Hge].
    + constructor; [done|].
      rewrite insert_by_perm. constructor; [lra|done].
    + constructor; [by constructor|].
      constructor; [lra|].
      eapply Forall_impl; [exact Hy|]. intros z Hz. simpl in Hz. lra.
Qed.

Lemma sort_by_sorted (l : list A) :
  StronglySorted (λ a b, (key a <= key b)%R) (sort_by key l).
Proof.
  induction l as [|x l IH]; simpl; [constructor|by apply insert_by_sorted].
Qed.

(** Stability: elements with the same key keep their relative order. *)
Lemma insert_by_stable (k : R) (x : A) (l : list A) :
  filter (λ a, key a = k) (insert_by key x l) = filter (λ a, key a = k) (x :: l).
Proof.
  induction l as [|y l IH]; simpl; [done|].
  destruct (Rlt_dec (key y) (key x)) as [Hlt|Hge]; [|done].
  rewrite (filter_cons _ y), IH, !filter_cons.
  repeat case_decide; try done; lra.
Qed.

Lemma sort_by_stable (k : R) (l : list A) :
  filter (λ a, key a = k) (sort_by key l) = filter (λ a, key a = k) l.
Proof.
  induction l as [|x l IH]; simpl; [done|].
  by rewrite insert_by_stable, !filter_cons, IH.
Qed.




End stable_sort_facts.



(** ** Facts on [nearest] *)

Lemma Rltb_true (x y : R) : Rltb x y = true ↔ (x < y)%R.
Proof. unfold Rltb. destruct (Rlt_dec x y); split; (done || lra). Qed.

Lemma Rleb_true (x y : R) : Rleb x y = true ↔ (x <= y)%R.
Proof. unfold Rleb. destruct (Rle_dec x y); split; (done || lra). Qed.

Lemma _safe_float_Some (x : scalar) (f : R) :
  _safe_float x = Some f → py_float x = Ok f ∧ f ≠ 0%R.
Proof.
  unfold _safe_float. destruct x; try done;
    (destruct (py_float _) as [g|]; [|done]);
    destruct (Req_dec_T g 0); [done| |done| |done| |done|];
    intros [= ->]; done.
Qed.

(** The shape of an entry [nearest] appends for a row. *)
Definition entry_of (lat lon : R) (radius_km : pyval) (c : gmap string scalar) : Prop :=
  ∃ la lo : R,
    c !! "LA" = Some (VFloat la) ∧ c !! "LO" = Some (VFloat lo) ∧
    la ≠ 0%R ∧ lo ≠ 0%R ∧
    c !! "DIST_KM" = Some (VFloat (py_round (haversine_km lat lon la lo) 3)) ∧
    ∀ rk, numeric radius_km = Some rk → (haversine_km lat lon la lo <= rk)%R.

Lemma candidate_entry (lat lon : R) (radius_km : pyval) (r c : gmap string scalar) :
  candidate lat lon radius_km r = Ok (Some c) → entry_of lat lon radius_km c.
Proof.
  unfold candidate.
  destruct (_safe_float (row_get r "LA")) as [la|] eqn:Hla; [|done].
  destruct (_safe_float (row_get r "LO")) as [lo|] eqn:Hlo; [|done].
  apply _safe_float_Some in Hla as [_ Hla], Hlo as [_ Hlo].
  set (d := haversine_km lat lon la lo).
  assert (∀ far, match radius_km with
                 | PScalar VNone => Ok false
                 | _ => float_gt d radius_km
                 end = Ok far → far = false →
                 ∀ rk, numeric radius_km = Some rk → (d <= rk)%R) as Hfar.
  { intros far Hf -> rk Hrk.
    assert (float_gt d radius_km = Ok false) as Hgt.
    { destruct radius_km as [[]| |]; try done. }
    unfold float_gt in Hgt. rewrite Hrk in Hgt.
    injection Hgt as Hgt. unfold Rltb in Hgt.
    destruct (Rlt_dec rk d); [done|lra]. }
  destruct (match radius_km with PScalar VNone => _ | _ => _ end) as [far|] eqn:Hf;
    simpl; [|done].
  destruct far; [done|].
  destruct (or_empty_strip (row_get r "TITLE")); simpl; [|done].
  destruct (or_empty_strip (row_get r "ADDR")); simpl; [|done].
  destruct (or_empty_strip (row_get r "OPERATING_TIME")); simpl; [|done].
  destruct (or_empty_strip (row_get r "URL")); simpl; [|done].
  intros [= <-]. exists la, lo.
  split_and!; [by simplify_map_eq..|done|done|by simplify_map_eq|by eapply Hfar].
Qed.

Lemma candidates_entries (lat lon : R) (radius_km : pyval)
    (rows cands : list (gmap string scalar)) :
  candidates lat lon radius_km rows = Ok cands →
  Forall (entry_of lat lon radius_km) cands.
Proof.
  revert cands. induction rows as [|r rows IH]; simpl; intros cands.
  - intros [= <-]. constructor.
  - destruct (candidate lat lon radius_km r) as [c|] eqn:Hc; simpl; [|done].
    destruct (candidates lat lon radius_km rows) as [cs|]; simpl; [|done].
    intros [= <-]. destruct c as [c|]; [|by apply IH].
    constructor; [by eapply candidate_entry|by apply IH].
Qed.

(** The loop keeps catalog order: it distributes over concatenation. *)
Lemma candidates_app (lat lon : R) (radius_km : pyval)
    (rows1 rows2 : list (gmap string scalar)) :
  candidates lat lon radius_km (rows1 ++ rows2) =
  let* a := candidates lat lon radius_km rows1 in
  let* b := candidates lat lon radius_km rows2 in
  Ok (a ++ b).
Proof.
  induction rows1 as [|r rows1 IH]; simpl.
  - by destruct (candidates lat lon radius_km rows2).
  - destruct (candidate lat lon radius_km r) as [c|]; simpl; [|done].
    rewrite IH.
    destruct (candidates lat lon radius_km rows1); simpl; [|done].
    destruct (candidates lat lon radius_km rows2); simpl; [|done].
    by destruct c.
Qed.

(** Rows as the catalog supplies them: a text field is a string or [None];
    the radius is a number or [None]. *)
Definition text_or_none (v : scalar) : Prop := v = VNone ∨ ∃ s, v = VStr s.

Definition typed_row (r : gmap string scalar) : Prop :=
  text_or_none (row_get r "TITLE") ∧ text_or_none (row_get r "ADDR") ∧
  text_or_none (row_get r "OPERATING_TIME") ∧ text_or_none (row_get r "URL").

Definition typed_radius (p : pyval) : Prop :=
  p = PScalar VNone ∨ is_Some (numeric p).

Lemma or_empty_strip_text (v : scalar) :
  text_or_none v → ∃ s, or_empty_strip v = Ok s.
Proof.
  intros [->|[s ->]]; unfold or_empty_strip; simpl; [by eexists|].
  destruct (negb _); by eexists.
Qed.

Lemma candidate_total (lat lon : R) (radius_km : pyval) (r : gmap string scalar) :
  typed_row r → typed_radius radius_km →
  ∃ c, candidate lat lon radius_km r = Ok c.
Proof.
  intros (Ht & Ha & Ho & Hu) Hr. unfold candidate.
  destruct (_safe_float (row_get r "LA")); [|by eexists].
  destruct (_safe_float (row_get r "LO")); [|by eexists].
  assert (∃ far, match radius_km with
                 | PScalar VNone => Ok false
                 | _ => float_gt (haversine_km lat lon r0 r1) radius_km
                 end = Ok far) as [far ->].
  { destruct Hr as [->|[x Hx]]; [by eexists|].
    unfold float_gt. rewrite Hx.
    destruct radius_km as [[]| |]; try done; by eexists. }
  simpl. destruct far; [by eexists|].
  apply or_empty_strip_text in Ht as [? ->], Ha as [? ->], Ho as [? ->], Hu as [? ->].
  simpl. by eexists.
Qed.

Lemma candidates_total (lat lon : R) (radius_km : pyval)
    (rows : list (gmap string scalar)) :
  Forall typed_row rows → typed_radius radius_km →
  ∃ cands, candidates lat lon radius_km rows = Ok cands.
Proof.
  intros Hrows Hr. induction Hrows as [|r rows Hrow _ [cs IH]]; simpl; [by eexists|].
  destruct (candidate_total lat lon radius_km r Hrow Hr) as [c ->].
  rewrite IH. simpl. by eexists.
Qed.

Lemma nearest_entries (rows recs : list (gmap string scalar)) (lat lon : R)
    (topn : Z) (radius_km : pyval) :
  nearest rows lat lon topn radius_km = Ok recs →
  Forall (entry_of lat lon radius_km) recs.
Proof.
  unfold nearest.
  destruct (candidates lat lon radius_km rows) as [cands|] eqn:Hc; simpl; [|done].
  intros [= <-]. apply Forall_take. rewrite sort_by_perm.
  by eapply candidates_entries.
Qed.

(** Coordinates that [float] reads as a finite number or rejects.  A
    [VFloat] is finite; an integer is within the range of a float; and a
    text does not spell [nan], [inf] or [infinity] (whatever the case, the
    sign and the space around: texts whose letters are exactly these are
    left out, and no other text reads as one of them). *)
Definition is_letter (c : ascii) : bool :=
  let n := nat_of_ascii c in
  ((65 <=? n) && (n <=? 90)) || ((97 <=? n) && (n <=? 122)).

Fixpoint letters (s : string) : string :=
  match s with
  | EmptyString => EmptyString
  | String c t => if is_letter c then String c (letters t) else letters t
  end.

Definition special_float_text (s : string) : bool :=
  let t := lower (letters s) in
  String.eqb t "nan" || String.eqb t "inf" || String.eqb t "infinity".

Definition finite_coord (v : scalar) : Prop :=
  match v with
  | VStr s => special_float_text s = false
  | VInt z => (Z.abs z < 2 ^ 1023)%Z
  | _ => True
  end.

Definition finite_coords (r : gmap string scalar) : Prop :=
  finite_coord (row_get r "LA") ∧ finite_coord (row_get r "LO").








(** A coordinate field that is missing, does not parse, or is exactly 0. *)
Definition coord_absent (v : scalar) : Prop :=
  v = VNone ∨ (∃ e, py_float v = Raise e) ∨ py_float v = Ok 0%R.

Lemma coord_absent_safe_float (v : scalar) :
  coord_absent v ↔ _safe_float v = None.
Proof.
  unfold coord_absent, _safe_float. split.
  - intros [->|[[e He]|He]]; [done| |]; rewrite He; destruct v; try done;
      destruct (Req_dec_T 0 0); done.
  - destruct v; [by left|..];
      (destruct (py_float _) as [f|e] eqn:Hf; [|by right; left; eexists]);
      destruct (Req_dec_T f 0) as [->|]; try done; by right; right.
Qed.

Lemma candidate_absent (lat lon : R) (radius_km : pyval) (r : gmap string scalar) :
  coord_absent (row_get r "LA") ∨ coord_absent (row_get r "LO") →
  candidate lat lon radius_km r = Ok None.
Proof.
  rewrite !coord_absent_safe_float. unfold candidate.
  intros [->| ->]; [done|]. by destruct (_safe_float _).
Qed.

(** C4. A row whose latitude or longitude is missing, does not parse, or
    is exactly 0 is left out of the ranking: the result is the one of the
    catalog without that row, for every origin, [topn] and radius; and
    every returned entry has both coordinates non-zero. *)
Theorem nearest_skips_absent_coords (rows1 rows2 : list (gmap string scalar))
    (r : gmap string scalar) (lat lon : R) (topn : Z) (radius_km : pyval) :
  (coord_absent (row_get r "LA") ∨ coord_absent (row_get r "LO") →
   nearest (rows1 ++ r :: rows2) lat lon topn radius_km =
   nearest (rows1 ++ rows2) lat lon topn radius_km) ∧
  ∀ recs, nearest (rows1 ++ r :: rows2) lat lon topn radius_km = Ok recs →
    Forall (λ c, ∃ la lo : R, c !! "LA" = Some (VFloat la) ∧
                   c !! "LO" = Some (VFloat lo) ∧ la ≠ 0%R ∧ lo ≠ 0%R) recs.
Proof.
  split.
  - intros Habs. unfold nearest. rewrite !candidates_app. simpl.
    rewrite (candidate_absent _ _ _ _ Habs). simpl.
    destruct (candidates lat lon radius_km rows1); simpl; [|done].
    by destruct (candidates lat lon radius_km rows2).
  - intros recs Hn.
    eapply Forall_impl; [exact (nearest_entries _ _ _ _ _ _ Hn)|].
    intros c (la & lo & ? & ? & ? & ? & _). by exists la, lo.
Qed.

Lemma atan2_0_1 : atan2 0 1 = 0%R.
Proof.
  unfold atan2. destruct (Rlt_dec 0 1) as [_|H]; [|lra].
  replace (0 / 1)%R with 0%R by lra. apply atan_0.
Qed.

Lemma haversine_same (lat lon : R) : haversine_km lat lon lat lon = 0%R.
Proof.
  unfold haversine_km, radians.
  replace ((lat * (PI / 180) - lat * (PI / 180)) / 2)%R with 0%R by lra.
  replace ((lon - lon) * (PI / 180) / 2)%R with 0%R by lra.
  rewrite sin_0.
  replace (0 ^ 2 + cos (lat * (PI / 180)) * cos (lat * (PI / 180)) * 0 ^ 2)%R with 0%R by ring.
  rewrite sqrt_0. replace (1 - 0)%R with 1%R by lra. rewrite sqrt_1, atan2_0_1. ring.
Qed.

Lemma haversine_sym (lat1 lon1 lat2 lon2 : R) :
  haversine_km lat1 lon1 lat2 lon2 = haversine_km lat2 lon2 lat1 lon1.
Proof.
  unfold haversine_km, radians.
  replace ((lat1 * (PI / 180) - lat2 * (PI / 180)) / 2)%R
    with (- ((lat2 * (PI / 180) - lat1 * (PI / 180)) / 2))%R by lra.
  replace ((lon1 - lon2) * (PI / 180) / 2)%R
    with (- ((lon2 - lon1) * (PI / 180) / 2))%R by lra.
  rewrite !sin_neg.
  set (s1 := sin _). set (s2 := sin _). set (c1 := cos _). set (c2 := cos _).
  replace ((- s1) ^ 2 + c2 * c1 * (- s2) ^ 2)%R with (s1 ^ 2 + c1 * c2 * s2 ^ 2)%R by ring.
  reflexivity.
Qed.

(** C6. The haversine distance of a point to itself is 0, and the distance
    is symmetric in its two points. *)
Theorem haversine_zero_and_symmetric :
  (∀ lat lon : R, haversine_km lat lon lat lon = 0%R) ∧
  (∀ lat1 lon1 lat2 lon2 : R,
     haversine_km lat1 lon1 lat2 lon2 = haversine_km lat2 lon2 lat1 lon1).
Proof. split; [apply haversine_same|apply haversine_sym]. Qed.

(** ** Facts on the pipeline stages *)

Lemma rbind_Ok {A B : Type} (m : result A) (f : A → result B) (b : B) :
  rbind m f = Ok b → ∃ a, m = Ok a ∧ f a = Ok b.
Proof. destruct m as [a|]; simpl; [|done]. intros. by exists a. Qed.

Lemma state_get_insert_ne (s : gmap string pyval) (k k' : string) (v : pyval) :
  k ≠ k' → state_get (<[k := v]> s) k' = state_get s k'.
Proof. intros. unfold state_get. by rewrite lookup_insert_ne. Qed.

Lemma state_get_default_insert_ne (s : gmap string pyval) (k k' : string) (v d : pyval) :
  k ≠ k' → state_get_default (<[k := v]> s) k' d = state_get_default s k' d.
Proof. intros. unfold state_get_default. by rewrite lookup_insert_ne. Qed.

(** [out] holds every key of [s], and differs from [s] on the keys [own]
    at most. *)
Definition keeps_keys (s out : gmap string pyval) (own : list string) : Prop :=
  dom s ⊆ dom out ∧ ∀ k, k ∉ own → out !! k = s !! k.

(** A key is one of a literal list of keys. *)
Ltac in_keys :=
  solve [repeat first [apply list_elem_of_here | apply list_elem_of_further]].

Lemma keeps_keys_refl (s : gmap string pyval) (own : list string) :
  keeps_keys s s own.
Proof. by split. Qed.

Lemma keeps_keys_insert (s out : gmap string pyval) (own : list string)
    (k : string) (v : pyval) :
  k ∈ own → keeps_keys s out own → keeps_keys s (<[k := v]> out) own.
Proof.
  intros Hk [Hd Ho]. split.
  - rewrite dom_insert_L. etrans; [exact Hd|apply union_subseteq_r].
  - intros k' Hk'. rewrite lookup_insert_ne; [by apply Ho|]. by intros ->.
Qed.

Lemma keeps_keys_setdefault (s out : gmap string pyval) (own : list string)
    (k : string) (v : pyval) :
  k ∈ own → keeps_keys s out own → keeps_keys s (setdefault k v out) own.
Proof.
  intros Hk H. unfold setdefault. destruct (out !! k); [done|].
  by apply keeps_keys_insert.
Qed.

(** The radius and the count the resolver writes. *)
Definition resolved_radius (state : gmap string pyval) : pyval :=
  match state !! "radius_km" with
  | None => PScalar (VFloat 3)
  | Some (PScalar VNone) => PScalar VNone
  | Some v =>
      match py_float_val v with
      | Ok x => PScalar (VFloat x)
      | Raise _ => PScalar VNone
      end
  end.

Definition resolved_topn (state : gmap string pyval) : Z :=
  match py_int_val (state_get_default state "topn" (PScalar (VInt 5))) with
  | Ok n => n
  | Raise _ => 5%Z
  end.

Definition RESOLVER_KEYS : list string :=
  ["origin_mode"; "origin_label"; "origin_lat"; "origin_lon"; "lat"; "lon";
   "radius_km"; "topn"].

(** What the resolver returns when it returns. *)
Lemma origin_resolver_node_Ok (state out : gmap string pyval) :
  origin_resolver_node state = Ok out →
  ∃ (mode : string) (label : pyval) (lat lon : R),
    out = <["topn" := PScalar (VInt (resolved_topn state))]>
          (<["radius_km" := resolved_radius state]>
          (<["lon" := PScalar (VFloat lon)]>
          (<["lat" := PScalar (VFloat lat)]>
          (<["origin_lon" := PScalar (VFloat lon)]>
          (<["origin_lat" := PScalar (VFloat lat)]>
          (<["origin_label" := label]>
          (<["origin_mode" := PScalar (VStr mode)]> state))))))).
Proof.
  unfold origin_resolver_node. intros H.
  apply rbind_Ok in H as (mode & _ & H).
  destruct (negb _); [done|].
  apply rbind_Ok in H as ([[lat lon] label] & _ & H).
  apply rbind_Ok in H as (lat_f & _ & H).
  apply rbind_Ok in H as (lon_f & _ & H).
  injection H as <-.
  exists (lower mode), label, lat_f, lon_f.
  unfold resolved_topn, resolved_radius, state_get_default.
  destruct (state !! "radius_km") as [[[]| |]|]; reflexivity.
Qed.

Ltac destruct_rbind :=
  match goal with
  | |- context [rbind ?m _] => destruct m; simpl
  end.

(** Whether the resolver raises, and what, is decided without reading
    [topn] or [radius_km]. *)
Lemma origin_resolver_node_Raise_indep (state : gmap string pyval)
    (k : string) (v : pyval) (e : exn) :
  k = "topn" ∨ k = "radius_km" →
  origin_resolver_node (<[k := v]> state) = Raise e ↔
  origin_resolver_node state = Raise e.
Proof.
  intros Hk. unfold origin_resolver_node.
  rewrite !(state_get_insert_ne state k "origin_mode"),
          !(state_get_insert_ne state k "origin_lat"),
          !(state_get_insert_ne state k "origin_lon"),
          !(state_get_insert_ne state k "origin_label")
    by (destruct Hk as [-> | ->]; done).
  destruct_rbind; [|done].
  destruct (negb _); [done|].
  destruct_rbind; [|done].
  destruct a0 as [[lat lon] label].
  destruct_rbind; [|done].
  destruct_rbind; [|done].
  done.
Qed.

(** C7. The resolver never fails because of [topn]: whether it raises does
    not depend on the value of [topn]; when it returns, [topn] is
    [int(topn)] if that conversion succeeds (no range check) and 5 if it
    raises. *)
Theorem resolver_topn_lenient (state : gmap string pyval) :
  (∀ (v : pyval) (e : exn),
     origin_resolver_node (<["topn" := v]> state) = Raise e ↔
     origin_resolver_node state = Raise e) ∧
  (∀ out, origin_resolver_node state = Ok out →
     out !! "topn" =
     Some (PScalar (VInt
       match py_int_val (state_get_default state "topn" (PScalar (VInt 5))) with
       | Ok n => n
       | Raise _ => 5%Z
       end))).
Proof.
  split.
  - intros v e. apply origin_resolver_node_Raise_indep. by left.
  - intros out (mode & label & lat & lon & ->)%origin_resolver_node_Ok.
    by rewrite lookup_insert_eq.
Qed.

(** C3, as the code has it. The resolver never fails because of
    [radius_km]: whether it raises does not depend on that value; when it
    returns, the radius is 3.0 if the key is absent, [None] if the value is
    [None] or does not convert to a float (the empty string included), and
    [float(radius_km)] otherwise, negative values included. *)
Theorem resolver_radius_lenient (state : gmap string pyval) :
  (∀ (v : pyval) (e : exn),
     origin_resolver_node (<["radius_km" := v]> state) = Raise e ↔
     origin_resolver_node state = Raise e) ∧
  (∀ out, origin_resolver_node state = Ok out →
     out !! "radius_km" =
     Some match state !! "radius_km" with
          | None => PScalar (VFloat 3)
          | Some (PScalar VNone) => PScalar VNone
          | Some v =>
              match py_float_val v with
              | Ok x => PScalar (VFloat x)
              | Raise _ => PScalar VNone
              end
          end) ∧
  py_float_val (PScalar (VStr "")) = Raise (ValueError "could not convert string to float").
Proof.
  split_and!.
  - intros v e. apply origin_resolver_node_Raise_indep. by right.
  - intros out (mode & label & lat & lon & ->)%origin_resolver_node_Ok.
    by rewrite lookup_insert_ne, lookup_insert_eq.
  - reflexivity.
Qed.

Lemma agent_c_keeps (state out : gmap string pyval) :
  agent_c state = Ok out → keeps_keys state out ["recommendations"; "center"].
Proof.
  unfold agent_c. intros H.
  repeat (apply rbind_Ok in H as (? & _ & H)).
  injection H as <-.
  apply keeps_keys_setdefault; [in_keys|].
  apply keeps_keys_insert; [in_keys|]. apply keeps_keys_refl.
Qed.

Lemma agent_e_keeps (state out : gmap string pyval) :
  agent_e state = Ok out → keeps_keys state out ["map_html"].
Proof.
  unfold agent_e. intros H.
  apply rbind_Ok in H as (? & _ & H).
  destruct (negb (truthy_val (state_get state "recommendations")));
    injection H as <-;
    (apply keeps_keys_insert; [in_keys|apply keeps_keys_refl]).
Qed.

(** What [agent_d] returns: it raises only when the recommendations cannot
    be iterated, and otherwise adds an answer and the sources. *)
Lemma agent_d_unfold (state : gmap string pyval) :
  match iter_rows (state_get state "recommendations") with
  | Raise e => agent_d state = (Raise e, [])
  | Ok recs =>
      ∃ (answer : string) (evs : list event),
        agent_d state =
        (Ok (<["sources" := PRows (map source_of recs)]>
             (<["answer" := PScalar (VStr answer)]> state)), evs) ∧
        (recs = [] → answer = NO_RESULTS_ANSWER ∧ evs = [])
  end.
Proof.
  unfold agent_d.
  destruct (iter_rows _) as [recs|e]; simpl; [|done].
  destruct recs as [|r recs]; simpl.
  - by eexists _, _.
  - unfold _llm_answer_azure.
    destruct (_ || _); simpl.
    + eexists _, _. split; [reflexivity|done].
    + destruct (String.eqb _ ""); simpl; eexists _, _; (split; [reflexivity|done]).
Qed.

Lemma agent_d_keeps (state out : gmap string pyval) (evs : list event) :
  agent_d state = (Ok out, evs) → keeps_keys state out ["answer"; "sources"].
Proof.
  pose proof (agent_d_unfold state) as H.
  destruct (iter_rows _) as [recs|e]; [|by rewrite H].
  destruct H as (answer & evs' & -> & _). intros [= <- _].
  do 2 (apply keeps_keys_insert; [in_keys|]). apply keeps_keys_refl.
Qed.

(** C5. Each stage, when it returns, returns a context that holds every
    key of its input; it changes the value of its own output keys at most. *)
Theorem stages_keep_upstream_keys (state out : gmap string pyval) :
  (origin_resolver_node state = Ok out → keeps_keys state out RESOLVER_KEYS) ∧
  (agent_c state = Ok out → keeps_keys state out ["recommendations"; "center"]) ∧
  (agent_e state = Ok out → keeps_keys state out ["map_html"]) ∧
  (∀ evs, agent_d state = (Ok out, evs) → keeps_keys state out ["answer"; "sources"]).
Proof.
  split_and!.
  - intros (mode & label & lat & lon & ->)%origin_resolver_node_Ok.
    unfold RESOLVER_KEYS.
    repeat (apply keeps_keys_insert; [in_keys|]). apply keeps_keys_refl.
  - apply agent_c_keeps.
  - apply agent_e_keeps.
  - intros evs. apply agent_d_keeps.
Qed.

(** What a source is for a recommendation: the dict of its [TITLE] and its
    [URL], as [r.get] reads them, and of nothing else. *)
Definition source_pair (r s : gmap string scalar) : Prop :=
  s !! "TITLE" = Some (row_get r "TITLE") ∧
  s !! "URL" = Some (row_get r "URL") ∧
  ∀ k, k ≠ "TITLE" → k ≠ "URL" → s !! k = None.

Lemma source_of_pair (r : gmap string scalar) : source_pair r (source_of r).
Proof.
  unfold source_pair, source_of. split_and!.
  - by rewrite lookup_insert_eq.
  - rewrite lookup_insert_ne by done. by rewrite lookup_singleton_eq.
  - intros k Ht Hu. rewrite lookup_insert_ne by done.
    by rewrite lookup_singleton_ne.
Qed.

Lemma sources_pairs (recs : list (gmap string scalar)) :
  Forall2 source_pair recs (map source_of recs).
Proof.
  induction recs as [|r recs IH]; constructor; [apply source_of_pair|exact IH].
Qed.

(** C8. With no recommendations [agent_d] answers with the fixed message,
    sends no request to the chat endpoint and returns no sources.  Whenever
    it returns, whatever the configuration and the endpoint do, the sources
    are one dict per recommendation, in order, each holding the [TITLE] and
    the [URL] of its recommendation and no other key.  It returns whenever
    the recommendations are a list. *)
Theorem agent_d_answer_and_sources (state : gmap string pyval) :
  (iter_rows (state_get state "recommendations") = Ok [] →
   agent_d state =
   (Ok (<["sources" := PRows []]>
        (<["answer" := PScalar (VStr NO_RESULTS_ANSWER)]> state)), [])) ∧
  (∀ recs, iter_rows (state_get state "recommendations") = Ok recs →
   ∃ out evs srcs, agent_d state = (Ok out, evs) ∧
     out !! "sources" = Some (PRows srcs) ∧
     Forall2 source_pair recs srcs) ∧
  (∀ out evs, agent_d state = (Ok out, evs) →
   ∃ recs srcs, iter_rows (state_get state "recommendations") = Ok recs ∧
     out !! "sources" = Some (PRows srcs) ∧
     Forall2 source_pair recs srcs).
Proof.
  pose proof (agent_d_unfold state) as H. split_and!.
  - intros Hr. rewrite Hr in H. destruct H as (answer & evs & -> & He).
    by destruct He as [-> ->].
  - intros recs Hr. rewrite Hr in H. destruct H as (answer & evs & -> & _).
    eexists _, _, _. split; [done|]. split; [by rewrite lookup_insert_eq|].
    apply sources_pairs.
  - intros out evs Hd. destruct (iter_rows _) as [recs|e]; [|by rewrite H in Hd].
    destruct H as (answer & evs' & H & _). rewrite H in Hd. injection Hd as <- _.
    eexists recs, _. split; [done|]. split; [by rewrite lookup_insert_eq|].
    apply sources_pairs.
Qed.

(** ** Facts on the validation gate and the runs *)

(** The conditions the gate is there to reject. *)
Definition mode_invalid (state : gmap string pyval) : Prop :=
  ∀ mode, or_empty_strip_val (state_get state "origin_mode") = Ok mode →
    lower mode ≠ "device" ∧ lower mode ≠ "manual".

Definition coordinate_invalid (state : gmap string pyval) : Prop :=
  (∃ e, py_float_val (state_get state "origin_lat") = Raise e) ∨
  (∃ e, py_float_val (state_get state "origin_lon") = Raise e) ∨
  (∃ lat, py_float_val (state_get state "origin_lat") = Ok lat ∧
          ¬ (-90 <= lat <= 90)%R) ∨
  (∃ lon, py_float_val (state_get state "origin_lon") = Ok lon ∧
          ¬ (-180 <= lon <= 180)%R).

Definition topn_too_small (state : gmap string pyval) : Prop :=
  ∃ n, py_int_val (state_get_default state "topn" (PScalar (VInt 5))) = Ok n ∧
       (n < 1)%Z.

Definition radius_negative (state : gmap string pyval) : Prop :=
  ∃ x, py_float_val (state_get state "radius_km") = Ok x ∧ (x < 0)%R.

Definition gate_violation (state : gmap string pyval) : Prop :=
  mode_invalid state ∨ coordinate_invalid state ∨
  topn_too_small state ∨ radius_negative state.

Lemma Rleb_false (x y : R) : Rleb x y = false ↔ ¬ (x <= y)%R.
Proof. unfold Rleb. destruct (Rle_dec x y); split; (done || lra). Qed.

Lemma py_float_val_Ok_not_empty (p : pyval) (x : R) :
  py_float_val p = Ok x → is_none p = false ∧ is_empty_str p = false.
Proof.
  destruct p as [[]| |]; try done. simpl.
  destruct s; [|done]. done.
Qed.

Lemma ensure_origin_valid_rejects (state : gmap string pyval) :
  gate_violation state → ∃ e, ensure_origin_valid state = Raise e.
Proof.
  intros Hv. unfold ensure_origin_valid.
  destruct (or_empty_strip_val _) as [mode|e] eqn:Hmode; simpl; [|by eexists].
  destruct (String.eqb (lower mode) "device" || String.eqb (lower mode) "manual")
    eqn:Hm; simpl; [|by eexists].
  destruct (py_float_val (state_get state "origin_lat")) as [lat|] eqn:Hlat;
    [|by eexists].
  destruct (py_float_val (state_get state "origin_lon")) as [lon|] eqn:Hlon;
    [|by eexists].
  destruct (Rleb (-90) lat && Rleb lat 90 && Rleb (-180) lon && Rleb lon 180)
    eqn:Hrange; simpl; [|by eexists].
  apply andb_prop in Hrange as [[[H1 H2]%andb_prop H3]%andb_prop H4].
  apply Rleb_true in H1, H2, H3, H4.
  destruct (py_float_val (state_get state "radius_km")) as [rk|] eqn:Hrk.
  - destruct (py_float_val_Ok_not_empty _ _ Hrk) as [-> ->]. simpl.
    destruct (Rltb rk 0) eqn:Hneg; simpl; [by eexists|].
    destruct (py_int_val _) as [n|] eqn:Hn; [|by eexists].
    destruct (n <? 1)%Z eqn:Hlt; [by eexists|].
    exfalso. destruct Hv as [Hv|[Hv|[Hv|Hv]]].
    + destruct (Hv mode Hmode) as [Hd Hma].
      apply orb_prop in Hm as [Hm|Hm]; apply String.eqb_eq in Hm; done.
    + destruct Hv as [[? ?]|[[? ?]|[(x & Hx & Hr)|(x & Hx & Hr)]]];
        [congruence|congruence| |].
      * assert (x = lat) as -> by congruence. apply Hr; lra.
      * assert (x = lon) as -> by congruence. apply Hr; lra.
    + destruct Hv as (m & Hm' & ?). assert (m = n) as -> by congruence. lia.
    + destruct Hv as (x & Hx & ?). assert (x = rk) as -> by congruence.
      assert (Rltb rk 0 = true) by by apply Rltb_true. congruence.
  - destruct (negb (is_none _) && negb (is_empty_str _)); simpl; [by eexists|].
    destruct (py_int_val _) as [n|] eqn:Hn; [|by eexists].
    destruct (n <? 1)%Z eqn:Hlt; [by eexists|].
    exfalso. destruct Hv as [Hv|[Hv|[Hv|Hv]]].
    + destruct (Hv mode Hmode) as [Hd Hma].
      apply orb_prop in Hm as [Hm|Hm]; apply String.eqb_eq in Hm; done.
    + destruct Hv as [[? ?]|[[? ?]|[(x & Hx & Hr)|(x & Hx & Hr)]]];
        [congruence|congruence| |].
      * assert (x = lat) as -> by congruence. apply Hr; lra.
      * assert (x = lon) as -> by congruence. apply Hr; lra.
    + destruct Hv as (m & Hm' & ?). assert (m = n) as -> by congruence. lia.
    + destruct Hv as (x & Hx & ?). congruence.
Qed.

(** C2. The gate [ensure_origin_valid] raises whenever the mode does not
    normalize to device or manual, a coordinate does not convert to a
    number or is out of range, [topn] is below 1, or the radius is
    negative; and [run_o_to_d] runs it on the state it builds before it
    invokes the graph, so that a failure of the gate ends the run with that
    error and no node entered, the recommender in particular. *)
Theorem gate_rejects_and_aborts :
  (∀ state, gate_violation state → ∃ e, ensure_origin_valid state = Raise e) ∧
  (∀ rows origin_mode origin_lat origin_lon origin_label question topn
     radius_km map_provider,
     gate_violation (o_to_d_state rows origin_mode origin_lat origin_lon
                       origin_label question topn radius_km map_provider) →
     ∃ e, run_o_to_d rows origin_mode origin_lat origin_lon origin_label
            question topn radius_km map_provider = (Raise e, [])) ∧
  (∀ rows origin_mode origin_lat origin_lon origin_label question topn
     radius_km map_provider r evs,
     run_o_to_d rows origin_mode origin_lat origin_lon origin_label
       question topn radius_km map_provider = (r, evs) →
     EvNode "AgentC_Recommender" ∈ evs →
     ensure_origin_valid (o_to_d_state rows origin_mode origin_lat origin_lon
                            origin_label question topn radius_km map_provider)
     = Ok tt).
Proof.
  split_and!.
  - apply ensure_origin_valid_rejects.
  - intros. unfold run_o_to_d.
    destruct (ensure_origin_valid_rejects _ H) as [e ->]. by exists e.
  - intros * Hrun Hin. unfold run_o_to_d in Hrun.
    destruct (ensure_origin_valid _) as [[]|e]; [done|].
    simpl in Hrun. injection Hrun as <- <-. by apply elem_of_nil in Hin.
Qed.

(** ** Facts on the semantic index *)

Lemma mapM_Forall2 {A B : Type} (f : A → result B) (l : list A) (ys : list B) :
  mapM f l = Ok ys → Forall2 (λ x y, f x = Ok y) l ys.
Proof.
  revert ys. induction l as [|x l IH]; simpl; intros ys.
  - intros [= <-]. constructor.
  - destruct (f x) as [y|] eqn:Hy; simpl; [|done].
    destruct (mapM f l) as [ys'|]; simpl; [|done].
    intros [= <-]. constructor; [done|by apply IH].
Qed.

Lemma mapM_total {A B : Type} (f : A → result B) (l : list A) :
  Forall (λ x, ∃ y, f x = Ok y) l → ∃ ys, mapM f l = Ok ys.
Proof.
  induction 1 as [|x l [y Hy] _ [ys IH]]; simpl; [by eexists|].
  rewrite Hy, IH. simpl. by eexists.
Qed.

Lemma cosine_scores_length (doc_mat : list (list R)) (q_vec : list R) (scores : list R) :
  cosine_scores doc_mat q_vec = Ok scores → length scores = length doc_mat.
Proof.
  unfold cosine_scores. destruct (Req_dec_T _ _).
  - intros [= <-]. by rewrite length_map.
  - destruct (mapM _ doc_mat) as [dots|] eqn:Hd; simpl; [|done].
    intros [= <-]. apply mapM_Forall2, Forall2_length in Hd.
    rewrite length_zip_with, length_map. lia.
Qed.

Lemma cosine_scores_total (doc_mat : list (list R)) (q_vec : list R) :
  Forall (λ row, length row = length q_vec) doc_mat →
  ∃ scores, cosine_scores doc_mat q_vec = Ok scores.
Proof.
  intros Hdim. unfold cosine_scores. destruct (Req_dec_T _ _); [by eexists|].
  destruct (mapM_total (λ row, dot row q_vec) doc_mat) as [dots ->].
  - eapply Forall_impl; [exact Hdim|]. intros row Hrow. unfold dot.
    rewrite Hrow, Nat.eqb_refl. by eexists.
  - simpl. by eexists.
Qed.

Lemma cosine_scores_zero_query (doc_mat : list (list R)) (q_vec : list R) :
  norm q_vec = 0%R → cosine_scores doc_mat q_vec = Ok (map (λ _, 0%R) doc_mat).
Proof. intros Hq. unfold cosine_scores. by destruct (Req_dec_T _ _). Qed.

Lemma cosine_scores_zero_doc (doc_mat : list (list R)) (q_vec row : list R)
    (scores : list R) (i : nat) :
  cosine_scores doc_mat q_vec = Ok scores →
  doc_mat !! i = Some row → norm row = 0%R → scores !! i = Some 0%R.
Proof.
  unfold cosine_scores. intros Hs Hrow Hn. destruct (Req_dec_T _ _).
  - injection Hs as <-. by rewrite list_lookup_fmap, Hrow.
  - destruct (mapM _ doc_mat) as [dots|] eqn:Hd; simpl in Hs; [|done].
    injection Hs as <-. apply mapM_Forall2 in Hd.
    destruct (Forall2_lookup_l _ _ _ _ _ Hd Hrow) as (d & Hdot & _).
    rewrite lookup_zip_with, list_lookup_fmap, Hrow, Hdot. simpl.
    rewrite Hn. destruct (Rlt_dec 0 0); [lra|done].
Qed.

Lemma search_nothing (idx : Index) (query : string) (k : Z) :
  docs idx = [] ∨ query = "" ∨ embeddings idx = None ∨ embedder idx = None →
  search idx query k = Ok [].
Proof.
  unfold search. intros H.
  destruct (docs idx) as [|d ds]; [done|].
  destruct (embeddings idx) as [doc_mat|]; [|done].
  destruct (embedder idx) as [e|]; [|done].
  destruct H as [?|[->|[?|?]]]; done.
Qed.

(** [search] past its first test. *)
Lemma search_unfold (idx : Index) (d : Document) (ds : list Document)
    (row : list R) (m : list (list R)) (e : Embedder) (query : string) (k : Z) :
  docs idx = d :: ds → embeddings idx = Some (row :: m) → embedder idx = Some e →
  query ≠ "" →
  search idx query k =
  let* scores := cosine_scores (row :: m) (encode_query e query) in
  mapM (λ i, match (d :: ds) !! i, scores !! i with
             | Some d', Some s => Ok (hit_of d' s)
             | _, _ => Raise IndexError
             end) (py_take k (argsort (map Ropp scores))).
Proof.
  intros Hd Hm He Hq. unfold search. rewrite Hd, Hm, He.
  by destruct (String.eqb_spec query "").
Qed.

(** The loop of [search] over indices that are all in range. *)
Lemma mapM_hits (ds : list Document) (scores : list R) (idxs : list nat) :
  Forall (λ i, i < length ds ∧ i < length scores) idxs →
  ∃ hits,
    mapM (λ i, match ds !! i, scores !! i with
               | Some d, Some s => Ok (hit_of d s)
               | _, _ => Raise IndexError
               end) idxs = Ok hits ∧
    Forall2 (λ i h, ∃ d s, ds !! i = Some d ∧ scores !! i = Some s ∧
                           h = hit_of d s) idxs hits.
Proof.
  intros Hin.
  destruct (mapM_total (λ i, match ds !! i, scores !! i with
                             | Some d, Some s => Ok (hit_of d s)
                             | _, _ => Raise IndexError
                             end) idxs) as [hits Hh].
  { eapply Forall_impl; [exact Hin|]. intros i [Hd Hs]. simpl.
    destruct (lookup_lt_is_Some_2 ds i Hd) as [d ->].
    destruct (lookup_lt_is_Some_2 scores i Hs) as [s ->]. by eexists. }
  exists hits. split; [exact Hh|].
  apply mapM_Forall2 in Hh. eapply Forall2_impl; [exact Hh|].
  intros i h Hi. simpl in Hi.
  destruct (ds !! i) as [d|]; [|done]. destruct (scores !! i) as [s|]; [|done].
  injection Hi as <-. by exists d, s.
Qed.

(** C9. [search] returns the empty list when the index has no documents
    (as after [build_index([])]), the query is empty, or no backend or no
    matrix is set.  The cosine of a zero-norm query with every document is
    0, and so is the cosine of any query with a zero-norm document;
    computing the scores raises nothing when the vectors have the
    dimension of the query. *)
Theorem search_empty_and_zero_norm :
  (∀ idx query k,
     docs idx = [] ∨ query = "" ∨ embeddings idx = None ∨ embedder idx = None →
     search idx query k = Ok []) ∧
  (∀ idx query k,
     build_index [] idx = (Ok tt, EMPTY_INDEX) ∧
     search (build_index [] idx).2 query k = Ok []) ∧
  (∀ doc_mat q_vec,
     norm q_vec = 0%R →
     cosine_scores doc_mat q_vec = Ok (map (λ _, 0%R) doc_mat)) ∧
  (∀ doc_mat q_vec row scores i,
     cosine_scores doc_mat q_vec = Ok scores →
     doc_mat !! i = Some row → norm row = 0%R → scores !! i = Some 0%R) ∧
  (∀ doc_mat q_vec,
     Forall (λ row, length row = length q_vec) doc_mat →
     ∃ scores, cosine_scores doc_mat q_vec = Ok scores).
Proof.
  split_and!.
  - apply search_nothing.
  - intros. split; [done|]. apply search_nothing. by left.
  - apply cosine_scores_zero_query.
  - apply cosine_scores_zero_doc.
  - apply cosine_scores_total.
Qed.

(** What [numpy.argsort] promises whatever its [kind]: a permutation of
    the indices along which the values do not decrease. *)
Definition argsort_spec (f : list R → list nat) : Prop :=
  ∀ xs, f xs ≡ₚ seq 0 (length xs) ∧
        StronglySorted (λ i j, (nth i xs 0 <= nth j xs 0)%R) (f xs).

Definition hit_score (h : gmap string scalar) : R :=
  match h !! "SCORE" with
  | Some (VFloat x) => x
  | _ => 0%R
  end.

Lemma hit_score_hit_of (d : Document) (s : R) : hit_score (hit_of d s) = s.
Proof. unfold hit_score, hit_of. by simplify_map_eq. Qed.

(** A result of [search] for the document [d] with the score [s]: its
    title and address, the snippet of its text and the score, under the
    four keys and no other. *)
Definition is_hit (d : Document) (s : R) (h : gmap string scalar) : Prop :=
  h !! "TITLE" = Some (VStr (doc_title d)) ∧
  h !! "URL" = Some (VStr (doc_url d)) ∧
  h !! "SNIPPET" = Some (VStr (_make_snippet (doc_text d))) ∧
  h !! "SCORE" = Some (VFloat s) ∧
  ∀ key, key ≠ "TITLE" → key ≠ "URL" → key ≠ "SNIPPET" → key ≠ "SCORE" →
         h !! key = None.

Lemma hit_of_is_hit (d : Document) (s : R) : is_hit d s (hit_of d s).
Proof.
  unfold is_hit, hit_of. split_and!; [by simplify_map_eq..|].
  intros key H1 H2 H3 H4. rewrite !lookup_insert_ne by done.
  by rewrite lookup_singleton_ne.
Qed.

Lemma StronglySorted_Forall2 {A B : Type} (R1 : A → A → Prop) (R2 : B → B → Prop)
    (P : A → B → Prop) (l : list A) (k : list B) :
  (∀ a a' b b', P a b → P a' b' → R1 a a' → R2 b b') →
  Forall2 P l k → StronglySorted R1 l → StronglySorted R2 k.
Proof.
  intros HP. induction 1 as [|a b l k Hab Hlk IH]; [constructor|].
  intros [Ha Hl]%StronglySorted_cons. apply StronglySorted_cons.
  split; [|by apply IH].
  clear IH Hl. induction Hlk as [|a' b' l k Hab' _ IH]; [constructor|].
  apply Forall_cons in Ha as [Haa' Ha]. constructor; [by eapply HP|by apply IH].
Qed.

(** A well-formed index for a query: one vector per document, each of the
    dimension of the encoded query. *)
Definition aligned (idx : Index) (doc_mat : list (list R)) (q_vec : list R) : Prop :=
  length doc_mat = length (docs idx) ∧
  Forall (λ row, length row = length q_vec) doc_mat.

(** The indices [search] keeps. *)
Definition top_indices (k : Z) (scores : list R) : list nat :=
  py_take k (argsort (map Ropp scores)).

Lemma nth_opp_scores (scores : list R) (i : nat) (s : R) :
  scores !! i = Some s → nth i (map Ropp scores) 0%R = (- s)%R.
Proof. intros H. by rewrite nth_lookup, list_lookup_fmap, H. Qed.

Lemma py_take_nonneg {A : Type} (k : Z) (l : list A) :
  (0 ≤ k)%Z → py_take k l = take (Z.to_nat k) l.
Proof. intros Hk. unfold py_take. by apply Z.leb_le in Hk as ->. Qed.

Section ranked.
Hypothesis argsort_ok : argsort_spec argsort.

Lemma top_indices_length (k : Z) (scores : list R) :
  (0 ≤ k)%Z → length (top_indices k scores) = Z.to_nat k `min` length scores.
Proof.
  intros Hk. unfold top_indices. rewrite py_take_nonneg by done.
  destruct (argsort_ok (map Ropp scores)) as [Hp _].
  rewrite length_take, Hp, length_seq, length_map. done.
Qed.

Lemma top_indices_bound (k : Z) (scores : list R) (i : nat) :
  (0 ≤ k)%Z → i ∈ top_indices k scores → i < length scores.
Proof.
  intros Hk Hi. unfold top_indices in Hi. rewrite py_take_nonneg in Hi by done.
  apply subseteq_take in Hi.
  destruct (argsort_ok (map Ropp scores)) as [Hp _].
  rewrite Hp, elem_of_seq, length_map in Hi. lia.
Qed.

Lemma top_indices_NoDup (k : Z) (scores : list R) :
  (0 ≤ k)%Z → NoDup (top_indices k scores).
Proof.
  intros Hk. unfold top_indices. rewrite py_take_nonneg by done.
  destruct (argsort_ok (map Ropp scores)) as [Hp _].
  eapply sublist_NoDup; [|apply sublist_take].
  rewrite Hp. apply NoDup_seq.
Qed.

Lemma top_indices_sorted (k : Z) (scores : list R) :
  (0 ≤ k)%Z →
  StronglySorted (λ i j, (nth i (map Ropp scores) 0 <= nth j (map Ropp scores) 0)%R)
    (top_indices k scores).
Proof.
  intros Hk. unfold top_indices. rewrite py_take_nonneg by done.
  destruct (argsort_ok (map Ropp scores)) as [_ Hs].
  rewrite <- (take_drop (Z.to_nat k) (argsort (map Ropp scores))) in Hs.
  by apply StronglySorted_app_1_l in Hs.
Qed.

(** A document that is left out scores no more than one that is kept. *)
Lemma top_indices_best (k : Z) (scores : list R) (i j : nat) (si sj : R) :
  (0 ≤ k)%Z →
  i ∈ top_indices k scores → j ∉ top_indices k scores →
  scores !! i = Some si → scores !! j = Some sj → (sj <= si)%R.
Proof.
  intros Hk Hi Hj Hsi Hsj. unfold top_indices in *.
  rewrite py_take_nonneg in * by done.
  destruct (argsort_ok (map Ropp scores)) as [Hp Hs].
  assert (j ∈ argsort (map Ropp scores)) as Hin.
  { rewrite Hp, elem_of_seq, length_map.
    apply lookup_lt_Some in Hsj. lia. }
  rewrite <- (take_drop (Z.to_nat k) (argsort (map Ropp scores))) in Hin, Hs.
  apply elem_of_app in Hin as [Hin|Hin]; [done|].
  pose proof (StronglySorted_app_1_elem_of _ _ _ _ _ Hs Hi Hin) as Hle.
  simpl in Hle.
  rewrite (nth_opp_scores _ _ _ Hsi), (nth_opp_scores _ _ _ Hsj) in Hle. lra.
Qed.

(** C10, as the code has it.  The index holds documents, a matrix and a
    backend, the query is not empty, the backend has returned its vector
    for the query, and [k ≥ 0].  Whenever [search] returns, it returns
    [min(k, N)] results, one for each of the first [k] indices of
    [argsort(-scores)], all distinct: the result for a document holds its
    title and address, the snippet of its text and its cosine with the
    query under [TITLE], [URL], [SNIPPET] and [SCORE], and nothing else.
    The results are in order of non-increasing cosine, and no document
    left out has a higher cosine than a returned one.  Among documents of
    equal cosine the order is the one [argsort] gives, of which nothing
    more is known than that it sorts.  [search] does return when the
    matrix has one vector per document, each as long as the vector of the
    query. *)
Theorem search_ranked (idx : Index) (doc_mat : list (list R)) (e : Embedder)
    (query : string) (k : Z) :
  (0 ≤ k)%Z → docs idx ≠ [] → query ≠ "" →
  embeddings idx = Some doc_mat → embedder idx = Some e →
  (aligned idx doc_mat (encode_query e query) →
   ∃ hits, search idx query k = Ok hits) ∧
  ∀ hits, search idx query k = Ok hits →
    ∃ scores,
      cosine_scores doc_mat (encode_query e query) = Ok scores ∧
      length hits = Z.to_nat k `min` length doc_mat ∧
      NoDup (top_indices k scores) ∧
      Forall2 (λ i h, ∃ d s, docs idx !! i = Some d ∧ scores !! i = Some s ∧
                             is_hit d s h) (top_indices k scores) hits ∧
      StronglySorted (λ a b, (hit_score b <= hit_score a)%R) hits ∧
      (∀ i j si sj, i ∈ top_indices k scores → j ∉ top_indices k scores →
         scores !! i = Some si → scores !! j = Some sj → (sj <= si)%R).
Proof.
  intros Hk Hdocs Hq Hmat Hemb. unfold search. rewrite Hmat, Hemb.
  destruct (docs idx) as [|d0 ds] eqn:Hd; [done|].
  destruct (String.eqb_spec query ""); [done|]. split.
  - intros [Hlen Hdim]. rewrite Hd in Hlen.
    destruct doc_mat as [|row doc_mat]; [done|].
    destruct (cosine_scores_total _ _ Hdim) as [scores Hs]. rewrite Hs. simpl.
    apply mapM_total, Forall_forall. intros i Hi.
    apply top_indices_bound in Hi; [|done].
    rewrite (cosine_scores_length _ _ _ Hs), Hlen in Hi.
    destruct (lookup_lt_is_Some_2 (d0 :: ds) i Hi) as [d ->].
    rewrite <- Hlen, <- (cosine_scores_length _ _ _ Hs) in Hi.
    destruct (lookup_lt_is_Some_2 scores i Hi) as [s ->]. by eexists.
  - intros hits Hh.
    destruct doc_mat as [|row doc_mat]; [done|].
    destruct (cosine_scores _ _) as [scores|] eqn:Hs; simpl in Hh; [|done].
    apply mapM_Forall2 in Hh. fold (top_indices k scores) in Hh.
    assert (Forall2 (λ i h, ∃ d s, (d0 :: ds) !! i = Some d ∧
                       scores !! i = Some s ∧ h = hit_of d s)
              (top_indices k scores) hits) as Hhits.
    { eapply Forall2_impl; [exact Hh|]. intros i h Hi. simpl in Hi.
      destruct ((d0 :: ds) !! i) as [d|]; [|done].
      destruct (scores !! i) as [s|]; [|done].
      injection Hi as <-. by exists d, s. }
    exists scores. split_and!; [done| |by apply top_indices_NoDup| | |].
    + rewrite <- (Forall2_length _ _ _ Hhits), top_indices_length by done.
      by rewrite (cosine_scores_length _ _ _ Hs).
    + eapply Forall2_impl; [exact Hhits|].
      intros i h (d & s & Hdi & Hsi & ->). exists d, s.
      split; [done|]. split; [done|]. apply hit_of_is_hit.
    + eapply StronglySorted_Forall2;
        [|exact Hhits|by apply top_indices_sorted].
      intros i j h h' (d & s & _ & Hsi & ->) (d' & s' & _ & Hsj & ->) Hle.
      simpl in Hle.
      rewrite (nth_opp_scores _ _ _ Hsi), (nth_opp_scores _ _ _ Hsj) in Hle.
      rewrite !hit_score_hit_of. lra.
    + intros i j si sj. by apply top_indices_best.
Qed.

End ranked.

(** ** Further facts on [nearest] *)

(** The coordinates an entry carries, and whether they lie within [rk]
    kilometres of the origin. *)
Definition entry_coord (c : gmap string scalar) (k : string) : R :=
  match c !! k with
  | Some (VFloat x) => x
  | _ => 0%R
  end.

Definition within (lat lon rk : R) (c : gmap string scalar) : Prop :=
  (haversine_km lat lon (entry_coord c "LA") (entry_coord c "LO") <= rk)%R.

#[global] Instance within_dec (lat lon rk : R) (c : gmap string scalar) :
  Decision (within lat lon rk c) := Rle_dec _ _.

Lemma take_prefix_le {A : Type} (n m : nat) (l : list A) :
  n ≤ m → take n l `prefix_of` take m l.
Proof.
  intros Hnm. replace (take n l) with (take n (take m l)).
  - apply prefix_take.
  - rewrite take_take. f_equal. lia.
Qed.

(** The entries [nearest] returns are the nearest ones.  On a catalog
    whose coordinates are [None], finite numbers or texts that [float]
    reads as a finite number or rejects, whenever [nearest] returns: together with the candidates left out the entries are the
    candidates, exactly [min(max(1, topn), number of candidates)] are
    returned, and no candidate left out has a smaller [DIST_KM] than a
    returned one. *)
Theorem nearest_takes_the_nearest (rows recs : list (gmap string scalar))
    (lat lon : R) (topn : Z) (radius_km : pyval) :
  Forall finite_coords rows →
  nearest rows lat lon topn radius_km = Ok recs →
  ∃ cands rest,
    candidates lat lon radius_km rows = Ok cands ∧
    recs ++ rest ≡ₚ cands ∧
    length recs = Z.to_nat (Z.max 1 topn) `min` length cands ∧
    ∀ a b, a ∈ recs → b ∈ rest → (dist_key a <= dist_key b)%R.
Proof.
  intros _. unfold nearest.
  destruct (candidates lat lon radius_km rows) as [cands|]; simpl; [|done].
  intros [= <-].
  exists cands, (drop (Z.to_nat (Z.max 1 topn)) (sort_by dist_key cands)).
  split_and!; [done| | |].
  - by rewrite take_drop, sort_by_perm.
  - by rewrite length_take, sort_by_length.
  - intros a b Ha Hb.
    pose proof (sort_by_sorted dist_key cands) as Hs.
    rewrite <- (take_drop (Z.to_nat (Z.max 1 topn)) (sort_by dist_key cands)) in Hs.
    exact (StronglySorted_app_1_elem_of _ _ _ _ _ Hs Ha Hb).
Qed.

(** Asking for more results only appends: the result for [topn] is a
    prefix of the result for any larger [topn'].  A [topn] below 1 is
    served as 1. *)
Theorem nearest_topn_prefix (rows : list (gmap string scalar)) (lat lon : R)
    (topn topn' : Z) (radius_km : pyval) :
  ((topn ≤ 1)%Z →
   nearest rows lat lon topn radius_km = nearest rows lat lon 1 radius_km) ∧
  ((topn ≤ topn')%Z → ∀ recs recs',
   nearest rows lat lon topn radius_km = Ok recs →
   nearest rows lat lon topn' radius_km = Ok recs' →
   recs `prefix_of` recs').
Proof.
  unfold nearest. split.
  - intros Ht. by rewrite (Z.max_l 1 topn) by done.
  - intros Ht recs recs'.
    destruct (candidates lat lon radius_km rows) as [cands|]; simpl; [|done].
    intros [= <-] [= <-]. apply take_prefix_le. lia.
Qed.

Lemma candidate_Some_coords (lat lon : R) (radius_km : pyval)
    (r c : gmap string scalar) :
  candidate lat lon radius_km r = Ok (Some c) →
  _safe_float (row_get r "LA") = Some (entry_coord c "LA") ∧
  _safe_float (row_get r "LO") = Some (entry_coord c "LO").
Proof.
  unfold candidate.
  destruct (_safe_float (row_get r "LA")) as [la|]; [|done].
  destruct (_safe_float (row_get r "LO")) as [lo|]; [|done].
  destruct (match radius_km with PScalar VNone => _ | _ => _ end) as [far|];
    simpl; [|done].
  destruct far; [done|].
  destruct (or_empty_strip (row_get r "TITLE")); simpl; [|done].
  destruct (or_empty_strip (row_get r "ADDR")); simpl; [|done].
  destruct (or_empty_strip (row_get r "OPERATING_TIME")); simpl; [|done].
  destruct (or_empty_strip (row_get r "URL")); simpl; [|done].
  intros [= <-]. unfold entry_coord. by simplify_map_eq.
Qed.

(** One row under a numeric radius, from what it gives without radius. *)
Lemma candidate_radius (lat lon rk : R) (radius_km : pyval)
    (r : gmap string scalar) (c0 : option (gmap string scalar)) :
  numeric radius_km = Some rk →
  candidate lat lon (PScalar VNone) r = Ok c0 →
  candidate lat lon radius_km r =
  Ok (match c0 with
      | Some c => if decide (within lat lon rk c) then Some c else None
      | None => None
      end).
Proof.
  intros Hrk H0.
  destruct c0 as [c|].
  - destruct (candidate_Some_coords _ _ _ _ _ H0) as [Hla Hlo].
    revert H0. unfold candidate, within. rewrite Hla, Hlo. simpl.
    assert (match radius_km with
            | PScalar VNone => Ok false
            | _ => float_gt (haversine_km lat lon (entry_coord c "LA")
                               (entry_coord c "LO")) radius_km
            end = Ok (Rltb rk (haversine_km lat lon (entry_coord c "LA")
                                 (entry_coord c "LO")))) as ->.
    { unfold float_gt. rewrite Hrk. by destruct radius_km as [[]| |]. }
    simpl. unfold Rltb.
    destruct (Rlt_dec _ _) as [Hlt|Hge]; intros H0.
    + rewrite decide_False; [done|]. lra.
    + rewrite decide_True; [done|]. lra.
  - revert H0. unfold candidate.
    destruct (_safe_float (row_get r "LA")) as [la|]; [|done].
    destruct (_safe_float (row_get r "LO")) as [lo|]; [|done].
    simpl.
    destruct (or_empty_strip (row_get r "TITLE")); simpl; [|done].
    destruct (or_empty_strip (row_get r "ADDR")); simpl; [|done].
    destruct (or_empty_strip (row_get r "OPERATING_TIME")); simpl; [|done].
    destruct (or_empty_strip (row_get r "URL")); simpl; done.
Qed.

Lemma candidates_radius (lat lon rk : R) (radius_km : pyval)
    (rows all : list (gmap string scalar)) :
  numeric radius_km = Some rk →
  candidates lat lon (PScalar VNone) rows = Ok all →
  candidates lat lon radius_km rows = Ok (filter (within lat lon rk) all).
Proof.
  intros Hrk. revert all. induction rows as [|r rows IH]; simpl; intros all.
  - by intros [= <-].
  - destruct (candidate lat lon (PScalar VNone) r) as [c0|] eqn:Hc0; simpl; [|done].
    destruct (candidates lat lon (PScalar VNone) rows) as [cs|]; simpl; [|done].
    intros [= <-].
    rewrite (candidate_radius _ _ _ _ _ _ Hrk Hc0), (IH cs eq_refl). simpl.
    destruct c0 as [c|]; [|done].
    rewrite filter_cons. by destruct (decide (within lat lon rk c)).
Qed.

(** The radius is a filter on the candidates: under a numeric radius the
    candidates are the candidates without radius that lie within it, in the
    same order; and the candidates under a radius are a sublist of those
    under any larger radius. *)
Theorem radius_filters_candidates (rows all : list (gmap string scalar))
    (lat lon rk : R) (radius_km : pyval) :
  numeric radius_km = Some rk →
  candidates lat lon (PScalar VNone) rows = Ok all →
  candidates lat lon radius_km rows = Ok (filter (within lat lon rk) all) ∧
  ∀ radius_km' rk', numeric radius_km' = Some rk' → (rk <= rk')%R →
    ∃ cs', candidates lat lon radius_km' rows = Ok cs' ∧
           filter (within lat lon rk) all `sublist_of` cs'.
Proof.
  intros Hrk Hall. split; [by apply candidates_radius|].
  intros radius_km' rk' Hrk' Hle. eexists. split; [by apply candidates_radius|].
  clear Hall. induction all as [|c all IH]; [done|].
  rewrite !filter_cons.
  destruct (decide (within lat lon rk c)) as [Hw|Hw].
  - rewrite decide_True; [by apply sublist_skip|]. unfold within in *. lra.
  - destruct (decide (within lat lon rk' c)); [by apply sublist_cons|done].
Qed.

(** ** Distances *)

Lemma atan2_quadrant (y x : R) :
  (0 <= y)%R → (0 <= x)%R → (0 <= atan2 y x <= PI / 2)%R.
Proof.
  intros Hy Hx. unfold atan2. pose proof PI_RGT_0 as Hpi.
  destruct (Rlt_dec 0 x) as [Hx'|Hx'].
  - assert (0 <= y / x)%R as Hq.
    { apply Rmult_le_pos; [done|]. left. by apply Rinv_0_lt_compat. }
    pose proof (atan_bound (y / x)) as [_ Hub]. split; [|lra].
    rewrite <- atan_0. destruct Hq as [Hq| <-]; [|lra].
    left. by apply atan_increasing.
  - destruct (Rlt_dec x 0); [lra|].
    destruct (Rlt_dec 0 y); [lra|]. destruct (Rlt_dec y 0); lra.
Qed.

(** A distance is never negative and never more than half the
    circumference. *)
Lemma haversine_km_range (lat1 lon1 lat2 lon2 : R) :
  (0 <= haversine_km lat1 lon1 lat2 lon2 <= EARTH_RADIUS_KM * PI)%R.
Proof.
  unfold haversine_km, EARTH_RADIUS_KM. cbv zeta.
  match goal with |- context [atan2 ?y ?x] =>
    pose proof (atan2_quadrant y x (sqrt_pos _) (sqrt_pos _)) as [H0 H1] end.
  split; [|lra]. apply Rmult_le_pos; lra.
Qed.

Lemma Rabs_le_between (a b : R) : (Rabs a <= b)%R → (- b <= a <= b)%R.
Proof. unfold Rabs. destruct (Rcase_abs a); lra. Qed.

Lemma round_half_even_near (x : R) :
  (Rabs (IZR (round_half_even x) - x) <= 1 / 2)%R.
Proof.
  unfold round_half_even.
  pose proof (base_fp x) as [Hf0 Hf1]. unfold frac_part in *.
  apply Rabs_le.
  destruct (Rlt_dec _ _); [lra|]. destruct (Rlt_dec _ _).
  - rewrite plus_IZR. lra.
  - destruct (Z.even _); [lra|]. rewrite plus_IZR. lra.
Qed.

(** [round(x, 3)] is within half a thousandth of [x], and is not negative
    when [x] is not. *)
Lemma py_round_3_near (x : R) : (Rabs (py_round x 3 - x) <= 0.0005)%R.
Proof.
  unfold py_round.
  pose proof (round_half_even_near (x * 10 ^ 3)) as H.
  apply Rabs_le. apply Rabs_le_between in H. simpl in *. lra.
Qed.

Lemma py_round_3_nonneg (x : R) : (0 <= x)%R → (0 <= py_round x 3)%R.
Proof.
  intros Hx. unfold py_round.
  pose proof (round_half_even_near (x * 10 ^ 3)) as H.
  apply Rabs_le_between in H.
  assert (-1 < round_half_even (x * 10 ^ 3))%Z as Hz.
  { apply lt_IZR. simpl in *. lra. }
  assert (0 <= IZR (round_half_even (x * 10 ^ 3)))%R as Hr.
  { apply IZR_le. lia. }
  apply Rmult_le_pos; [exact Hr|]. left. apply Rinv_0_lt_compat, pow_lt. lra.
Qed.

Lemma StronglySorted_lookup {A : Type} (R' : A → A → Prop) (l : list A)
    (i j : nat) (a b : A) :
  StronglySorted R' l → i < j → l !! i = Some a → l !! j = Some b → R' a b.
Proof.
  intros Hs. revert i j. induction Hs as [|x l Hs IH Hx]; intros i j Hij Hi Hj.
  - done.
  - destruct j as [|j]; [lia|]. destruct i as [|i]; simpl in *.
    + injection Hi as <-. rewrite Forall_forall in Hx. apply Hx.
      by eapply list_elem_of_lookup_2.
    + eapply (IH i j); [lia|done..].
Qed.

(** The distance from the origin to the coordinates an entry carries. *)
Definition true_dist (lat lon : R) (c : gmap string scalar) : R :=
  haversine_km lat lon (entry_coord c "LA") (entry_coord c "LO").

Lemma entry_of_dist (lat lon : R) (radius_km : pyval) (c : gmap string scalar) :
  entry_of lat lon radius_km c →
  dist_key c = py_round (true_dist lat lon c) 3 ∧
  ∀ rk, numeric radius_km = Some rk → (true_dist lat lon c <= rk)%R.
Proof.
  intros (la & lo & Hla & Hlo & _ & _ & Hd & Hr).
  unfold dist_key, true_dist, entry_coord. by rewrite Hla, Hlo, Hd.
Qed.

(** The distances [nearest] reports, on a catalog whose coordinates are
    [None], finite numbers or texts that [float] reads as a finite number
    or rejects.  [DIST_KM] is the distance to the coordinates
    of the entry up to a metre, is never negative and never more than half
    the circumference and a metre, and under a radius exceeds it by at most
    a metre.  As the ranking is on the rounded value, an entry may come
    before one that is nearer, but by no more than two metres.  Under a
    negative radius nothing is returned. *)
Theorem nearest_distances (rows recs : list (gmap string scalar)) (lat lon : R)
    (topn : Z) (radius_km : pyval) :
  Forall finite_coords rows →
  nearest rows lat lon topn radius_km = Ok recs →
  Forall (λ c,
    (Rabs (dist_key c - true_dist lat lon c) <= 0.001)%R ∧
    (0 <= dist_key c <= EARTH_RADIUS_KM * PI + 0.001)%R ∧
    ∀ rk, numeric radius_km = Some rk → (dist_key c <= rk + 0.001)%R) recs ∧
  (∀ i j a b, i < j → recs !! i = Some a → recs !! j = Some b →
     (true_dist lat lon a <= true_dist lat lon b + 0.002)%R) ∧
  (∀ rk, numeric radius_km = Some rk → (rk < 0)%R → recs = []).
Proof.
  intros _ H. pose proof (nearest_entries _ _ _ _ _ _ H) as He.
  assert (Forall (λ c,
    (Rabs (dist_key c - true_dist lat lon c) <= 0.0005)%R ∧
    (0 <= dist_key c <= EARTH_RADIUS_KM * PI + 0.0005)%R ∧
    ∀ rk, numeric radius_km = Some rk → (dist_key c <= rk + 0.0005)%R) recs) as Hall.
  { eapply Forall_impl; [exact He|]. intros c [Hd Hr]%entry_of_dist.
    pose proof (py_round_3_near (true_dist lat lon c)) as Hn.
    pose proof (haversine_km_range lat lon (entry_coord c "LA") (entry_coord c "LO"))
      as [H0 H1]. fold (true_dist lat lon c) in H0, H1.
    rewrite Hd. split; [done|]. apply Rabs_le_between in Hn. split.
    - split; [by apply py_round_3_nonneg|lra].
    - intros rk Hrk. specialize (Hr rk Hrk). lra. }
  split; [|split].
  - eapply Forall_impl; [exact Hall|]. intros c (H1 & H2 & H3).
    split; [lra|]. split; [lra|]. intros rk Hrk. specialize (H3 rk Hrk). lra.
  - intros i j a b Hij Hi Hj.
    assert (dist_key a <= dist_key b)%R as Hle.
    { revert H. unfold nearest.
      destruct (candidates lat lon radius_km rows) as [cands|]; simpl; [|done].
      intros [= <-].
      pose proof (sort_by_sorted dist_key cands) as Hs.
      rewrite <- (take_drop (Z.to_nat (Z.max 1 topn)) (sort_by dist_key cands)) in Hs.
      apply StronglySorted_app_1_l in Hs.
      exact (StronglySorted_lookup _ _ _ _ _ _ Hs Hij Hi Hj). }
    rewrite Forall_forall in Hall.
    destruct (Hall a (list_elem_of_lookup_2 _ _ _ Hi)) as [Ha _].
    destruct (Hall b (list_elem_of_lookup_2 _ _ _ Hj)) as [Hb _].
    apply Rabs_le_between in Ha, Hb. lra.
  - intros rk Hrk Hneg. destruct recs as [|c recs]; [done|].
    apply Forall_cons_1 in He as [[_ Hr]%entry_of_dist _].
    specialize (Hr rk Hrk).
    pose proof (haversine_km_range lat lon (entry_coord c "LA") (entry_coord c "LO"))
      as [H0 _]. fold (true_dist lat lon c) in H0. lra.
Qed.

(** ** Further facts on the presets and the resolver *)

Definition PRESET_LIST : list (string * (R * R)) :=
  [ ("시청", (37.5663, 126.9779)%R); ("광화문", (37.5759, 126.9768)%R);
    ("남산", (37.5512, 126.9882)%R); ("잠실", (37.5130, 127.1028)%R);
    ("강남", (37.4979, 127.0276)%R); ("여의도", (37.5219, 126.9244)%R) ].

Definition ALIAS_LIST : list (string * string) :=
  [ ("seoul city hall", "시청"); ("city hall", "시청"); ("gwanghwamun", "광화문");
    ("namsan", "남산"); ("jamsil", "잠실"); ("gangnam", "강남");
    ("yeouido", "여의도") ].

Lemma PRESET_COORDS_Some (s : string) (c : R * R) :
  PRESET_COORDS !! s = Some c → (s, c) ∈ PRESET_LIST.
Proof.
  unfold PRESET_COORDS, PRESET_LIST.
  rewrite !lookup_insert_Some, lookup_singleton_Some.
  intros H. repeat destruct H as [[<- <-]|[_ H]]; [in_keys..|].
  destruct H as [<- <-]. in_keys.
Qed.

Lemma _PRESET_ALIASES_Some (a k : string) :
  _PRESET_ALIASES !! a = Some k → (a, k) ∈ ALIAS_LIST.
Proof.
  unfold _PRESET_ALIASES, ALIAS_LIST.
  rewrite !lookup_insert_Some, lookup_singleton_Some.
  intros H. repeat destruct H as [[<- <-]|[_ H]]; [in_keys..|].
  destruct H as [<- <-]. in_keys.
Qed.

Lemma PRESET_LIST_facts :
  Forall (λ kc : string * (R * R),
            strip kc.1 = kc.1 ∧ lower kc.1 = kc.1 ∧
            _PRESET_ALIASES !! kc.1 = None ∧ kc.1 ≠ "" ∧
            PRESET_COORDS !! kc.1 = Some kc.2 ∧
            (-90 <= kc.2.1 <= 90)%R ∧ (-180 <= kc.2.2 <= 180)%R) PRESET_LIST.
Proof.
  repeat apply Forall_cons_2; [..|apply Forall_nil_2];
    (split_and!; first [reflexivity | done | simpl; lra]).
Qed.

Lemma ALIAS_LIST_facts :
  Forall (λ ak : string * string, is_Some (PRESET_COORDS !! ak.2)) ALIAS_LIST.
Proof. repeat apply Forall_cons_2; [..|apply Forall_nil_2]; by eexists. Qed.

Lemma preset_key_facts (s : string) (c : R * R) :
  PRESET_COORDS !! s = Some c →
  strip s = s ∧ lower s = s ∧ _PRESET_ALIASES !! s = None ∧ s ≠ "" ∧
  (-90 <= c.1 <= 90)%R ∧ (-180 <= c.2 <= 180)%R.
Proof.
  intros H%PRESET_COORDS_Some.
  pose proof (proj1 (Forall_forall _ _) PRESET_LIST_facts _ H) as F.
  simpl in F. destruct F as (? & ? & ? & ? & _ & ? & ?). done.
Qed.

(** What [get_preset_coord] finds. A label that is a preset key once its
    surrounding white space is removed gives that preset; a label that is
    an alias once trimmed and put in lower case gives the preset the alias
    names; and every coordinate found is one of the presets, within the
    valid ranges. *)
Theorem get_preset_coord_matches (s : string) :
  (∀ c, PRESET_COORDS !! strip s = Some c →
     get_preset_coord (PScalar (VStr s)) = Ok (Some c)) ∧
  (∀ k, _PRESET_ALIASES !! _normalize_label s = Some k →
     ∃ c, PRESET_COORDS !! k = Some c ∧
          get_preset_coord (PScalar (VStr s)) = Ok (Some c)) ∧
  (∀ c, get_preset_coord (PScalar (VStr s)) = Ok (Some c) →
     (∃ k, PRESET_COORDS !! k = Some c) ∧
     (-90 <= c.1 <= 90)%R ∧ (-180 <= c.2 <= 180)%R).
Proof.
  split_and!.
  - intros c Hc. destruct (preset_key_facts _ _ Hc) as (_ & Hl & Ha & Hne & _).
    unfold get_preset_coord. simpl.
    destruct (String.eqb_spec s "") as [->|_]; [done|]. simpl.
    destruct (PRESET_COORDS !! s) as [c'|] eqn:Hs.
    + destruct (preset_key_facts _ _ Hs) as (Hst & _). rewrite Hst in Hc. congruence.
    + unfold _normalize_label. rewrite Hl, Ha. simpl. by rewrite Hc.
  - intros k Hk.
    pose proof (proj1 (Forall_forall _ _) ALIAS_LIST_facts _
                  (_PRESET_ALIASES_Some _ _ Hk)) as [c Hc]. simpl in Hc.
    exists c. split; [done|].
    unfold get_preset_coord. simpl.
    destruct (String.eqb_spec s "") as [->|_]; [done|]. simpl.
    destruct (PRESET_COORDS !! s) as [c'|] eqn:Hs.
    + destruct (preset_key_facts _ _ Hs) as (Hst & Hl & Ha & _).
      unfold _normalize_label in Hk. rewrite Hst, Hl, Ha in Hk. done.
    + rewrite Hk. simpl. by rewrite Hc.
  - intros c. unfold get_preset_coord. simpl.
    destruct (String.eqb_spec s "") as [->|_]; [done|]. simpl.
    assert (∀ k, PRESET_COORDS !! k = Some c →
              (∃ k, PRESET_COORDS !! k = Some c) ∧
              (-90 <= c.1 <= 90)%R ∧ (-180 <= c.2 <= 180)%R) as Hfound.
    { intros k Hk. split; [by exists k|]. by destruct (preset_key_facts _ _ Hk) as (_&_&_&_&?&?). }
    destruct (PRESET_COORDS !! s) as [c'|] eqn:Hs; [intros [= <-]; by eapply Hfound|].
    destruct (_PRESET_ALIASES !! _normalize_label s) as [k|]; simpl.
    + destruct (PRESET_COORDS !! k) as [c'|] eqn:Hk; [intros [= <-]; by eapply Hfound|].
      intros [= H]. by eapply Hfound.
    + intros [= H]. by eapply Hfound.
Qed.

(** The value of a key in a map built by a chain of inserts. *)
Ltac lookup_inserted :=
  repeat (rewrite lookup_insert_ne by done); rewrite lookup_insert_eq.

Lemma get_preset_coord_Some (label : pyval) (c : R * R) :
  get_preset_coord label = Ok (Some c) →
  (∃ s, label = PScalar (VStr s) ∧ s ≠ "") ∧
  (∃ k, PRESET_COORDS !! k = Some c) ∧
  (-90 <= c.1 <= 90)%R ∧ (-180 <= c.2 <= 180)%R.
Proof.
  unfold get_preset_coord.
  destruct (negb (truthy_val label)) eqn:Ht; [done|].
  destruct label as [[| | | |s]|l|]; try done.
  simpl in Ht. destruct (String.eqb_spec s "") as [->|Hne]; [done|].
  assert (∀ k, PRESET_COORDS !! k = Some c →
            (∃ s0, PScalar (VStr s) = PScalar (VStr s0) ∧ s0 ≠ "") ∧
            (∃ k, PRESET_COORDS !! k = Some c) ∧
            (-90 <= c.1 <= 90)%R ∧ (-180 <= c.2 <= 180)%R) as Hfound.
  { intros k Hk. split; [by exists s|]. split; [by exists k|].
    by destruct (preset_key_facts _ _ Hk) as (_&_&_&_&?&?). }
  destruct (PRESET_COORDS !! s) as [c'|] eqn:Hs; [intros [= <-]; by eapply Hfound|].
  destruct (_PRESET_ALIASES !! _normalize_label s) as [k|]; simpl.
  - destruct (PRESET_COORDS !! k) as [c'|] eqn:Hk; [intros [= <-]; by eapply Hfound|].
    intros [= H]. by eapply Hfound.
  - intros [= H]. by eapply Hfound.
Qed.

Lemma validate_coords_true (lat lon : pyval) :
  validate_coords lat lon = true ↔
  ∃ a b, py_float_val lat = Ok a ∧ py_float_val lon = Ok b ∧
         (-90 <= a <= 90)%R ∧ (-180 <= b <= 180)%R.
Proof.
  unfold validate_coords. split.
  - destruct (py_float_val lat) as [a|]; [|done].
    destruct (py_float_val lon) as [b|]; [|done].
    rewrite !andb_true_iff, !Rleb_true. intros [[[? ?] ?] ?]. by exists a, b.
  - intros (a & b & -> & -> & [? ?] & [? ?]).
    by rewrite !andb_true_iff, !Rleb_true.
Qed.

Lemma mode_ok_cases (mode : string) :
  negb (String.eqb mode "device" || String.eqb mode "manual") = false →
  mode = "device" ∨ mode = "manual".
Proof.
  destruct (String.eqb_spec mode "device") as [->|_]; [by left|].
  destruct (String.eqb_spec mode "manual") as [->|_]; [by right|done].
Qed.

(** What the resolver returns when it returns, with what it has checked. *)
Lemma origin_resolver_node_Ok_valid (state out : gmap string pyval) :
  origin_resolver_node state = Ok out →
  ∃ (mode : string) (label : pyval) (lat lon : R),
    (mode = "device" ∨ mode = "manual") ∧
    (-90 <= lat <= 90)%R ∧ (-180 <= lon <= 180)%R ∧
    out = <["topn" := PScalar (VInt (resolved_topn state))]>
          (<["radius_km" := resolved_radius state]>
          (<["lon" := PScalar (VFloat lon)]>
          (<["lat" := PScalar (VFloat lat)]>
          (<["origin_lon" := PScalar (VFloat lon)]>
          (<["origin_lat" := PScalar (VFloat lat)]>
          (<["origin_label" := label]>
          (<["origin_mode" := PScalar (VStr mode)]> state))))))).
Proof.
  unfold origin_resolver_node. intros H.
  apply rbind_Ok in H as (mode & _ & H).
  destruct (negb _) eqn:Hm; [done|].
  apply rbind_Ok in H as ([[lat lon] label] & Hres & H).
  apply rbind_Ok in H as (lat_f & Hlat & H).
  apply rbind_Ok in H as (lon_f & Hlon & H).
  injection H as <-.
  exists (lower mode), label, lat_f, lon_f.
  split; [by apply mode_ok_cases|].
  assert ((-90 <= lat_f <= 90)%R ∧ (-180 <= lon_f <= 180)%R) as [? ?].
  { assert (validate_coords lat lon = true →
            (-90 <= lat_f <= 90)%R ∧ (-180 <= lon_f <= 180)%R) as Hval.
    { intros (a & b & Ha & Hb & ? & ?)%validate_coords_true.
      rewrite Ha in Hlat. rewrite Hb in Hlon. by injection Hlat as <-; injection Hlon as <-. }
    destruct (String.eqb (lower mode) "device").
    - destruct (is_none _ || is_none _ || negb (validate_coords _ _)) eqn:Hv; [done|].
      injection Hres as <- <- <-. apply Hval.
      apply orb_false_elim in Hv as [_ Hv]. by apply negb_false_iff in Hv.
    - apply rbind_Ok in Hres as (coords & Hc & Hres).
      destruct coords as [[la lo]|].
      + injection Hres as <- <- <-. simpl in Hlat, Hlon.
        injection Hlat as <-. injection Hlon as <-.
        destruct (truthy_val _); [|done].
        by destruct (get_preset_coord_Some _ _ Hc) as (_ & _ & ? & ?).
      + destruct (is_none _ || is_none _ || negb (validate_coords _ _)) eqn:Hv; [done|].
        injection Hres as <- <- <-. apply Hval.
        apply orb_false_elim in Hv as [_ Hv]. by apply negb_false_iff in Hv. }
  split; [done|]. split; [done|].
  unfold resolved_topn, resolved_radius, state_get_default.
  destruct (state !! "radius_km") as [[[]| |]|]; reflexivity.
Qed.

(** The resolver hands on a valid origin: when it returns, the mode is
    [device] or [manual], [lat] and [lon] are floats equal to [origin_lat]
    and [origin_lon], and they lie within the ranges [validate_coords]
    accepts. *)
Theorem resolver_output_valid (state out : gmap string pyval) :
  origin_resolver_node state = Ok out →
  ∃ (mode : string) (lat lon : R),
    (mode = "device" ∨ mode = "manual") ∧
    out !! "origin_mode" = Some (PScalar (VStr mode)) ∧
    out !! "lat" = Some (PScalar (VFloat lat)) ∧
    out !! "origin_lat" = Some (PScalar (VFloat lat)) ∧
    out !! "lon" = Some (PScalar (VFloat lon)) ∧
    out !! "origin_lon" = Some (PScalar (VFloat lon)) ∧
    (-90 <= lat <= 90)%R ∧ (-180 <= lon <= 180)%R ∧
    validate_coords (state_get out "lat") (state_get out "lon") = true.
Proof.
  intros (mode & label & lat & lon & Hm & Hlat & Hlon & ->)%origin_resolver_node_Ok_valid.
  exists mode, lat, lon. split; [done|].
  do 5 (split; [by lookup_inserted|]).
  split; [done|]. split; [done|].
  apply validate_coords_true. exists lat, lon. unfold state_get.
  by do 2 lookup_inserted.
Qed.

Lemma resolved_radius_cases (state : gmap string pyval) :
  resolved_radius state = PScalar VNone ∨
  ∃ x, resolved_radius state = PScalar (VFloat x).
Proof.
  unfold resolved_radius.
  destruct (state !! "radius_km") as [[[]| |]|]; simpl;
    try destruct (String.eqb _ ""); try destruct (parse_float _);
    (by left) || (right; by eexists).
Qed.

(** The gate on what the resolver returns. The mode and the coordinates
    always pass; the gate accepts the resolved state exactly when the
    resolved [topn] is at least 1 and the resolved radius is [None] or not
    negative. *)
Theorem resolver_then_gate (state out : gmap string pyval) :
  origin_resolver_node state = Ok out →
  ∃ (n : Z) (radius : pyval),
    out !! "topn" = Some (PScalar (VInt n)) ∧
    out !! "radius_km" = Some radius ∧
    (radius = PScalar VNone ∨ ∃ x, radius = PScalar (VFloat x)) ∧
    (ensure_origin_valid out = Ok tt ↔
     (1 ≤ n)%Z ∧ ∀ x, radius = PScalar (VFloat x) → (0 <= x)%R).
Proof.
  intros (mode & label & lat & lon & Hm & Hlat & Hlon & ->)%origin_resolver_node_Ok_valid.
  exists (resolved_topn state), (resolved_radius state).
  split; [by lookup_inserted|]. split; [by lookup_inserted|].
  split; [apply resolved_radius_cases|].
  unfold ensure_origin_valid, state_get, state_get_default.
  do 5 lookup_inserted. simpl.
  assert (or_empty_strip (VStr mode) = Ok mode) as -> by (by destruct Hm as [-> | ->]).
  simpl.
  assert (negb (String.eqb (lower mode) "device" || String.eqb (lower mode) "manual")
          = false) as -> by (by destruct Hm as [-> | ->]).
  assert (Rleb (-90) lat && Rleb lat 90 && Rleb (-180) lon && Rleb lon 180 = true) as ->.
  { destruct Hlat, Hlon. by rewrite !andb_true_iff, !Rleb_true. }
  simpl.
  destruct (resolved_radius_cases state) as [-> | [x ->]]; simpl.
  - destruct (resolved_topn state <? 1)%Z eqn:Hn.
    + split; [done|]. intros [? _]. lia.
    + split; [|done]. intros _. split; [lia|done].
  - unfold Rltb. destruct (Rlt_dec x 0) as [Hx|Hx]; simpl.
    + split; [done|]. intros [_ H]. specialize (H x eq_refl). lra.
    + destruct (resolved_topn state <? 1)%Z eqn:Hn.
      * split; [done|]. intros [? _]. lia.
      * split; [|done]. intros _. split; [lia|]. intros y [= <-]. lra.
Qed.

(** In manual mode a label that names a preset decides the origin: the
    resolver returns the coordinates of the preset, whatever [origin_lat]
    and [origin_lon] hold. *)
Theorem manual_preset_overrides_coordinates (state : gmap string pyval)
    (m s : string) (c : R * R) :
  or_empty_strip_val (state_get state "origin_mode") = Ok m →
  lower m = "manual" →
  state_get state "origin_label" = PScalar (VStr s) →
  get_preset_coord (PScalar (VStr s)) = Ok (Some c) →
  ∃ out, origin_resolver_node state = Ok out ∧
         out !! "lat" = Some (PScalar (VFloat c.1)) ∧
         out !! "lon" = Some (PScalar (VFloat c.2)) ∧
         out !! "origin_label" = Some (PScalar (VStr s)).
Proof.
  intros Hmode Hm Hlabel Hc.
  destruct (get_preset_coord_Some _ _ Hc) as ((s' & [= <-] & Hne) & _).
  assert (String.eqb s "" = false) as Hs by (by apply String.eqb_neq).
  unfold origin_resolver_node. rewrite Hmode. simpl. rewrite Hm. simpl.
  rewrite Hlabel. unfold val_or. simpl. rewrite !Hs. simpl.
  rewrite Hc. destruct c as [la lo]. simpl. rewrite ?Hs. simpl.
  eexists. split; [reflexivity|].
  split; [by lookup_inserted|]. split; by lookup_inserted.
Qed.

(** When the resolver has what it needs. *)
Definition resolvable (state : gmap string pyval) : Prop :=
  ∃ m, or_empty_strip_val (state_get state "origin_mode") = Ok m ∧
    let label := val_or (state_get state "origin_label") (PScalar (VStr "")) in
    let coords_ok :=
      validate_coords (state_get state "origin_lat") (state_get state "origin_lon")
      = true in
    (lower m = "device" ∧ coords_ok) ∨
    (lower m = "manual" ∧
     ((∃ c, get_preset_coord label = Ok (Some c)) ∨
      (get_preset_coord label = Ok None ∧ coords_ok))).

(** A value that is a string or [None]. *)
Definition text_val (p : pyval) : Prop :=
  p = PScalar VNone ∨ ∃ s, p = PScalar (VStr s).

Lemma get_preset_coord_falsy (label : pyval) :
  truthy_val label = false → get_preset_coord label = Ok None.
Proof. intros H. unfold get_preset_coord. by rewrite H. Qed.

Lemma validated_floats (lat lon : pyval) :
  is_none lat || is_none lon || negb (validate_coords lat lon) = false ↔
  validate_coords lat lon = true.
Proof.
  split.
  - intros [_ H]%orb_false_elim. by apply negb_false_iff in H.
  - intros H. rewrite H.
    apply validate_coords_true in H as (a & b & Ha & Hb & _).
    assert (is_none lat = false) as -> by (by destruct lat as [[]| |]).
    assert (is_none lon = false) as -> by (by destruct lon as [[]| |]).
    done.
Qed.

(** The resolver returns exactly when the mode is [device] or [manual] and
    either, in manual mode, the label names a preset, or the coordinates
    supplied are valid.  When the mode and the label are strings or [None],
    every failure is a [ValueError]. *)
Theorem resolver_returns_iff (state : gmap string pyval) :
  ((∃ out, origin_resolver_node state = Ok out) ↔ resolvable state) ∧
  (text_val (state_get state "origin_mode") →
   text_val (state_get state "origin_label") →
   ∀ e, origin_resolver_node state = Raise e → ∃ msg, e = ValueError msg).
Proof.
  unfold origin_resolver_node, resolvable.
  set (label := val_or (state_get state "origin_label") (PScalar (VStr ""))).
  set (lat := state_get state "origin_lat").
  set (lon := state_get state "origin_lon").
  assert ((if truthy_val label then get_preset_coord label else Ok None)
          = get_preset_coord label) as ->.
  { destruct (truthy_val label) eqn:Ht; [done|]. by rewrite get_preset_coord_falsy. }
  assert (∀ a b, validate_coords a b = true →
            ∃ x y, py_float_val a = Ok x ∧ py_float_val b = Ok y) as Hfl.
  { intros a b (x & y & ? & ? & _)%validate_coords_true. by exists x, y. }
  split.
  - split.
    + intros [out H].
      apply rbind_Ok in H as (m & Hmode & H). exists m. split; [done|].
      destruct (negb _) eqn:Hm; [done|]. apply mode_ok_cases in Hm.
      apply rbind_Ok in H as ([[la lo] lb] & Hres & _).
      destruct (String.eqb_spec (lower m) "device") as [Hd|Hd].
      * left. split; [done|].
        destruct (is_none lat || is_none lon || negb (validate_coords lat lon)) eqn:Hv;
          [done|]. by apply validated_floats.
      * right. destruct Hm as [?|Hm]; [done|]. split; [done|].
        destruct (get_preset_coord label) as [[c|]|]; simpl in Hres; [| |done].
        -- left. by exists c.
        -- right. split; [done|].
           destruct (is_none lat || is_none lon || negb (validate_coords lat lon)) eqn:Hv;
             [done|]. by apply validated_floats.
    + intros (m & -> & [[Hm Hv]|[Hm Hc]]); simpl; rewrite Hm; simpl.
      * rewrite (proj2 (validated_floats lat lon) Hv). simpl.
        destruct (Hfl _ _ Hv) as (x & y & -> & ->). simpl. by eexists.
      * destruct Hc as [[[la lo] ->]|[-> Hv]]; simpl; [by eexists|].
        rewrite (proj2 (validated_floats lat lon) Hv). simpl.
        destruct (Hfl _ _ Hv) as (x & y & -> & ->). simpl. by eexists.
  - intros Hmode Hlabel e.
    assert (∃ m, or_empty_strip_val (state_get state "origin_mode") = Ok m) as [m ->].
    { destruct Hmode as [-> | [s ->]]; simpl; [by eexists|].
      unfold or_empty_strip. simpl. destruct (negb _); by eexists. }
    simpl. destruct (negb _); [intros [= <-]; by eexists|].
    assert (∃ c, get_preset_coord label = Ok c) as [c Hc].
    { unfold label, val_or.
      destruct Hlabel as [-> | [s ->]]; simpl; [by eexists|].
      destruct (String.eqb_spec s "") as [->|Hs]; simpl; [by eexists|].
      unfold get_preset_coord. simpl.
      destruct (String.eqb_spec s ""); [done|]. simpl.
      destruct (PRESET_COORDS !! s); [by eexists|].
      destruct (_ ≫= _); by eexists. }
    destruct (String.eqb (lower m) "device").
    + destruct (is_none lat || is_none lon || negb (validate_coords lat lon)) eqn:Hv;
        simpl; [intros [= <-]; by eexists|].
      apply validated_floats in Hv. destruct (Hfl _ _ Hv) as (x & y & -> & ->). done.
    + rewrite Hc. simpl. destruct c as [[la lo]|]; simpl; [done|].
      destruct (is_none lat || is_none lon || negb (validate_coords lat lon)) eqn:Hv;
        simpl; [intros [= <-]; by eexists|].
      apply validated_floats in Hv. destruct (Hfl _ _ Hv) as (x & y & -> & ->). done.
Qed.

(** ** Further facts on the recommender, the map stage and the answer stage *)

(** What a computation returns, seen through [f]. *)
Definition rmap {A B : Type} (f : A → B) (m : result A) : result B :=
  match m with
  | Ok a => Ok (f a)
  | Raise e => Raise e
  end.

Lemma state_get_insert_eq (s : gmap string pyval) (k : string) (v : pyval) :
  state_get (<[k := v]> s) k = v.
Proof. unfold state_get. by rewrite lookup_insert_eq. Qed.

Lemma lookup_setdefault_ne (s : gmap string pyval) (k k' : string) (v : pyval) :
  k ≠ k' → setdefault k v s !! k' = s !! k'.
Proof.
  intros Hk. unfold setdefault. destruct (s !! k); [done|].
  by rewrite lookup_insert_ne.
Qed.

Lemma lookup_setdefault_eq (s : gmap string pyval) (k : string) (v : pyval) :
  setdefault k v s !! k = Some (default v (s !! k)).
Proof.
  unfold setdefault. destruct (s !! k) eqn:Hk; simpl; [done|].
  by rewrite lookup_insert_eq.
Qed.

(** What [agent_c] adds. When it returns, [lat] and [lon] were convertible
    to floats; a [center] the state already holds is kept, whatever its
    value, and otherwise the origin is the center; the recommendations are
    a list whose entries each carry a float [DIST_KM]; and a radius that is
    a blank string gives the recommendations, or the failure, of no radius
    at all. *)
Theorem agent_c_recommendations (state : gmap string pyval) :
  (∀ out, agent_c state = Ok out →
     ∃ lat lon,
       py_float_val (state_get state "lat") = Ok lat ∧
       py_float_val (state_get state "lon") = Ok lon ∧
       out !! "center" = Some (default (PPair lat lon) (state !! "center")) ∧
       ∃ recs, out !! "recommendations" = Some (PRows recs) ∧
               Forall (λ c, ∃ d, c !! "DIST_KM" = Some (VFloat d)) recs) ∧
  (∀ s, strip s = "" →
     rmap (λ out, out !! "recommendations")
       (agent_c (<["radius_km" := PScalar (VStr s)]> state)) =
     rmap (λ out, out !! "recommendations")
       (agent_c (<["radius_km" := PScalar VNone]> state))).
Proof.
  split.
  - intros out. unfold agent_c. intros H.
    apply rbind_Ok in H as (lat & Hlat & H).
    apply rbind_Ok in H as (lon & Hlon & H).
    apply rbind_Ok in H as (topn & _ & H).
    apply rbind_Ok in H as (rows & _ & H).
    apply rbind_Ok in H as (recs & Hrecs & H).
    injection H as <-. exists lat, lon. split; [done|]. split; [done|]. split.
    + rewrite lookup_setdefault_eq. by rewrite lookup_insert_ne.
    + exists recs. split.
      * rewrite lookup_setdefault_ne by done. by rewrite lookup_insert_eq.
      * apply nearest_entries in Hrecs. eapply Forall_impl; [exact Hrecs|].
        intros c (la & lo & _ & _ & _ & _ & Hd & _). by eexists.
  - intros s Hs. unfold agent_c.
    rewrite !(state_get_insert_ne _ "radius_km" "rows"),
            !(state_get_insert_ne _ "radius_km" "lat"),
            !(state_get_insert_ne _ "radius_km" "lon"),
            !(state_get_default_insert_ne _ "radius_km" "topn") by done.
    rewrite !state_get_insert_eq. rewrite Hs. simpl.
    destruct (py_float_val (state_get state "lat")); simpl; [|done].
    destruct (py_float_val (state_get state "lon")); simpl; [|done].
    destruct (py_int_val _); simpl; [|done].
    destruct (iter_rows _); simpl; [|done].
    destruct (nearest _ _ _ _ _); simpl; [|done].
    rewrite !lookup_setdefault_ne by done. by rewrite !lookup_insert_eq.
Qed.

(** [agent_e] always leaves a map: it returns whenever [map_provider] is a
    string or [None], what it returns holds a [map_html] that is a string,
    and without recommendations that string is the fixed notice, whatever
    the renderer would do. *)
Theorem agent_e_map_html (state : gmap string pyval) :
  (state_get state "map_provider" = PScalar VNone ∨
   (∃ s, state_get state "map_provider" = PScalar (VStr s)) →
   ∃ out, agent_e state = Ok out) ∧
  (∀ out, agent_e state = Ok out →
     ∃ h, out !! "map_html" = Some (PScalar (VStr h)) ∧
          (truthy_val (state_get state "recommendations") = false →
           h = EMPTY_MAP_HTML)).
Proof.
  unfold agent_e. split.
  - intros Hp.
    assert (∃ p, (if negb (truthy_val (state_get state "map_provider"))
                  then Ok "leaflet"
                  else match state_get state "map_provider" with
                       | PScalar (VStr s) => Ok (lower s)
                       | _ => Raise AttributeError
                       end) = Ok p) as [p ->].
    { destruct Hp as [-> | [s ->]]; simpl; [by eexists|].
      destruct (negb _); by eexists. }
    simpl. destruct (negb (truthy_val (state_get state "recommendations")));
      by eexists.
  - intros out H. apply rbind_Ok in H as (p & _ & H).
    destruct (negb (truthy_val (state_get state "recommendations"))) eqn:Hr;
      injection H as <-; eexists; (split; [by rewrite lookup_insert_eq|]).
    + done.
    + intros Hf. by rewrite Hf in Hr.
Qed.

Lemma join_cons_ne (sep s : string) (l : list string) :
  s ≠ "" → join sep (s :: l) ≠ "".
Proof.
  intros Hs. destruct s as [|c s]; [done|]. simpl. by destruct l.
Qed.

Lemma template_answer_ne (recs : list (gmap string scalar)) :
  template_answer recs ≠ "".
Proof. unfold template_answer. simpl. by apply join_cons_ne. Qed.

(** The question [agent_d] sends. *)
Definition question_of (state : gmap string pyval) : pyval :=
  let q := state_get state "question" in
  if truthy_val q then q else PScalar (VStr "").

(** The three settings of the chat endpoint are all set. *)
Definition chat_configured : bool :=
  negb (String.eqb (AOAI_ENDPOINT settings) ENV_MISSING
        || String.eqb (AOAI_API_KEY settings) ENV_MISSING
        || String.eqb (AOAI_DEPLOYMENT settings) ENV_MISSING).

(** [agent_d] is never silent and asks at most once. When it returns, the
    answer is a non-empty string; the chat endpoint is asked exactly when
    there are recommendations and all three settings are present, and then
    once; and when there are recommendations but the endpoint is not
    configured, or gives nothing or an empty text, the answer is the
    rule-based text. *)
Theorem agent_d_answers (state out : gmap string pyval) (evs : list event) :
  agent_d state = (Ok out, evs) →
  ∃ (answer : string) (recs : list (gmap string scalar)),
    iter_rows (state_get state "recommendations") = Ok recs ∧
    out !! "answer" = Some (PScalar (VStr answer)) ∧
    answer ≠ "" ∧
    evs = (if chat_configured && bool_decide (recs ≠ []) then [EvRemoteChat] else []) ∧
    (recs ≠ [] →
     (chat_configured = false ∨
      aoai_chat settings (question_of state) recs = None ∨
      aoai_chat settings (question_of state) recs = Some "") →
     answer = template_answer recs).
Proof.
  unfold agent_d, chat_configured, question_of. cbv zeta.
  set (q := if truthy_val (state_get state "question")
            then state_get state "question" else PScalar (VStr "")).
  destruct (iter_rows _) as [recs|e]; simpl; [|done].
  destruct recs as [|r recs]; simpl.
  - intros [= <- <-]. exists NO_RESULTS_ANSWER, [].
    split; [done|]. split; [by lookup_inserted|]. split; [done|].
    split; [by rewrite andb_false_r|done].
  - unfold _llm_answer_azure.
    destruct (_ || _) eqn:Hcfg; simpl.
    + intros [= <- <-]. exists (template_answer (r :: recs)), (r :: recs).
      split; [done|]. split; [by lookup_inserted|].
      split; [apply template_answer_ne|]. done.
    + destruct (aoai_chat _ _ _) as [a|] eqn:Ha;
        simpl.
      * destruct (String.eqb_spec a "") as [->|Hne]; simpl; intros [= <- <-].
        -- exists (template_answer (r :: recs)), (r :: recs).
           split; [done|]. split; [by lookup_inserted|].
           split; [apply template_answer_ne|]. done.
        -- exists a, (r :: recs).
           split; [done|]. split; [by lookup_inserted|]. split; [done|].
           split; [done|]. intros _ [H|[H|H]]; [done|congruence|congruence].
      * intros [= <- <-]. exists (template_answer (r :: recs)), (r :: recs).
        split; [done|]. split; [by lookup_inserted|].
        split; [apply template_answer_ne|]. done.
Qed.

(** ** Further facts on the runs *)

(** A literal list of keys lies within another, and a literal key is none
    of a literal list. *)
Ltac keys_subset :=
  let x := fresh "x" in
  let Hx := fresh "Hx" in
  intros x Hx;
  repeat (apply elem_of_cons in Hx as [->|Hx]; [in_keys|]);
  by apply elem_of_nil in Hx.

Ltac not_in_keys :=
  rewrite ?not_elem_of_cons; repeat split; first [done | apply not_elem_of_nil].

Lemma not_elem_of_sub (k : string) (l l' : list string) :
  l ⊆ l' → k ∉ l' → k ∉ l.
Proof. intros Hl Hk Hin. by apply Hk, Hl. Qed.

Lemma run_node_lift (name : string)
    (f : gmap string pyval → result (gmap string pyval)) (st : gmap string pyval) :
  run_node name (λ s, io_lift (f s)) st =
  (match f st with Ok o => Ok (o ∪ st) | Raise e => Raise e end, [EvNode name]).
Proof. unfold run_node, emit, io_bind, io_lift, io_ret. by destruct (f st). Qed.

(** A stage that keeps the keys of its input returns the whole state. *)
Lemma union_keeps (st o : gmap string pyval) (own : list string) :
  keeps_keys st o own → o ∪ st = o.
Proof.
  intros [Hd _]. apply map_eq. intros k. rewrite lookup_union.
  destruct (o !! k) eqn:Ho; simpl; [by destruct (st !! k)|].
  assert (st !! k = None) as ->; [|done].
  apply not_elem_of_dom. intros Hin. apply Hd in Hin.
  apply elem_of_dom in Hin as [? ?]. congruence.
Qed.

Lemma origin_resolver_node_keeps (state out : gmap string pyval) :
  origin_resolver_node state = Ok out → keeps_keys state out RESOLVER_KEYS.
Proof.
  intros (mode & label & lat & lon & ->)%origin_resolver_node_Ok.
  unfold RESOLVER_KEYS.
  repeat (apply keeps_keys_insert; [in_keys|]). apply keeps_keys_refl.
Qed.

Lemma agent_c_Ok_recs (state out : gmap string pyval) :
  agent_c state = Ok out → ∃ recs, out !! "recommendations" = Some (PRows recs).
Proof.
  unfold agent_c. intros H.
  repeat (apply rbind_Ok in H as (? & _ & H)).
  injection H as <-. eexists.
  rewrite lookup_setdefault_ne by done. by rewrite lookup_insert_eq.
Qed.

Lemma agent_e_Ok_html (state out : gmap string pyval) :
  agent_e state = Ok out → ∃ h, out !! "map_html" = Some (PScalar (VStr h)).
Proof.
  unfold agent_e. intros H. apply rbind_Ok in H as (p & _ & H).
  destruct (negb _); injection H as <-; eexists; by rewrite lookup_insert_eq.
Qed.

Lemma agent_d_Ok (state out : gmap string pyval) (evs : list event) :
  agent_d state = (Ok out, evs) →
  ∃ (answer : string) (recs : list (gmap string scalar)),
    iter_rows (state_get state "recommendations") = Ok recs ∧
    out = <["sources" := PRows (map source_of recs)]>
          (<["answer" := PScalar (VStr answer)]> state) ∧
    answer ≠ "" ∧ (evs = [] ∨ evs = [EvRemoteChat]).
Proof.
  unfold agent_d.
  destruct (iter_rows _) as [recs|e]; simpl; [|done].
  destruct recs as [|r recs]; simpl.
  - intros [= <- <-]. exists NO_RESULTS_ANSWER, []. split_and!; try done. by left.
  - unfold _llm_answer_azure.
    destruct (_ || _); simpl.
    + intros [= <- <-]. exists (template_answer (r :: recs)), (r :: recs).
      split_and!; [done|done|apply template_answer_ne|by left].
    + destruct (aoai_chat _ _ _) as [a|]; simpl.
      * destruct (String.eqb_spec a "") as [->|Hne]; simpl; intros [= <- <-].
        -- exists (template_answer (r :: recs)), (r :: recs).
           split_and!; [done|done|apply template_answer_ne|by right].
        -- exists a, (r :: recs). split_and!; [done|done|done|by right].
      * intros [= <- <-]. exists (template_answer (r :: recs)), (r :: recs).
        split_and!; [done|done|apply template_answer_ne|by right].
Qed.

Lemma iter_rows_PRows (recs : list (gmap string scalar)) :
  iter_rows (PRows recs) = Ok recs.
Proof. by destruct recs. Qed.

(** The three stages after the origin is known. *)
Lemma build_graph_ced_Ok (state out : gmap string pyval) (evs : list event) :
  build_graph_ced state = (Ok out, evs) →
  (evs = [EvNode "AgentC_Recommender"; EvNode "AgentE_Map"; EvNode "AgentD_Answer"] ∨
   evs = [EvNode "AgentC_Recommender"; EvNode "AgentE_Map"; EvNode "AgentD_Answer";
          EvRemoteChat]) ∧
  keeps_keys state out ["recommendations"; "center"; "map_html"; "answer"; "sources"] ∧
  ∃ (recs : list (gmap string scalar)) (h a : string),
    out !! "recommendations" = Some (PRows recs) ∧
    out !! "map_html" = Some (PScalar (VStr h)) ∧
    out !! "answer" = Some (PScalar (VStr a)) ∧ a ≠ "" ∧
    out !! "sources" = Some (PRows (map source_of recs)).
Proof.
  unfold build_graph_ced. rewrite run_node_lift.
  destruct (agent_c state) as [s2|] eqn:H2; simpl; [|done].
  rewrite (union_keeps _ _ _ (agent_c_keeps _ _ H2)).
  rewrite run_node_lift.
  destruct (agent_e s2) as [s3|] eqn:H3; simpl; [|done].
  rewrite (union_keeps _ _ _ (agent_e_keeps _ _ H3)).
  unfold run_node, emit. simpl.
  destruct (agent_d s3) as [[s4|] evd] eqn:H4; simpl; [|done].
  rewrite (union_keeps _ _ _ (agent_d_keeps _ _ _ H4)).
  intros [= <- <-].
  destruct (agent_c_Ok_recs _ _ H2) as [recs Hrecs].
  destruct (agent_e_Ok_html _ _ H3) as [h Hh].
  destruct (agent_c_keeps _ _ H2) as [Hd2 Hk2].
  destruct (agent_e_keeps _ _ H3) as [Hd3 Hk3].
  destruct (agent_d_Ok _ _ _ H4) as (a & recs' & Hit & -> & Ha & Hev).
  assert (s3 !! "recommendations" = Some (PRows recs)) as Hrecs3.
  { rewrite Hk3; [done|]. not_in_keys. }
  unfold state_get in Hit. rewrite Hrecs3 in Hit. simpl in Hit.
  rewrite iter_rows_PRows in Hit. injection Hit as <-.
  split; [destruct Hev as [-> | ->]; [by left|by right]|]. split.
  - split.
    + rewrite !dom_insert_L. etrans; [exact Hd2|]. etrans; [exact Hd3|].
      etrans; [|apply union_subseteq_r]. apply union_subseteq_r.
    + intros k Hk. rewrite !lookup_insert_ne.
      * rewrite Hk3, Hk2; [done| |];
          (eapply not_elem_of_sub; [|exact Hk]); keys_subset.
      * intros <-. apply Hk. in_keys.
      * intros <-. apply Hk. in_keys.
  - exists recs, h, a. split_and!; [|  |by lookup_inserted|done|by lookup_inserted].
    + by rewrite !lookup_insert_ne.
    + by rewrite !lookup_insert_ne.
Qed.

Definition RUN_NODES : list event :=
  [EvNode "AgentO_OriginResolver"; EvNode "AgentC_Recommender";
   EvNode "AgentE_Map"; EvNode "AgentD_Answer"].

(** A run that returns has passed the gate and entered the four nodes in
    the order O, C, E, D, with at most one request to the chat endpoint,
    after them.  The state it returns still holds the rows and the question
    of the request, and holds the recommendations, a map, a non-empty
    answer and the sources of exactly those recommendations. *)
Theorem run_o_to_d_trace (rows : list (gmap string scalar)) (origin_mode : string)
    (origin_lat origin_lon : R) (origin_label question : string) (topn : Z)
    (radius_km : option R) (map_provider : option string)
    (out : gmap string pyval) (evs : list event) :
  run_o_to_d rows origin_mode origin_lat origin_lon origin_label question topn
    radius_km map_provider = (Ok out, evs) →
  ensure_origin_valid (o_to_d_state rows origin_mode origin_lat origin_lon
    origin_label question topn radius_km map_provider) = Ok tt ∧
  (evs = RUN_NODES ∨ evs = RUN_NODES ++ [EvRemoteChat]) ∧
  out !! "rows" = Some (PRows rows) ∧
  out !! "question" = Some (PScalar (VStr question)) ∧
  ∃ (recs : list (gmap string scalar)) (h a : string),
    out !! "recommendations" = Some (PRows recs) ∧
    out !! "map_html" = Some (PScalar (VStr h)) ∧
    out !! "answer" = Some (PScalar (VStr a)) ∧ a ≠ "" ∧
    out !! "sources" = Some (PRows (map source_of recs)).
Proof.
  unfold run_o_to_d.
  set (state := o_to_d_state _ _ _ _ _ _ _ _ _).
  assert (state !! "rows" = Some (PRows rows) ∧
          state !! "question" = Some (PScalar (VStr question))) as [Hrows Hq].
  { unfold state, o_to_d_state.
    destruct map_provider as [p|]; [destruct (String.eqb p "")|];
      split; by repeat (rewrite lookup_insert_ne by done); simplify_map_eq. }
  destruct (ensure_origin_valid state) as [[]|]; simpl; [|done].
  unfold build_graph_full. rewrite run_node_lift.
  destruct (origin_resolver_node state) as [s1|] eqn:H1; simpl; [|done].
  pose proof (origin_resolver_node_keeps _ _ H1) as K1.
  rewrite (union_keeps _ _ _ K1).
  fold (build_graph_ced s1).
  destruct (build_graph_ced s1) as [[s4|] ev'] eqn:H4; simpl; [|done].
  intros [= <- <-].
  destruct (build_graph_ced_Ok _ _ _ H4) as (Hev & [_ Hk] & Hout).
  destruct K1 as [_ Hk1].
  split; [done|]. split.
  { destruct Hev as [-> | ->]; [by left|by right]. }
  split; [rewrite Hk, Hk1; [done| |]; unfold RESOLVER_KEYS; not_in_keys|].
  split; [|done].
  rewrite Hk, Hk1; [done| |]; unfold RESOLVER_KEYS; not_in_keys.
Qed.

(** A legacy run that returns has entered the three nodes C, E, D in that
    order, with at most one request to the chat endpoint, after them.  The
    center of the state it returns is the center passed in, or the origin
    when none was passed; the state holds at most [max(1, topn)]
    recommendations, a map, a non-empty answer and the sources of exactly
    those recommendations. *)
Theorem run_c_to_d_trace (rows : list (gmap string scalar)) (lat lon : R)
    (question : string) (topn : Z) (radius_km : option R)
    (map_provider : option string) (center : option (R * R))
    (out : gmap string pyval) (evs : list event) :
  run_c_to_d rows lat lon question topn radius_km map_provider center = (Ok out, evs) →
  (evs = [EvNode "AgentC_Recommender"; EvNode "AgentE_Map"; EvNode "AgentD_Answer"] ∨
   evs = [EvNode "AgentC_Recommender"; EvNode "AgentE_Map"; EvNode "AgentD_Answer";
          EvRemoteChat]) ∧
  out !! "center" = Some (match center with
                          | Some (a, b) => PPair a b
                          | None => PPair lat lon
                          end) ∧
  ∃ (recs : list (gmap string scalar)) (h a : string),
    out !! "recommendations" = Some (PRows recs) ∧
    length recs ≤ Z.to_nat (Z.max 1 topn) ∧
    out !! "map_html" = Some (PScalar (VStr h)) ∧
    out !! "answer" = Some (PScalar (VStr a)) ∧ a ≠ "" ∧
    out !! "sources" = Some (PRows (map source_of recs)).
Proof.
  unfold run_c_to_d.
  set (st0 := ({[ "rows" := PRows rows; "lat" := PScalar (VFloat lat);
                 "lon" := PScalar (VFloat lon); "topn" := PScalar (VInt topn);
                 "radius_km" := opt_float radius_km;
                 "question" := PScalar (VStr question) ]} : gmap string pyval)).
  set (st1 := match map_provider with
              | Some p => if String.eqb p "" then st0
                          else <["map_provider" := PScalar (VStr p)]> st0
              | None => st0
              end).
  set (st := match center with
             | Some (a, b) => <["center" := PPair a b]> st1
             | None => st1
             end).
  assert (st1 !! "lat" = Some (PScalar (VFloat lat)) ∧
          st1 !! "lon" = Some (PScalar (VFloat lon)) ∧
          st1 !! "topn" = Some (PScalar (VInt topn)) ∧
          st1 !! "center" = None) as (Hlat1 & Hlon1 & Htopn1 & Hc1).
  { unfold st1, st0.
    destruct map_provider as [p|]; [destruct (String.eqb p "")|];
      split_and!; by repeat (rewrite lookup_insert_ne by done); simplify_map_eq. }
  assert (st !! "lat" = Some (PScalar (VFloat lat)) ∧
          st !! "lon" = Some (PScalar (VFloat lon)) ∧
          st !! "topn" = Some (PScalar (VInt topn)) ∧
          st !! "center" = match center with
                           | Some (a, b) => Some (PPair a b)
                           | None => None
                           end) as (Hlat & Hlon & Htopn & Hc).
  { unfold st. destruct center as [[a b]|]; [|done].
    rewrite !lookup_insert_ne by done. by rewrite lookup_insert_eq. }
  clearbody st. clear st0 st1 Hlat1 Hlon1 Htopn1 Hc1.
  intros Hrun.
  destruct (build_graph_ced_Ok _ _ _ Hrun) as (Hev & _ & recs & h & a & Hr & Hh & Ha & Hne & Hs).
  split; [done|].
  revert Hrun. unfold build_graph_ced. rewrite run_node_lift.
  destruct (agent_c st) as [s2|] eqn:H2; simpl; [|done].
  rewrite (union_keeps _ _ _ (agent_c_keeps _ _ H2)).
  rewrite run_node_lift.
  destruct (agent_e s2) as [s3|] eqn:H3; simpl; [|done].
  rewrite (union_keeps _ _ _ (agent_e_keeps _ _ H3)).
  unfold run_node, emit. simpl.
  destruct (agent_d s3) as [[s4|] evd] eqn:H4; simpl; [|done].
  rewrite (union_keeps _ _ _ (agent_d_keeps _ _ _ H4)).
  intros [= <- _].
  destruct (agent_e_keeps _ _ H3) as [_ Hk3].
  destruct (agent_d_keeps _ _ _ H4) as [_ Hk4].
  rewrite Hk4, Hk3 in Hr by not_in_keys.
  assert (s4 !! "center" = s2 !! "center") as Hc4.
  { by rewrite Hk4, Hk3 by not_in_keys. }
  revert H2. unfold agent_c, state_get, state_get_default.
  rewrite Hlat, Hlon, Htopn. simpl. intros H2.
  apply rbind_Ok in H2 as (rws & _ & H2).
  apply rbind_Ok in H2 as (recs' & Hn & H2).
  injection H2 as <-. split.
  - rewrite Hc4, lookup_setdefault_eq, lookup_insert_ne, Hc by done.
    by destruct center as [[? ?]|].
  - exists recs, h, a. split; [by rewrite Hk4, Hk3 by not_in_keys|].
    split; [|done].
    rewrite lookup_setdefault_ne, lookup_insert_eq in Hr by done.
    injection Hr as ->. revert Hn. unfold nearest.
    destruct (candidates _ _ _ _); simpl; [|done].
    intros [= <-]. rewrite length_take. lia.
Qed.

(** ** When a run returns *)










(** ** Further facts on the index and the search *)

Lemma make_docs_spec (i : nat) (rows : list (gmap string scalar)) (ds : list Document) :
  make_docs i rows = Ok ds →
  length ds = length rows ∧
  ∀ j d, ds !! j = Some d →
    doc_id d = i + j ∧
    ∃ r, rows !! j = Some r ∧
         or_empty_strip (row_get r "TITLE") = Ok (doc_title d) ∧
         or_empty_strip (row_get r "URL") = Ok (doc_url d) ∧
         doc_text d = _concat_fields r.
Proof.
  revert i ds. induction rows as [|r rows IH]; simpl; intros i ds.
  - intros [= <-]. split; [done|]. intros j d. by rewrite lookup_nil.
  - destruct (or_empty_strip (row_get r "TITLE")) as [title|] eqn:Ht; simpl; [|done].
    destruct (or_empty_strip (row_get r "URL")) as [url|] eqn:Hu; simpl; [|done].
    destruct (make_docs (S i) rows) as [ds'|] eqn:Hds; simpl; [|done].
    intros [= <-]. destruct (IH _ _ Hds) as [Hlen Hdocs]. split; [simpl; lia|].
    intros [|j] d; simpl.
    + intros [= <-]. simpl. split; [lia|]. by exists r.
    + intros Hd. destruct (Hdocs j d Hd) as [Hid Hr]. split; [lia|done].
Qed.

Lemma np_array_Ok (vecs m : list (list R)) :
  np_array vecs = Ok m →
  m = vecs ∧ ∀ v w, v ∈ vecs → w ∈ vecs → length v = length w.
Proof.
  unfold np_array. destruct vecs as [|v vs]; [intros [= <-]; split; [done|]|].
  - intros ? ? []%elem_of_nil.
  - destruct (forallb _ vs) eqn:Hall; [|done]. intros [= <-]. split; [done|].
    assert (∀ w, w ∈ v :: vs → length w = length v) as Hlen.
    { intros w [->|Hw]%elem_of_cons; [done|].
      rewrite forallb_forall in Hall. apply Nat.eqb_eq, Hall.
      by apply list_elem_of_In. }
    intros a b Ha Hb. by rewrite (Hlen a Ha), (Hlen b Hb).
Qed.

(** What [build_index] leaves. On no rows the index is emptied. When the
    build raises, the index is untouched. When it returns on some rows,
    the index holds one document per row, in order and numbered from 0,
    whose title and URL are the trimmed fields of the row and whose text is
    the concatenation of its fields, together with the backend
    [get_embedder] chose and its vectors, all of one dimension. *)
Theorem build_index_outcome (rows : list (gmap string scalar)) (idx : Index) :
  (rows = [] → build_index rows idx = (Ok tt, EMPTY_INDEX)) ∧
  (∀ e idx', build_index rows idx = (Raise e, idx') → idx' = idx) ∧
  (∀ idx', rows ≠ [] → build_index rows idx = (Ok tt, idx') →
     length (docs idx') = length rows ∧
     (∀ j d, docs idx' !! j = Some d →
        doc_id d = j ∧
        ∃ r, rows !! j = Some r ∧
             or_empty_strip (row_get r "TITLE") = Ok (doc_title d) ∧
             or_empty_strip (row_get r "URL") = Ok (doc_url d) ∧
             doc_text d = _concat_fields r) ∧
     ∃ e m, get_embedder (map doc_text (docs idx')) = (e, m) ∧
            embedder idx' = Some e ∧ embeddings idx' = Some m ∧
            ∀ v w, v ∈ m → w ∈ m → length v = length w).
Proof.
  split_and!.
  - by intros ->.
  - intros e idx'. unfold build_index. destruct rows as [|r rows]; [done|].
    destruct (let* ds := _ in _); by intros [= _ <-].
  - intros idx' Hne. unfold build_index. destruct rows as [|r rows]; [done|].
    destruct (make_docs 0 (r :: rows)) as [ds|] eqn:Hds; [|done].
    cbn [rbind].
    destruct (get_embedder (map doc_text ds)) as [e vecs] eqn:He.
    destruct (np_array vecs) as [m|] eqn:Hm; [|done]. cbn [rbind].
    intros [= <-]. cbn [docs embeddings embedder].
    destruct (make_docs_spec _ _ _ Hds) as [Hlen Hdocs].
    destruct (np_array_Ok _ _ Hm) as [-> Hdim].
    split; [done|]. split; [exact Hdocs|]. by exists e, vecs.
Qed.

(** Build, then search. After [build_index] has returned on some rows,
    with a backend that gave one vector per text, each of the dimension of
    its query vectors, [search] returns [min(k, number of rows)] results
    for every non-empty query and every [k ≥ 0]. *)
Theorem build_then_search (rows : list (gmap string scalar)) (idx idx' : Index)
    (query : string) (k : Z) :
  argsort_spec argsort →
  rows ≠ [] → query ≠ "" → (0 ≤ k)%Z →
  build_index rows idx = (Ok tt, idx') →
  (∀ e m, get_embedder (map doc_text (docs idx')) = (e, m) →
     length m = length rows ∧
     Forall (λ v, length v = length (encode_query e query)) m) →
  ∃ hits, search idx' query k = Ok hits ∧
          length hits = Z.to_nat k `min` length rows.
Proof.
  intros Hsort Hrows Hq Hk. unfold build_index.
  destruct rows as [|r rows]; [done|].
  destruct (make_docs 0 (r :: rows)) as [ds|] eqn:Hds; [|done].
  cbn [rbind].
  destruct (get_embedder (map doc_text ds)) as [e vecs] eqn:He.
  destruct (np_array vecs) as [m|] eqn:Hm; [|done]. cbn [rbind].
  intros [= <-]. cbn [docs]. intros Hback.
  destruct (np_array_Ok _ _ Hm) as [-> _].
  destruct (Hback e vecs He) as [Hlen Hdim].
  destruct (make_docs_spec _ _ _ Hds) as [Hlen' _].
  unfold search. cbn [docs embeddings embedder].
  destruct ds as [|d0 ds]; [done|].
  destruct (String.eqb_spec query ""); [done|].
  destruct vecs as [|v vecs]; [done|].
  destruct (cosine_scores_total _ _ Hdim) as [scores Hs]. rewrite Hs. simpl.
  pose proof (cosine_scores_length _ _ _ Hs) as Hsl.
  fold (top_indices k scores).
  destruct (mapM_total
              (λ i, match (d0 :: ds) !! i, scores !! i with
                    | Some d, Some s => Ok (hit_of d s)
                    | _, _ => Raise IndexError
                    end) (top_indices k scores)) as [hits Hh].
  { apply Forall_forall. intros i Hi.
    apply (top_indices_bound Hsort) in Hi; [|done].
    destruct (lookup_lt_is_Some_2 scores i Hi) as [s ->].
    rewrite Hsl, Hlen, <- Hlen' in Hi.
    destruct (lookup_lt_is_Some_2 (d0 :: ds) i Hi) as [d ->]. by eexists. }
  exists hits. split; [exact Hh|].
  apply mapM_Forall2, Forall2_length in Hh.
  rewrite <- Hh, (top_indices_length Hsort) by done. by rewrite Hsl, Hlen.
Qed.

(** ** Facts on the normalisation of rows *)

Lemma FIELDS_NoDup : NoDup FIELDS.
Proof.
  unfold FIELDS. repeat (apply NoDup_cons_2; [not_in_keys|]). apply NoDup_nil_2.
Qed.

Definition is_coord (key : string) : bool :=
  String.eqb key "LA" || String.eqb key "LO".

(** What [_normalize_value] returns when it returns. *)
Lemma _normalize_value_Ok (key : string) (v w : scalar) :
  _normalize_value key v = Ok w →
  text_or_none v ∧
  if is_coord key then w = VNone ∨ ∃ f, w = VFloat f ∧ f ≠ 0%R
  else w = VNone ∨ ∃ s, v = VStr s ∧ w = VStr (strip s) ∧ strip s ≠ "".
Proof.
  unfold _normalize_value, is_coord.
  destruct v as [| | | |s]; try done.
  - intros [= <-]. split; [by left|]. destruct (_ || _); by left.
  - split; [right; by eexists|]. revert H.
    destruct (String.eqb_spec (strip s) "") as [He|Hne].
    { intros [= <-]. destruct (_ || _); by left. }
    destruct (_ || _).
    + destruct (py_float _) as [f|[]]; try done.
      * intros [= <-]. destruct (Req_dec_T f 0); [by left|right; by exists f].
      * intros [= <-]. by left.
    + intros [= <-]. right. by exists s.
Qed.

Lemma _normalize_value_text (key : string) (v : scalar) :
  text_or_none v → ∃ w, _normalize_value key v = Ok w.
Proof.
  intros [-> | [s ->]]; simpl; [by eexists|].
  destruct (String.eqb (strip s) ""); [by eexists|].
  destruct (_ || _); [|by eexists].
  unfold py_float. destruct (String.eqb (strip (strip s)) ""); [by eexists|].
  destruct (parse_float _); by eexists.
Qed.

Lemma _normalize_value_other (key : string) (v : scalar) :
  ¬ text_or_none v → _normalize_value key v = Raise AttributeError.
Proof.
  intros Hv. destruct v; try done.
  - destruct Hv. by left.
  - destruct Hv. right. by eexists.
Qed.

Lemma _normalize_value_Raise (key : string) (v : scalar) (e : exn) :
  _normalize_value key v = Raise e → e = AttributeError.
Proof.
  destruct v as [| | | |s]; simpl; try (by intros [= <-]).
  destruct (String.eqb (strip s) ""); [done|].
  destruct (String.eqb key "LA" || String.eqb key "LO"); [|done].
  unfold py_float. destruct (String.eqb (strip (strip s)) ""); [done|].
  by destruct (parse_float _).
Qed.

Lemma normalize_fields_Ok (keys : list string) (row acc out : gmap string scalar) :
  NoDup keys →
  normalize_fields keys row acc = Ok out →
  (∀ k, k ∉ keys → out !! k = acc !! k) ∧
  (∀ k, k ∈ keys →
     ∃ w, _normalize_value k (row_get row k) = Ok w ∧ out !! k = Some w).
Proof.
  intros Hnd. revert acc. induction Hnd as [|key keys Hin _ IH]; simpl; intros acc.
  - intros [= <-]. split; [done|]. by intros k ?%elem_of_nil.
  - destruct (_normalize_value key (row_get row key)) as [v|] eqn:Hv; simpl; [|done].
    intros H. destruct (IH _ H) as [Hout Hin'].
    split.
    + intros k [Hne Hk]%not_elem_of_cons. rewrite (Hout k Hk).
      by rewrite lookup_insert_ne.
    + intros k [->|Hk]%elem_of_cons; [|by apply Hin'].
      exists v. split; [done|]. rewrite (Hout key Hin). by rewrite lookup_insert_eq.
Qed.

Lemma normalize_fields_total (keys : list string) (row acc : gmap string scalar) :
  Forall (λ k, text_or_none (row_get row k)) keys →
  ∃ out, normalize_fields keys row acc = Ok out.
Proof.
  intros H. revert acc. induction H as [|key keys Hk _ IH]; simpl; intros acc.
  - by eexists.
  - destruct (_normalize_value_text key _ Hk) as [w ->]. simpl. apply IH.
Qed.

Lemma normalize_fields_raises (keys : list string) (row acc : gmap string scalar) :
  Exists (λ k, ¬ text_or_none (row_get row k)) keys →
  normalize_fields keys row acc = Raise AttributeError.
Proof.
  intros H. revert acc. induction H as [key keys Hk|key keys _ IH]; simpl; intros acc.
  - by rewrite (_normalize_value_other key _ Hk).
  - destruct (_normalize_value key (row_get row key)) as [w|e] eqn:Hw; simpl.
    + apply IH.
    + by rewrite (_normalize_value_Raise _ _ _ Hw).
Qed.

Lemma normalize_row_Ok (row out : gmap string scalar) :
  normalize_row row = Ok out →
  (∀ k, is_Some (out !! k) ↔ k ∈ FIELDS) ∧
  (∀ k, k = "LA" ∨ k = "LO" →
     row_get out k = VNone ∨
     ∃ f, row_get out k = VFloat f ∧ f ≠ 0%R ∧
          _safe_float (row_get out k) = Some f) ∧
  (∀ k, k ∈ FIELDS → k ≠ "LA" → k ≠ "LO" →
     row_get out k = VNone ∨
     ∃ s, row_get row k = VStr s ∧ row_get out k = VStr (strip s) ∧
          strip s ≠ "").
Proof.
  unfold normalize_row. intros H.
  destruct (normalize_fields_Ok _ _ _ _ FIELDS_NoDup H) as [Hout Hin].
  split_and!.
  - intros k. split.
    + intros Hk. destruct (decide (k ∈ FIELDS)) as [|Hn]; [done|].
      rewrite (Hout k Hn), lookup_empty in Hk. by destruct Hk.
    + intros Hk. destruct (Hin k Hk) as (w & _ & ->). by eexists.
  - intros k Hk.
    assert (k ∈ FIELDS) as Hf by (destruct Hk as [-> | ->]; in_keys).
    destruct (Hin k Hf) as (w & Hw & Hlook).
    apply _normalize_value_Ok in Hw as [_ Hw].
    assert (is_coord k = true) as Hc by (by destruct Hk as [-> | ->]).
    rewrite Hc in Hw. unfold row_get. rewrite Hlook. simpl.
    destruct Hw as [-> | (f & -> & Hne)]; [by left|right].
    exists f. split; [done|]. split; [done|].
    unfold _safe_float. simpl. by destruct (Req_dec_T f 0).
  - intros k Hf Hla Hlo.
    destruct (Hin k Hf) as (w & Hw & Hlook).
    apply _normalize_value_Ok in Hw as [_ Hw].
    assert (is_coord k = false) as Hc.
    { unfold is_coord. by destruct (String.eqb_spec k "LA"), (String.eqb_spec k "LO"). }
    rewrite Hc in Hw. unfold row_get at 1 3. rewrite Hlook. simpl.
    destruct Hw as [-> | (s & Hs & -> & Hne)]; [by left|right]. by exists s.
Qed.

(** What [normalize_row] returns. It returns exactly when every field of
    the row is a string or [None], and raises [AttributeError] otherwise.
    The row it returns has the 17 standard fields and no other; [LA] and
    [LO] are [None] or a non-zero float, which [nearest] then accepts as a
    coordinate; every other field is [None] or the trimmed, non-empty text
    of the field.  So a row that came out with a coordinate does not go
    through [normalize_row] a second time: the float has no [strip]. *)
Theorem normalize_row_schema (row : gmap string scalar) :
  (Forall (λ k, text_or_none (row_get row k)) FIELDS →
   ∃ out, normalize_row row = Ok out) ∧
  (Exists (λ k, ¬ text_or_none (row_get row k)) FIELDS →
   normalize_row row = Raise AttributeError) ∧
  (∀ out, normalize_row row = Ok out →
     (∀ k, is_Some (out !! k) ↔ k ∈ FIELDS) ∧
     (∀ k, k = "LA" ∨ k = "LO" →
        row_get out k = VNone ∨
        ∃ f, row_get out k = VFloat f ∧ f ≠ 0%R ∧
             _safe_float (row_get out k) = Some f) ∧
     (∀ k, k ∈ FIELDS → k ≠ "LA" → k ≠ "LO" →
        row_get out k = VNone ∨
        ∃ s, row_get row k = VStr s ∧ row_get out k = VStr (strip s) ∧
             strip s ≠ "") ∧
     (∀ k, k = "LA" ∨ k = "LO" → row_get out k ≠ VNone →
        normalize_row out = Raise AttributeError)).
Proof.
  split_and!.
  - apply normalize_fields_total.
  - apply normalize_fields_raises.
  - intros out H. destruct (normalize_row_Ok _ _ H) as (Hdom & Hco & Htx).
    split_and!; [done..|].
    intros k Hk Hne. apply normalize_fields_raises.
    apply Exists_exists. exists k. split.
    + destruct Hk as [-> | ->]; in_keys.
    + destruct (Hco k Hk) as [Hn | (f & Hf & _)]; [done|].
      rewrite Hf. intros [Hx | [s Hx]]; discriminate Hx.
Qed.

(** ** Pages and index ranges *)

(** The pages tile the indices from 1: the first page starts at 1, each
    page holds [page_size] indices, the next page starts right after, and
    every index from 1 on lies in exactly one page. *)
Theorem page_ranges_tile (page_size : Z) :
  (0 < page_size)%Z →
  (page_to_index_range 1 page_size).1 = 1%Z ∧
  (∀ p, (page_to_index_range p page_size).2 - (page_to_index_range p page_size).1 + 1
        = page_size)%Z ∧
  (∀ p, (page_to_index_range (p + 1) page_size).1
        = (page_to_index_range p page_size).2 + 1)%Z ∧
  (∀ i, (1 ≤ i)%Z →
     ∃ p, (1 ≤ p)%Z ∧
          ((page_to_index_range p page_size).1 ≤ i
           ≤ (page_to_index_range p page_size).2)%Z ∧
          ∀ q, ((page_to_index_range q page_size).1 ≤ i
                ≤ (page_to_index_range q page_size).2)%Z → q = p).
Proof.
  intros Hs. unfold page_to_index_range. simpl. split_and!; [lia|intros; lia..|].
  intros i Hi. exists ((i - 1) / page_size + 1)%Z.
  pose proof (Z.div_mod (i - 1) page_size ltac:(lia)) as Hdm.
  pose proof (Z.mod_pos_bound (i - 1) page_size Hs) as Hm.
  pose proof (Z.div_pos (i - 1) page_size ltac:(lia) Hs) as Hd.
  split; [lia|]. split; [nia|]. intros q Hq. nia.
Qed.

Lemma py_int_VStr_Raise (s : string) (e : exn) :
  py_int (VStr s) = Raise e → ∃ msg, e = ValueError msg.
Proof.
  simpl. destruct (String.eqb (strip s) ""); [intros [= <-]; by eexists|].
  destruct (parse_int _); [done|]. intros [= <-]. by eexists.
Qed.

(** [parse_pages].  Whatever it returns is a run of consecutive pages
    that starts at 1 or later and is not empty.  It returns the pages from
    [start] to [end] for a text [start-end] of two integers with
    [1 ≤ start ≤ end], and the one page for the text of an integer from 1
    on (the run is taken to fit in memory: fewer than a million pages).
    It raises [ValueError] when a part is not an integer, when the range
    starts below 1 or ends before it starts, and when the single page is
    below 1. *)
Theorem parse_pages_result (pages_arg : string) :
  (∀ pages, parse_pages pages_arg = Ok pages →
     ∃ start n, pages = seqZ start n ∧ (1 ≤ start)%Z ∧ (1 ≤ n)%Z ∧
                Forall (λ p, (1 ≤ p)%Z) pages) ∧
  (∀ s e start end_,
     split_dash (strip pages_arg) = Some (s, e) →
     py_int (VStr s) = Ok start → py_int (VStr e) = Ok end_ →
     ((1 ≤ start ≤ end_)%Z → (end_ - start < 1000000)%Z →
      parse_pages pages_arg = Ok (seqZ start (end_ + 1 - start))) ∧
     ((start < 1 ∨ end_ < start)%Z →
      parse_pages pages_arg = Raise (ValueError "--pages 범위를 확인하세요 (예: 1-5)"))) ∧
  (∀ val,
     split_dash (strip pages_arg) = None →
     py_int (VStr (strip pages_arg)) = Ok val →
     ((1 ≤ val)%Z → parse_pages pages_arg = Ok [val]) ∧
     ((val < 1)%Z →
      parse_pages pages_arg = Raise (ValueError "--pages는 1 이상의 정수여야 합니다."))) ∧
  (∀ s e err,
     split_dash (strip pages_arg) = Some (s, e) →
     py_int (VStr s) = Raise err ∨
     ((∃ start, py_int (VStr s) = Ok start) ∧ py_int (VStr e) = Raise err) →
     parse_pages pages_arg = Raise err ∧ ∃ msg, err = ValueError msg) ∧
  (∀ err,
     split_dash (strip pages_arg) = None →
     py_int (VStr (strip pages_arg)) = Raise err →
     parse_pages pages_arg = Raise err ∧ ∃ msg, err = ValueError msg).
Proof.
  unfold parse_pages. split_and!.
  - destruct (split_dash (strip pages_arg)) as [[s e]|].
    + intros pages H.
      apply rbind_Ok in H as (start & _ & H). apply rbind_Ok in H as (end_ & _ & H).
      destruct (_ || _) eqn:Hb; [done|]. injection H as <-.
      apply orb_false_elim in Hb as [Hs He].
      apply Z.leb_gt in Hs. apply Z.ltb_ge in He.
      exists start, (end_ + 1 - start)%Z. split_and!; [done|lia|lia|].
      apply Forall_forall. intros p Hp%elem_of_seqZ. lia.
    + intros pages H. apply rbind_Ok in H as (val & _ & H).
      destruct (val <=? 0)%Z eqn:Hv; [done|]. injection H as <-.
      apply Z.leb_gt in Hv. exists val, 1%Z. split_and!; [done|lia|lia|].
      by repeat constructor; lia.
  - intros s e start end_ -> Hs He. rewrite Hs, He. cbn [rbind]. split.
    + intros [H1 H2] _.
      destruct (start <=? 0)%Z eqn:E1; [apply Z.leb_le in E1; lia|].
      destruct (end_ <? start)%Z eqn:E2; [apply Z.ltb_lt in E2; lia|]. done.
    + intros [H|H].
      * destruct (start <=? 0)%Z eqn:E1; [done|]. apply Z.leb_gt in E1. lia.
      * destruct (end_ <? start)%Z eqn:E2; [by rewrite orb_true_r|].
        apply Z.ltb_ge in E2. lia.
  - intros val -> Hv. rewrite Hv. cbn [rbind]. split.
    + intros H. destruct (val <=? 0)%Z eqn:E; [apply Z.leb_le in E; lia|done].
    + intros H. destruct (val <=? 0)%Z eqn:E; [done|]. apply Z.leb_gt in E. lia.
  - intros s e err -> [H|[[start Hs] H]].
    + rewrite H. cbn [rbind]. split; [done|]. by eapply py_int_VStr_Raise.
    + rewrite Hs, H. cbn [rbind]. split; [done|]. by eapply py_int_VStr_Raise.
  - intros err -> H. rewrite H. cbn [rbind]. split; [done|].
    by eapply py_int_VStr_Raise.
Qed.

(** ** Removal of duplicates *)

Lemma dedupe_loop_sublist (rows : list (gmap string scalar)) (seen : list dedupe_key) :
  dedupe_loop rows seen `sublist_of` rows.
Proof.
  revert seen. induction rows as [|r rows IH]; simpl; intros seen; [done|].
  destruct (decide _); [by apply sublist_cons|by apply sublist_skip].
Qed.

Lemma dedupe_loop_keys (rows : list (gmap string scalar)) (seen : list dedupe_key) :
  NoDup (map dedupe_key_of (dedupe_loop rows seen)) ∧
  ∀ r, r ∈ dedupe_loop rows seen → dedupe_key_of r ∉ seen.
Proof.
  revert seen. induction rows as [|r rows IH]; simpl; intros seen.
  - split; [constructor|]. by intros r ?%elem_of_nil.
  - destruct (decide (dedupe_key_of r ∈ seen)) as [Hin|Hnin]; [apply IH|].
    destruct (IH (dedupe_key_of r :: seen)) as [Hnd Hseen]. simpl. split.
    + constructor; [|done]. intros (r' & Hk & Hr')%list_elem_of_fmap.
      apply Hseen in Hr'. apply Hr'. rewrite <- Hk. by left.
    + intros r' [->|Hr']%elem_of_cons; [done|].
      apply Hseen in Hr'. intros Hin. apply Hr'. by right.
Qed.

Lemma dedupe_loop_covers (rows : list (gmap string scalar)) (seen : list dedupe_key)
    (r : gmap string scalar) :
  r ∈ rows → dedupe_key_of r ∉ seen →
  ∃ r', r' ∈ dedupe_loop rows seen ∧ dedupe_key_of r' = dedupe_key_of r.
Proof.
  revert seen. induction rows as [|r0 rows IH]; simpl; intros seen.
  - by intros ?%elem_of_nil.
  - intros [->|Hr]%elem_of_cons Hk.
    + rewrite decide_False by done. exists r0. split; [by left|done].
    + destruct (decide (dedupe_key_of r0 ∈ seen)) as [Hin|Hnin]; [by apply IH|].
      destruct (decide (dedupe_key_of r = dedupe_key_of r0)) as [Heq|Hne].
      * exists r0. split; [by left|done].
      * destruct (IH (dedupe_key_of r0 :: seen) Hr) as (r' & Hr' & Hk').
        { by intros [?|?]%elem_of_cons. }
        exists r'. split; [by right|done].
Qed.

Lemma dedupe_loop_idemp (rows : list (gmap string scalar)) (seen : list dedupe_key) :
  dedupe_loop (dedupe_loop rows seen) seen = dedupe_loop rows seen.
Proof.
  revert seen. induction rows as [|r rows IH]; simpl; intros seen; [done|].
  destruct (decide (dedupe_key_of r ∈ seen)) as [Hin|Hnin]; [apply IH|].
  simpl. rewrite decide_False by done. by rewrite IH.
Qed.

(** For each key, what the loop keeps is the first row that has it. *)
Lemma dedupe_loop_first (rows : list (gmap string scalar)) (seen : list dedupe_key)
    (k : dedupe_key) :
  filter (λ r, dedupe_key_of r = k) (dedupe_loop rows seen) =
  if decide (k ∈ seen) then []
  else take 1 (filter (λ r, dedupe_key_of r = k) rows).
Proof.
  revert seen. induction rows as [|r rows IH]; simpl; intros seen.
  - by destruct (decide _).
  - destruct (decide (dedupe_key_of r ∈ seen)) as [Hin|Hnin].
    + rewrite IH, (filter_cons _ r).
      destruct (decide (k ∈ seen)) as [|Hk]; [done|].
      rewrite decide_False; [done|]. by intros <-.
    + rewrite !filter_cons, IH.
      destruct (decide (dedupe_key_of r = k)) as [<-|Hne].
      * rewrite decide_True by (by left). by rewrite decide_False by done.
      * destruct (decide (k ∈ seen)) as [Hk|Hk].
        -- by rewrite decide_True by (by right).
        -- rewrite decide_False; [done|]. by intros [?|?]%elem_of_cons.
Qed.

(** [dedupe_rows] keeps, for every key, the first row that has it and no
    other: the result is a sublist of the rows, no two of its rows have the
    same key, every key of the rows is still there, and removing
    duplicates a second time changes nothing. *)
Theorem dedupe_rows_spec (rows : list (gmap string scalar)) :
  dedupe_rows rows `sublist_of` rows ∧
  NoDup (map dedupe_key_of (dedupe_rows rows)) ∧
  (∀ k, filter (λ r, dedupe_key_of r = k) (dedupe_rows rows) =
        take 1 (filter (λ r, dedupe_key_of r = k) rows)) ∧
  (∀ r, r ∈ rows →
     ∃ r', r' ∈ dedupe_rows rows ∧ dedupe_key_of r' = dedupe_key_of r) ∧
  dedupe_rows (dedupe_rows rows) = dedupe_rows rows.
Proof.
  unfold dedupe_rows. split_and!.
  - apply dedupe_loop_sublist.
  - apply dedupe_loop_keys.
  - intros k. rewrite dedupe_loop_first. by rewrite decide_False by apply not_elem_of_nil.
  - intros r Hr. apply dedupe_loop_covers; [done|apply not_elem_of_nil].
  - apply dedupe_loop_idemp.
Qed.

(** ** Facts on [_cosine] *)

(** The three sums [_cosine] accumulates over [zip(a, b)]. *)
Definition zip_dot (a b : list R) : R := Rsum (zip_with Rmult a b).
Definition zip_sq_l (a b : list R) : R := Rsum (zip_with (λ x _, (x * x)%R) a b).
Definition zip_sq_r (a b : list R) : R := Rsum (zip_with (λ _ y, (y * y)%R) a b).

Lemma cosine_loop_sums (a b : list R) (num da db : R) :
  cosine_loop a b num da db =
  ((num + zip_dot a b)%R, (da + zip_sq_l a b)%R, (db + zip_sq_r a b)%R).
Proof.
  unfold zip_dot, zip_sq_l, zip_sq_r.
  revert b num da db. induction a as [|x a IH]; intros [|y b] num da db; simpl;
    try (f_equal; [f_equal|]; ring).
  rewrite IH. f_equal; [f_equal|]; ring.
Qed.

Lemma zip_sums_sym (a b : list R) :
  zip_dot a b = zip_dot b a ∧ zip_sq_l a b = zip_sq_r b a.
Proof.
  unfold zip_dot, zip_sq_l, zip_sq_r.
  revert b. induction a as [|x a IH]; intros [|y b]; simpl; try done.
  destruct (IH b) as [-> ->]. split; [ring|done].
Qed.

Lemma _cosine_unfold (a b : list R) :
  _cosine a b =
  if Req_dec_T (zip_sq_l a b) 0 then 0%R
  else if Req_dec_T (zip_sq_r a b) 0 then 0%R
  else (zip_dot a b / (sqrt (zip_sq_l a b) * sqrt (zip_sq_r a b)))%R.
Proof.
  unfold _cosine. rewrite cosine_loop_sums. rewrite !Rplus_0_l. done.
Qed.

Lemma zip_sums_take (a b : list R) :
  zip_dot (take (length b) a) (take (length a) b) = zip_dot a b ∧
  zip_sq_l (take (length b) a) (take (length a) b) = zip_sq_l a b ∧
  zip_sq_r (take (length b) a) (take (length a) b) = zip_sq_r a b.
Proof.
  unfold zip_dot, zip_sq_l, zip_sq_r.
  revert b. induction a as [|x a IH]; intros [|y b]; simpl; try done.
  destruct (IH b) as (-> & -> & ->). done.
Qed.

Lemma zip_dot_orthogonal (a b : list R) :
  Forall (λ p, p.1 = 0%R ∨ p.2 = 0%R) (zip a b) → zip_dot a b = 0%R.
Proof.
  unfold zip_dot.
  revert b. induction a as [|x a IH]; intros [|y b]; simpl; try done.
  intros [Hxy Hrest]%Forall_cons_1. rewrite (IH b Hrest).
  simpl in Hxy. destruct Hxy as [-> | ->]; ring.
Qed.

(** [_cosine] is symmetric; only the positions both vectors have count;
    and it is 0 when at every such position one of the two entries is 0,
    so in particular when one of the vectors is zero or empty. *)
Theorem _cosine_properties :
  (∀ a b, _cosine a b = _cosine b a) ∧
  (∀ a b, _cosine a b = _cosine (take (length b) a) (take (length a) b)) ∧
  (∀ a b, Forall (λ p, p.1 = 0%R ∨ p.2 = 0%R) (zip a b) → _cosine a b = 0%R).
Proof.
  split_and!.
  - intros a b. rewrite !_cosine_unfold.
    destruct (zip_sums_sym a b) as [Hd Hl]. destruct (zip_sums_sym b a) as [_ Hr].
    rewrite Hd, Hl, <- Hr.
    destruct (Req_dec_T (zip_sq_r b a) 0), (Req_dec_T (zip_sq_l b a) 0); try done.
    by rewrite (Rmult_comm (sqrt _)).
  - intros a b. rewrite !_cosine_unfold.
    by destruct (zip_sums_take a b) as (-> & -> & ->).
  - intros a b Horth. rewrite _cosine_unfold, (zip_dot_orthogonal a b Horth).
    destruct (Req_dec_T _ 0); [done|]. destruct (Req_dec_T _ 0); [done|].
    unfold Rdiv. ring.
Qed.

(** ** Facts on the keyword backend *)

Lemma elem_of_concat {A : Type} (x : A) (ls : list (list A)) :
  x ∈ concat ls ↔ ∃ l, x ∈ l ∧ l ∈ ls.
Proof.
  induction ls as [|l ls IH]; simpl.
  - split; [by intros ?%elem_of_nil|]. by intros (l & _ & ?%elem_of_nil).
  - rewrite elem_of_app, IH. split.
    + intros [Hx|(l' & Hx & Hl)].
      * exists l. split; [done|apply list_elem_of_here].
      * exists l'. split; [done|by apply list_elem_of_further].
    + intros (l' & Hx & [->|Hl]%elem_of_cons); [by left|right; by exists l'].
Qed.

Lemma mapM_map {A B C : Type} (f : B → result C) (g : A → B) (l : list A) :
  mapM f (map g l) = mapM (λ x, f (g x)) l.
Proof. induction l as [|x l IH]; simpl; [done|]. by rewrite IH. Qed.

Lemma vocab_words_NoDup (tokenized_docs : list (list string)) :
  NoDup (vocab_words tokenized_docs).
Proof.
  unfold vocab_words. rewrite merge_sort_Permutation. apply NoDup_remove_dups.
Qed.

Lemma vocab_words_elem_of (tokenized_docs : list (list string)) (w : string) :
  w ∈ vocab_words tokenized_docs ↔ ∃ toks, w ∈ toks ∧ toks ∈ tokenized_docs.
Proof.
  unfold vocab_words. by rewrite merge_sort_Permutation, elem_of_remove_dups, elem_of_concat.
Qed.

Lemma imap_words_fst (words : list string) :
  (imap (λ i w, (w, i)) words).*1 = words.
Proof.
  rewrite fmap_imap. rewrite <- (list_fmap_id words) at 2.
  rewrite <- imap_const. by apply imap_ext.
Qed.

(** The vocabulary numbers the words by their position. *)
Lemma vocab_of_lookup (words : list string) (w : string) (i : nat) :
  NoDup words → vocab_of words !! w = Some i ↔ words !! i = Some w.
Proof.
  intros Hnd. unfold vocab_of.
  rewrite <- elem_of_list_to_map by (by rewrite imap_words_fst).
  rewrite elem_of_lookup_imap. split.
  - by intros (j & y & [= -> ->] & Hj).
  - intros Hi. by exists i, w.
Qed.

Lemma vocab_of_size (words : list string) :
  NoDup words → size (vocab_of words) = length words.
Proof.
  intros Hnd. unfold vocab_of.
  rewrite map_size_list_to_map by (by rewrite imap_words_fst).
  apply length_imap.
Qed.

(** The number of occurrences of a word among tokens. *)
Definition occurrences (w : string) (toks : list string) : nat :=
  length (filter (λ t, t = w) toks).

(** The loop of [_to_vec] on a vocabulary that numbers its words apart and
    below the length of the vector: it does not raise, and adds to each
    entry the occurrences of its word. *)
Lemma to_vec_loop_counts (vocab : gmap string nat) (toks : list string)
    (vec : list R) :
  (∀ w i, vocab !! w = Some i → i < length vec) →
  (∀ w w' i, vocab !! w = Some i → vocab !! w' = Some i → w = w') →
  ∃ v, to_vec_loop vocab toks vec = Ok v ∧ length v = length vec ∧
       ∀ w i, vocab !! w = Some i →
         v !! i = (λ x, (x + INR (occurrences w toks))%R) <$> vec !! i.
Proof.
  intros Hlt Hinj. revert vec Hlt.
  induction toks as [|tok toks IH]; intros vec Hlt; simpl.
  - exists vec. split; [done|]. split; [done|]. intros w i _.
    destruct (vec !! i); simpl; [|done]. f_equal. unfold occurrences. simpl. lra.
  - destruct (vocab !! tok) as [idx|] eqn:Htok.
    + destruct (proj2 (lookup_lt_is_Some vec idx) (Hlt _ _ Htok)) as [x Hx].
      rewrite Hx.
      destruct (IH (<[idx := (x + 1)%R]> vec)) as (v & Hv & Hlen & Hcnt).
      { intros w i Hw. rewrite length_insert. by eapply Hlt. }
      exists v. split; [done|]. rewrite length_insert in Hlen. split; [done|].
      intros w i Hw. rewrite (Hcnt w i Hw). unfold occurrences.
      rewrite filter_cons.
      destruct (decide (i = idx)) as [->|Hne].
      * rewrite (Hinj _ _ _ Htok Hw), decide_True by done.
        rewrite list_lookup_insert_eq by (by eapply Hlt).
        cbn [length]. rewrite S_INR, Hx. simpl. f_equal. lra.
      * rewrite list_lookup_insert_ne by done.
        rewrite decide_False; [done|]. intros ->. congruence.
    + destruct (IH vec Hlt) as (v & Hv & Hlen & Hcnt).
      exists v. split; [done|]. split; [done|].
      intros w i Hw. rewrite (Hcnt w i Hw). unfold occurrences.
      rewrite filter_cons, decide_False; [done|]. intros ->. congruence.
Qed.

Lemma to_vec_loop_unknown (vocab : gmap string nat) (toks : list string)
    (vec : list R) :
  (∀ w, w ∈ toks → vocab !! w = None) → to_vec_loop vocab toks vec = Ok vec.
Proof.
  induction toks as [|tok toks IH]; intros Hno; simpl; [done|].
  rewrite (Hno tok) by apply list_elem_of_here.
  apply IH. intros w Hw. by apply Hno, list_elem_of_further.
Qed.

(** [_to_vec] for the vocabulary of a list of distinct words. *)
Lemma _to_vec_counts (words toks : list string) :
  NoDup words →
  ∃ v, _to_vec (vocab_of words) toks = Ok v ∧
       length v = size (vocab_of words) ∧
       ∀ w i, vocab_of words !! w = Some i →
         v !! i = Some (INR (occurrences w toks)).
Proof.
  intros Hnd. unfold _to_vec.
  destruct (to_vec_loop_counts (vocab_of words) toks
              (replicate (size (vocab_of words)) 0%R)) as (v & Hv & Hlen & Hcnt).
  - intros w i Hw. rewrite length_replicate, vocab_of_size by done.
    apply vocab_of_lookup in Hw; [|done]. by eapply lookup_lt_Some.
  - intros w w' i Hw Hw'. apply vocab_of_lookup in Hw, Hw'; [|done..]. congruence.
  - exists v. split; [done|]. rewrite length_replicate in Hlen. split; [done|].
    intros w i Hw. rewrite (Hcnt w i Hw).
    assert (i < size (vocab_of words)) as Hi.
    { rewrite vocab_of_size by done. apply vocab_of_lookup in Hw; [|done].
      by eapply lookup_lt_Some. }
    rewrite lookup_replicate_2 by done. simpl. f_equal. lra.
Qed.

(** A text as the keyword backend encodes it. *)
Definition encodes (e : KeywordEmbedder) (t : string) (v : list R) : Prop :=
  length v = size (vocab e) ∧
  (∀ w i, vocab e !! w = Some i →
     v !! i = Some (INR (occurrences w (_simple_tokenize t)))) ∧
  ((∀ w, w ∈ _simple_tokenize t → vocab e !! w = None) →
   v = replicate (size (vocab e)) 0%R).

Lemma encode_texts_counts (words : list string) (dv : list (list R))
    (texts : list string) :
  NoDup words →
  ∃ vs, KeywordEmbedder_encode_texts {| vocab := vocab_of words; doc_vecs := dv |} texts
        = Ok vs ∧
        Forall2 (encodes {| vocab := vocab_of words; doc_vecs := dv |}) texts vs.
Proof.
  intros Hnd. unfold KeywordEmbedder_encode_texts. cbn [vocab].
  induction texts as [|t texts (vs & Hvs & Hall)]; simpl.
  - exists []. split; [done|constructor].
  - destruct (_to_vec_counts words (_simple_tokenize t) Hnd) as (v & Hv & Hlen & Hcnt).
    rewrite Hv, Hvs. simpl. exists (v :: vs). split; [done|].
    constructor; [|done]. split; [done|]. split; [done|].
    cbn [vocab]. intros Hno. unfold _to_vec in Hv.
    rewrite (to_vec_loop_unknown _ _ _ Hno) in Hv. by injection Hv as <-.
Qed.

(** The keyword backend. Building it never raises; its vocabulary holds
    exactly the tokens of the corpus, numbered apart from 0 to its size;
    the document vectors it keeps are the encodings of the corpus.  Encoding
    never raises either: every text gets a vector of the size of the
    vocabulary, whose entry for a word is the number of times the word
    occurs among the tokens of the text, so that a text none of whose
    tokens is in the vocabulary gets the zero vector. *)
Theorem keyword_embedder_counts (corpus : list string) :
  ∃ e, KeywordEmbedder_init corpus = Ok e ∧
    (∀ w, is_Some (vocab e !! w) ↔ ∃ t, t ∈ corpus ∧ w ∈ _simple_tokenize t) ∧
    (∀ i, i < size (vocab e) ↔ ∃ w, vocab e !! w = Some i) ∧
    (∀ w w' i, vocab e !! w = Some i → vocab e !! w' = Some i → w = w') ∧
    KeywordEmbedder_encode_texts e corpus = Ok (doc_vecs e) ∧
    ∀ texts, ∃ vs, KeywordEmbedder_encode_texts e texts = Ok vs ∧
                   Forall2 (encodes e) texts vs.
Proof.
  unfold KeywordEmbedder_init.
  set (words := vocab_words (map _simple_tokenize corpus)).
  pose proof (vocab_words_NoDup (map _simple_tokenize corpus)) as Hnd. fold words in Hnd.
  destruct (encode_texts_counts words [] corpus Hnd) as (dv & Hdv & _).
  unfold KeywordEmbedder_encode_texts in Hdv. cbn [vocab] in Hdv.
  rewrite mapM_map, Hdv.
  simpl. eexists. split; [done|]. cbn [vocab doc_vecs].
  split; [|split; [|split; [|split]]].
  - intros w. split.
    + intros [i Hi]. apply vocab_of_lookup in Hi; [|done].
      apply list_elem_of_lookup_2, vocab_words_elem_of in Hi as (toks & Hw & Ht).
      apply list_elem_of_fmap in Ht as (t & -> & Ht). by exists t.
    + intros (t & Ht & Hw).
      assert (w ∈ words) as [i Hi]%list_elem_of_lookup.
      { apply vocab_words_elem_of. exists (_simple_tokenize t). split; [done|].
        apply list_elem_of_fmap. by exists t. }
      exists i. by apply vocab_of_lookup.
  - intros i. rewrite vocab_of_size by done. split.
    + intros [w Hw]%lookup_lt_is_Some. exists w. by apply vocab_of_lookup.
    + intros [w Hw]. apply vocab_of_lookup in Hw; [|done]. by eapply lookup_lt_Some.
  - intros w w' i Hw Hw'. apply vocab_of_lookup in Hw, Hw'; [|done..]. congruence.
  - exact Hdv.
  - intros texts. apply encode_texts_counts, Hnd.
Qed.

Lemma KeywordEmbedder_init_Ok (corpus : list string) :
  ∃ dv,
    let e := {| vocab := vocab_of (vocab_words (map _simple_tokenize corpus));
                doc_vecs := dv |} in
    KeywordEmbedder_init corpus = Ok e ∧ Forall2 (encodes e) corpus dv.
Proof.
  pose proof (vocab_words_NoDup (map _simple_tokenize corpus)) as Hnd.
  destruct (encode_texts_counts _ [] corpus Hnd) as (dv & Hdv & _).
  destruct (encode_texts_counts _ dv corpus Hnd) as (dv' & Hdv' & Hall).
  unfold KeywordEmbedder_encode_texts in Hdv, Hdv'. cbn [vocab] in Hdv, Hdv'.
  rewrite Hdv in Hdv'. injection Hdv' as <-.
  exists dv. cbv zeta. split; [|done].
  unfold KeywordEmbedder_init. by rewrite mapM_map, Hdv.
Qed.

Lemma norm_zeros (n : nat) : norm (replicate n 0%R) = 0%R.
Proof.
  unfold norm.
  assert (Rsum (map (λ x, (x * x)%R) (replicate n 0%R)) = 0%R) as ->.
  { induction n as [|n IH]; [done|].
    change (0 * 0 + Rsum (map (λ x, (x * x)%R) (replicate n 0%R)) = 0)%R.
    rewrite IH. lra. }
  apply sqrt_0.
Qed.

Lemma np_array_same_length (vecs : list (list R)) (n : nat) :
  Forall (λ v, length v = n) vecs → np_array vecs = Ok vecs.
Proof.
  destruct vecs as [|v vs]; [done|]. intros [Hv Hvs]%Forall_cons_1. simpl.
  assert (forallb (λ w, length w =? length v) vs = true) as ->; [|done].
  apply forallb_forall. intros w Hw%list_elem_of_In.
  rewrite Forall_forall in Hvs. rewrite (Hvs w Hw), Hv. apply Nat.eqb_refl.
Qed.

(** The keyword backend under [search]. The vectors of the corpus all have
    one length, so that the cast to an array does not raise; the vector of
    any query has that length too, so that its scores against the corpus
    are computed, one per text; and a query none of whose tokens occurs in
    the corpus scores 0 against every text. *)
Theorem keyword_backend_scores (corpus : list string) :
  ∃ e, KeywordEmbedder_init corpus = Ok e ∧
    length (doc_vecs e) = length corpus ∧
    np_array (doc_vecs e) = Ok (doc_vecs e) ∧
    ∀ query, ∃ q_vec scores,
      KeywordEmbedder_encode_query e query = Ok q_vec ∧
      cosine_scores (doc_vecs e) q_vec = Ok scores ∧
      length scores = length corpus ∧
      ((∀ w, w ∈ _simple_tokenize query → vocab e !! w = None) →
       Forall (λ s, s = 0%R) scores).
Proof.
  destruct (KeywordEmbedder_init_Ok corpus) as (dv & Hinit & Hall).
  set (e := {| vocab := vocab_of (vocab_words (map _simple_tokenize corpus));
               doc_vecs := dv |}) in *.
  pose proof (vocab_words_NoDup (map _simple_tokenize corpus)) as Hnd.
  assert (Forall (λ v, length v = size (vocab e)) dv) as Hlen.
  { apply Forall_forall. intros v [i Hv]%list_elem_of_lookup.
    destruct (Forall2_lookup_r _ _ _ _ _ Hall Hv) as (t & _ & Hl & _). exact Hl. }
  exists e. split; [done|]. cbn [doc_vecs].
  split; [symmetry; by eapply Forall2_length|].
  split; [by eapply np_array_same_length|].
  intros query.
  destruct (encode_texts_counts _ dv [query] Hnd) as (vs & Hvs & Hq). fold e in Hvs, Hq.
  apply Forall2_cons_inv_l in Hq as (q_vec & vs' & (Hql & _ & Hzero) & Hnil & ->).
  apply Forall2_nil_inv_l in Hnil as ->.
  destruct (cosine_scores_total dv q_vec) as [scores Hs].
  { eapply Forall_impl; [exact Hlen|]. intros v Hv. by rewrite Hv, Hql. }
  exists q_vec, scores. split.
  { unfold KeywordEmbedder_encode_query. by rewrite Hvs. }
  split; [done|]. split.
  { rewrite (cosine_scores_length _ _ _ Hs). symmetry. by eapply Forall2_length. }
  intros Hno. rewrite (Hzero Hno) in Hs.
  rewrite (cosine_scores_zero_query _ _ (norm_zeros _)) in Hs. injection Hs as <-.
  apply Forall_forall. by intros s (v & -> & _)%list_elem_of_fmap.
Qed.

(** ** Facts on the scatter data *)

Lemma foldl_min (x : R) (l : list R) :
  let m := foldl (λ m y, if Rlt_dec y m then y else m) x l in
  (m <= x)%R ∧ (∀ y, y ∈ l → (m <= y)%R) ∧ (m = x ∨ m ∈ l).
Proof.
  revert x. induction l as [|z l IH]; intros x; simpl.
  - split; [lra|]. split; [by intros y ?%elem_of_nil|by left].
  - destruct (IH (if Rlt_dec z x then z else x)) as (H1 & H2 & H3).
    set (m := foldl _ _ l) in *.
    destruct (Rlt_dec z x) as [Hlt|Hge].
    + split; [lra|]. split.
      * intros y [->|Hy]%elem_of_cons; [done|by apply H2].
      * right. destruct H3 as [-> | H3]; [apply list_elem_of_here|].
        by apply list_elem_of_further.
    + split; [done|]. split.
      * intros y [->|Hy]%elem_of_cons; [lra|by apply H2].
      * destruct H3 as [H3|H3]; [by left|right; by apply list_elem_of_further].
Qed.

Lemma foldl_max (x : R) (l : list R) :
  let m := foldl (λ m y, if Rlt_dec m y then y else m) x l in
  (x <= m)%R ∧ (∀ y, y ∈ l → (y <= m)%R) ∧ (m = x ∨ m ∈ l).
Proof.
  revert x. induction l as [|z l IH]; intros x; simpl.
  - split; [lra|]. split; [by intros y ?%elem_of_nil|by left].
  - destruct (IH (if Rlt_dec x z then z else x)) as (H1 & H2 & H3).
    set (m := foldl _ _ l) in *.
    destruct (Rlt_dec x z) as [Hlt|Hge].
    + split; [lra|]. split.
      * intros y [->|Hy]%elem_of_cons; [done|by apply H2].
      * right. destruct H3 as [-> | H3]; [apply list_elem_of_here|].
        by apply list_elem_of_further.
    + split; [done|]. split.
      * intros y [->|Hy]%elem_of_cons; [lra|by apply H2].
      * destruct H3 as [H3|H3]; [by left|right; by apply list_elem_of_further].
Qed.

Lemma py_min_Some (l : list R) (m : R) :
  py_min l = Some m → m ∈ l ∧ ∀ y, y ∈ l → (m <= y)%R.
Proof.
  destruct l as [|x l]; [done|]. simpl. intros [= <-].
  destruct (foldl_min x l) as (H1 & H2 & H3). split.
  - destruct H3 as [-> | H3]; [apply list_elem_of_here|by apply list_elem_of_further].
  - intros y [->|Hy]%elem_of_cons; [done|by apply H2].
Qed.

Lemma py_max_Some (l : list R) (m : R) :
  py_max l = Some m → m ∈ l ∧ ∀ y, y ∈ l → (y <= m)%R.
Proof.
  destruct l as [|x l]; [done|]. simpl. intros [= <-].
  destruct (foldl_max x l) as (H1 & H2 & H3). split.
  - destruct H3 as [-> | H3]; [apply list_elem_of_here|by apply list_elem_of_further].
  - intros y [->|Hy]%elem_of_cons; [done|by apply H2].
Qed.

(** After the test with [math.isclose] the two ends are apart. *)
Lemma isclose_apart (lo hi : R) :
  (lo <= hi)%R →
  let '(lo', hi') := if isclose lo hi then (lo - 0.001, hi + 0.001)%R else (lo, hi) in
  (lo' < hi')%R ∧ (lo' <= lo)%R ∧ (hi <= hi')%R.
Proof.
  intros Hle. destruct (isclose lo hi) eqn:Hc; [lra|].
  split; [|lra]. unfold isclose, Rleb in Hc.
  destruct (Rle_dec _ _) as [|Hn]; [done|].
  destruct Hle as [Hlt| ->]; [done|]. destruct Hn.
  replace (hi - hi)%R with 0%R by lra. rewrite Rabs_R0. apply Rmax_r.
Qed.

Lemma _bounds_from_points_Some (points : list (R * R)) (padding_ratio : R)
    (a b c d : R) :
  (0 < padding_ratio)%R →
  _bounds_from_points points padding_ratio = Some (a, b, c, d) →
  (a < b)%R ∧ (c < d)%R ∧
  ∀ p, p ∈ points → (a < p.1 < b)%R ∧ (c < p.2 < d)%R.
Proof.
  intros Hp. unfold _bounds_from_points.
  destruct (py_min (map fst points)) as [min_lat|] eqn:H1; [|done].
  destruct (py_max (map fst points)) as [max_lat|] eqn:H2; [|done].
  destruct (py_min (map snd points)) as [min_lon|] eqn:H3; [|done].
  destruct (py_max (map snd points)) as [max_lon|] eqn:H4; [|done].
  simpl.
  apply py_min_Some in H1 as [Hin1 H1], H3 as [Hin3 H3].
  apply py_max_Some in H2 as [_ H2], H4 as [_ H4].
  pose proof (isclose_apart min_lat max_lat (H2 _ Hin1)) as Hlat.
  pose proof (isclose_apart min_lon max_lon (H4 _ Hin3)) as Hlon.
  destruct (if isclose min_lat max_lat then _ else _) as [la0 la1].
  destruct (if isclose min_lon max_lon then _ else _) as [lo0 lo1].
  destruct Hlat as (? & ? & ?), Hlon as (? & ? & ?).
  intros [= <- <- <- <-].
  assert (0 < (la1 - la0) * padding_ratio)%R by (apply Rmult_lt_0_compat; lra).
  assert (0 < (lo1 - lo0) * padding_ratio)%R by (apply Rmult_lt_0_compat; lra).
  split; [lra|]. split; [lra|].
  intros p Hin.
  assert (p.1 ∈ map fst points) as Hp1 by (apply list_elem_of_fmap; by exists p).
  assert (p.2 ∈ map snd points) as Hp2 by (apply list_elem_of_fmap; by exists p).
  pose proof (H1 _ Hp1). pose proof (H2 _ Hp1).
  pose proof (H3 _ Hp2). pose proof (H4 _ Hp2). lra.
Qed.

Lemma _bounds_from_points_total (points : list (R * R)) (padding_ratio : R) :
  points ≠ [] → ∃ bd, _bounds_from_points points padding_ratio = Some bd.
Proof.
  destruct points as [|p points]; [done|]. intros _.
  unfold _bounds_from_points. simpl.
  destruct (if isclose _ _ then _ else _) as [la0 la1].
  destruct (if isclose _ _ then _ else _) as [lo0 lo1]. by eexists.
Qed.

Lemma to_xy_inside (a b c d lat lon : R) :
  (a < b)%R → (c < d)%R →
  to_xy (a, b, c, d) lat lon = Some ((lon - c) / (d - c), (lat - a) / (b - a))%R.
Proof.
  intros Hab Hcd. unfold to_xy, py_div.
  destruct (Req_dec_T (d - c) 0); [lra|]. simpl.
  destruct (Req_dec_T (b - a) 0); [lra|]. done.
Qed.

Lemma ratio_in_unit (lo hi x : R) :
  (lo < x < hi)%R → (0 < (x - lo) / (hi - lo) < 1)%R.
Proof.
  intros [H1 H2].
  assert (0 < / (hi - lo))%R as Hinv by (apply Rinv_0_lt_compat; lra).
  split.
  - apply Rmult_lt_0_compat; lra.
  - apply Rmult_lt_reg_r with (hi - lo)%R; [lra|].
    unfold Rdiv. rewrite Rmult_assoc, Rinv_l; lra.
Qed.

Definition title_or_default (r : gmap string scalar) : scalar :=
  if truthy (row_get r "TITLE") then row_get r "TITLE" else VStr "(제목 없음)".

Lemma scatter_loop_inside (a b c d : R) (recs : list (gmap string scalar))
    (pts : list (R * R)) :
  (a < b)%R → (c < d)%R →
  rec_points recs = Some pts →
  scatter_loop (a, b, c, d) recs =
  Some (map (λ p, ((p.2 - c) / (d - c))%R) pts,
        map (λ p, ((p.1 - a) / (b - a))%R) pts,
        map title_or_default recs).
Proof.
  intros Hab Hcd. revert pts. induction recs as [|r recs IH]; intros pts.
  - by intros [= <-].
  - cbn [rec_points scatter_loop].
    destruct (rec_point r) as [p|]; [|done]. cbn [mbind option_bind].
    destruct (rec_points recs) as [ps|]; [|done]. cbn [mbind option_bind].
    intros [= <-]. rewrite (to_xy_inside _ _ _ _ _ _ Hab Hcd).
    cbn [mbind option_bind]. by rewrite (IH ps eq_refl).
Qed.

Lemma rec_points_Some (recs : list (gmap string scalar)) :
  Forall (λ r, is_Some (rec_point r)) recs ↔ is_Some (rec_points recs).
Proof.
  induction recs as [|r recs IH]; simpl.
  - split; [by eexists|constructor].
  - split.
    + intros [[p ->] [ps Hps]%IH]%Forall_cons_1. rewrite Hps. by eexists.
    + destruct (rec_point r) as [p|] eqn:Hp; [|by intros [? ?]]. simpl.
      destruct (rec_points recs) as [ps|] eqn:Hps; [|by intros [? ?]]. intros _.
      constructor; [rewrite Hp; by eexists|]. apply IH. by eexists.
Qed.

Lemma rec_points_lookup (recs : list (gmap string scalar)) (pts : list (R * R)) :
  rec_points recs = Some pts →
  length pts = length recs ∧
  ∀ i r, recs !! i = Some r → ∃ p, rec_point r = Some p ∧ pts !! i = Some p.
Proof.
  revert pts. induction recs as [|r recs IH]; intros pts; simpl.
  - intros [= <-]. split; [done|]. by intros i r ?.
  - destruct (rec_point r) as [p|] eqn:Hp; [|done]. simpl.
    destruct (rec_points recs) as [ps|]; [|done]. simpl. intros [= <-].
    destruct (IH ps eq_refl) as [Hl Hi]. split; [simpl; by rewrite Hl|].
    intros [|i] r'; simpl; [intros [= <-]; by exists p|]. apply Hi.
Qed.

Lemma Rlt_le_between (x : R) : (0 < x < 1)%R → (0 <= x <= 1)%R.
Proof. lra. Qed.

(** A point on the globe: a latitude in [-90, 90] and a longitude in
    [-180, 180]. *)
Definition on_globe (p : R * R) : Prop :=
  (-90 <= p.1 <= 90)%R ∧ (-180 <= p.2 <= 180)%R.

(** The scatter data, for recommendations and a center on the globe.
    [normalize_points_for_scatter] returns exactly when every
    recommendation carries [LA] and [LO] as numbers: the bounds it computes
    are never a point, so no division by zero occurs.  What it returns has
    one [x], [y] and title per recommendation; [x] is the longitude and
    [y] the latitude, scaled by the bounds; and every [x] and [y], and the
    center, lie between 0 and 1. *)
Theorem scatter_in_unit_square (recs : list (gmap string scalar)) (center : R * R) :
  Forall (λ r, ∀ p, rec_point r = Some p → on_globe p) recs → on_globe center →
  ((∃ sc, normalize_points_for_scatter recs center = Some sc) ↔
   Forall (λ r, is_Some (rec_point r)) recs) ∧
  ∀ sc, normalize_points_for_scatter recs center = Some sc →
    length (xs sc) = length recs ∧ length (ys sc) = length recs ∧
    titles sc = map title_or_default recs ∧
    (recs ≠ [] →
     ∃ a b c d, bounds sc = Some (a, b, c, d) ∧ (a < b)%R ∧ (c < d)%R ∧
       (∀ i r, recs !! i = Some r →
          ∃ la lo, rec_point r = Some (la, lo) ∧
                   xs sc !! i = Some ((lo - c) / (d - c))%R ∧
                   ys sc !! i = Some ((la - a) / (b - a))%R) ∧
       Forall (λ x, (0 <= x <= 1)%R) (xs sc) ∧
       Forall (λ y, (0 <= y <= 1)%R) (ys sc) ∧
       (0 <= center_x sc <= 1)%R ∧ (0 <= center_y sc <= 1)%R).
Proof.
  intros _ _.
  destruct recs as [|r0 recs0]; [simpl|].
  { split; [split; [constructor|by eexists]|]. by intros sc [= <-]. }
  set (recs := r0 :: recs0).
  assert (∀ pts, rec_points recs = Some pts →
            ∃ a b c d,
              _bounds_from_points (pts ++ [center]) 0.15 = Some (a, b, c, d) ∧
              (a < b)%R ∧ (c < d)%R ∧
              (∀ p, p ∈ pts ++ [center] → (a < p.1 < b)%R ∧ (c < p.2 < d)%R) ∧
              normalize_points_for_scatter recs center =
              Some {| xs := map (λ p, ((p.2 - c) / (d - c))%R) pts;
                      ys := map (λ p, ((p.1 - a) / (b - a))%R) pts;
                      titles := map title_or_default recs;
                      center_x := ((center.2 - c) / (d - c))%R;
                      center_y := ((center.1 - a) / (b - a))%R;
                      bounds := Some (a, b, c, d) |}) as Hrun.
  { intros pts Hpts.
    destruct (_bounds_from_points_total (pts ++ [center]) 0.15)
      as [[[[a b] c] d] Hb]; [by destruct pts|].
    assert (0 < 0.15)%R as Hpad by lra.
    destruct (_bounds_from_points_Some _ _ _ _ _ _ Hpad Hb) as (Hab & Hcd & Hin).
    exists a, b, c, d. split; [done|]. split; [done|]. split; [done|]. split; [done|].
    unfold normalize_points_for_scatter, recs. fold recs.
    rewrite Hpts. cbn [mbind option_bind]. rewrite Hb. cbn [mbind option_bind].
    rewrite (scatter_loop_inside _ _ _ _ _ _ Hab Hcd Hpts). cbn [mbind option_bind].
    by rewrite (to_xy_inside _ _ _ _ _ _ Hab Hcd). }
  split.
  - rewrite rec_points_Some. split.
    + intros [sc H]. unfold normalize_points_for_scatter, recs in H. fold recs in H.
      destruct (rec_points recs) as [pts|]; [by eexists|done].
    + intros [pts Hpts]. destruct (Hrun pts Hpts) as (a & b & c & d & _ & _ & _ & _ & ->).
      by eexists.
  - intros sc H.
    assert (∃ pts, rec_points recs = Some pts) as [pts Hpts].
    { unfold normalize_points_for_scatter, recs in H. fold recs in H.
      destruct (rec_points recs) as [pts|]; [by eexists|done]. }
    destruct (Hrun pts Hpts) as (a & b & c & d & _ & Hab & Hcd & Hin & Hsc).
    rewrite Hsc in H. injection H as <-. cbn [xs ys titles center_x center_y bounds].
    destruct (rec_points_lookup _ _ Hpts) as [Hlen Hlook].
    rewrite !length_map. split; [done|]. split; [done|]. split; [done|].
    intros _. exists a, b, c, d. split; [done|]. split; [done|]. split; [done|].
    split; [|split; [|split; [|split]]].
    + intros i r Hr. destruct (Hlook i r Hr) as ([la lo] & Hp & Hi).
      exists la, lo. split; [done|]. rewrite !list_lookup_fmap, Hi. done.
    + apply Forall_forall. intros x (p & -> & Hp)%list_elem_of_fmap.
      apply Rlt_le_between, ratio_in_unit, Hin. apply elem_of_app. by left.
    + apply Forall_forall. intros y (p & -> & Hp)%list_elem_of_fmap.
      apply Rlt_le_between, ratio_in_unit, Hin. apply elem_of_app. by left.
    + apply Rlt_le_between, ratio_in_unit, (Hin center).
      apply elem_of_app. right. apply list_elem_of_here.
    + apply Rlt_le_between, ratio_in_unit, (Hin center).
      apply elem_of_app. right. apply list_elem_of_here.
Qed.
End program.

(** ** Concrete runs *)

(** Instances of the library code, each an admissible behaviour of what it
    stands for. *)

(** Decimal integer literals, a part of the grammar of [int()]. *)
Definition decimal_int (s : string) : option Z :=
  match NilEmpty.int_of_string s with
  | Some (Decimal.Pos Decimal.Nil) | Some (Decimal.Neg Decimal.Nil) => None
  | Some d => Some (Z.of_int d)
  | None => None
  end.

(** The same literals read by [float()]. *)
Definition decimal_float (s : string) : option R := IZR <$> decimal_int s.

Definition repr_plain (x : R) : string := "<float>".

(** No chat endpoint is configured. *)
Definition settings_unset : Settings :=
  {| KAKAO_API_KEY := ENV_MISSING; AOAI_ENDPOINT := ENV_MISSING;
     AOAI_API_KEY := ENV_MISSING; AOAI_DEPLOYMENT := ENV_MISSING |}.

Definition chat_down (_ : Settings) (_ : pyval) (_ : list (gmap string scalar))
  : option string := None.

Definition render_plain (_ : string) (_ _ : pyval) : string := "<map>".

(** A backend that gives every text the same vector. *)
Definition embedder_const : Embedder :=
  {| embedder_name := "keyword"; encode_query := λ _, [1%R] |}.

Definition get_embedder_const (corpus : list string) : Embedder * list (list R) :=
  (embedder_const, map (λ _, [1%R]) corpus).

(** A stable sort of the indices by value: equal values stay in the order
    of the indices. *)
Definition argsort_stable (xs : list R) : list nat :=
  sort_by (λ i, nth i xs 0%R) (seq 0 (length xs)).

Lemma argsort_stable_spec : argsort_spec argsort_stable.
Proof.
  intros xs. split; [apply sort_by_perm|].
  apply (sort_by_sorted (λ i, nth i xs 0%R)).
Qed.

(** [numpy.argsort] with its default [kind="quicksort"], as the portable
    code of numpy does it ([aquicksort] of [npysort/quicksort.cpp]): the
    array [a] of indices is sorted in place by the values the indices point
    at; a range of more than 17 indices is partitioned around the median of
    its first, middle and last entries, a shorter one is sorted by
    insertion.  [less i j] is [v[i] < v[j]].  The depth limit that hands
    over to heapsort is left out: it is not reached on the ranges below. *)
Section aquicksort.
Variable less : nat → nat → bool.

Definition INTP_SWAP (a : list nat) (p q : nat) : list nat :=
  <[p := nth q a 0]> (<[q := nth p a 0]> a).

(** [do { ++pi; } while (less(v[*pi], vp))], with [vp] the pivot. *)
Fixpoint scan_up (fuel : nat) (a : list nat) (vp pi : nat) : nat :=
  match fuel with
  | 0 => S pi
  | S fuel' => if less (nth (S pi) a 0) vp then scan_up fuel' a vp (S pi) else S pi
  end.

(** [do { --pj; } while (less(vp, v[*pj]))]. *)
Fixpoint scan_down (fuel : nat) (a : list nat) (vp pj : nat) : nat :=
  match fuel with
  | 0 => pj - 1
  | S fuel' =>
      if less vp (nth (pj - 1) a 0) then scan_down fuel' a vp (pj - 1) else pj - 1
  end.

Fixpoint partition_loop (fuel : nat) (a : list nat) (vp pi pj : nat)
  : list nat * nat :=
  match fuel with
  | 0 => (a, pi)
  | S fuel' =>
      let pi := scan_up (length a) a vp pi in
      let pj := scan_down (length a) a vp pj in
      if pj <=? pi then (a, pi)
      else partition_loop fuel' (INTP_SWAP a pi pj) vp pi pj
  end.

(** The inner loop of the insertion sort: entries larger than [vi] move
    up by one place. *)
Fixpoint shift_up (fuel : nat) (a : list nat) (pl pj vi : nat) : list nat :=
  match fuel with
  | 0 => <[pj := vi]> a
  | S fuel' =>
      if (pl <? pj) && less vi (nth (pj - 1) a 0)
      then shift_up fuel' (<[pj := nth (pj - 1) a 0]> a) pl (pj - 1) vi
      else <[pj := vi]> a
  end.

Fixpoint insertion_loop (n : nat) (a : list nat) (pl pi : nat) : list nat :=
  match n with
  | 0 => a
  | S n' => insertion_loop n' (shift_up (length a) a pl pi (nth pi a 0)) pl (S pi)
  end.

Fixpoint quick_loop (fuel : nat) (a : list nat) (pl pr : nat) : list nat :=
  match fuel with
  | 0 => a
  | S fuel' =>
      if 16 <? pr - pl then
        let pm := pl + (pr - pl) / 2 in
        let a := if less (nth pm a 0) (nth pl a 0) then INTP_SWAP a pm pl else a in
        let a := if less (nth pr a 0) (nth pm a 0) then INTP_SWAP a pr pm else a in
        let a := if less (nth pm a 0) (nth pl a 0) then INTP_SWAP a pm pl else a in
        let vp := nth pm a 0 in
        let a := INTP_SWAP a pm (pr - 1) in
        let '(a, pi) := partition_loop (length a) a vp pl (pr - 1) in
        let a := INTP_SWAP a pi (pr - 1) in
        quick_loop fuel' (quick_loop fuel' a pl (pi - 1)) (pi + 1) pr
      else insertion_loop (pr - pl) a pl (S pl)
  end.

Definition aquicksort (num : nat) : list nat :=
  quick_loop num (seq 0 num) 0 (num - 1).

End aquicksort.

Definition argsort_quick (xs : list R) : list nat :=
  aquicksort (λ i j, Rltb (nth i xs 0%R) (nth j xs 0%R)) (length xs).

(** On equal values no comparison succeeds. *)
Lemma argsort_quick_equal (xs : list R) (x : R) :
  Forall (λ y, y = x) xs → x = 0%R →
  argsort_quick xs = aquicksort (λ _ _, false) (length xs).
Proof.
  intros Hall ->. unfold argsort_quick. f_equal.
  assert (∀ i, nth i xs 0%R = 0%R) as Hnth.
  { intros i. revert i. induction Hall as [|y l -> _ IH]; intros [|i]; simpl; auto. }
  apply functional_extensionality. intros i.
  apply functional_extensionality. intros j.
  rewrite !Hnth. unfold Rltb. destruct (Rlt_dec 0 0); [lra|done].
Qed.

(** A request that names the preset origin "강남". *)
Definition state_gangnam : gmap string pyval :=
  {[ "origin_mode" := PScalar (VStr "manual");
     "origin_label" := PScalar (VStr "강남") ]}.

(** C3, where the code departs from the claim. The resolver accepts a
    negative radius and passes it on, replaces a radius that is not a
    number by [None] instead of failing, and resolves an absent radius to
    [3.0], not to [None]. *)
Lemma resolver_accepts_any_radius :
  (∃ out,
     origin_resolver_node decimal_float decimal_int
       (<["radius_km" := PScalar (VFloat (-1))]> state_gangnam) = Ok out ∧
     out !! "radius_km" = Some (PScalar (VFloat (-1)))) ∧
  (∃ out,
     origin_resolver_node decimal_float decimal_int
       (<["radius_km" := PScalar (VStr "abc")]> state_gangnam) = Ok out ∧
     out !! "radius_km" = Some (PScalar VNone)) ∧
  (∃ out,
     origin_resolver_node decimal_float decimal_int state_gangnam = Ok out ∧
     out !! "radius_km" = Some (PScalar (VFloat 3))).
Proof. split_and!; (eexists; split; [reflexivity|reflexivity]). Qed.

(** The amended C3 on a request whose radius is not a number. *)
Lemma resolver_radius_lenient_witness :
  ∃ out,
    origin_resolver_node decimal_float decimal_int
      (<["radius_km" := PScalar (VStr "abc")]> state_gangnam) = Ok out ∧
    out !! "radius_km" = Some (PScalar VNone).
Proof.
  eexists. split; [reflexivity|].
  exact (proj1 (proj2 (resolver_radius_lenient decimal_float decimal_int
    (<["radius_km" := PScalar (VStr "abc")]> state_gangnam))) _ eq_refl).
Defined.

(** C7 on a request whose [topn] is not a number, and on one whose [topn]
    is the text of a number below the range the gate allows. *)
Lemma resolver_topn_lenient_witness :
  (∃ out,
     origin_resolver_node decimal_float decimal_int
       (<["topn" := PScalar (VStr "many")]> state_gangnam) = Ok out ∧
     out !! "topn" = Some (PScalar (VInt 5))) ∧
  (∃ out,
     origin_resolver_node decimal_float decimal_int
       (<["topn" := PScalar (VStr "-2")]> state_gangnam) = Ok out ∧
     out !! "topn" = Some (PScalar (VInt (-2)))).
Proof.
  split; (eexists; split; [reflexivity|]).
  - exact (proj2 (resolver_topn_lenient decimal_float decimal_int
      (<["topn" := PScalar (VStr "many")]> state_gangnam)) _ eq_refl).
  - exact (proj2 (resolver_topn_lenient decimal_float decimal_int
      (<["topn" := PScalar (VStr "-2")]> state_gangnam)) _ eq_refl).
Defined.

(** The two rows of the self-test of [graph.py], and a row without
    usable coordinates. *)
Definition dummy_rows : list (gmap string scalar) :=
  [ {[ "TITLE" := VStr "남산타워"; "ADDR" := VStr "용산구";
       "LA" := VFloat 37.5512; "LO" := VFloat 126.9882;
       "OPERATING_TIME" := VStr "10~22"; "URL" := VStr "https://n" ]};
    {[ "TITLE" := VStr "서울로7017"; "ADDR" := VStr "중구";
       "LA" := VFloat 37.5563; "LO" := VFloat 126.9723;
       "OPERATING_TIME" := VStr "상시"; "URL" := VStr "https://s" ]} ].

Definition row_at_zero : gmap string scalar :=
  {[ "TITLE" := VStr "좌표 없음"; "LA" := VFloat 0; "LO" := VFloat 126.9882 ]}.




(** C4 on a catalog whose first row has latitude [0.0]. *)
Lemma nearest_skips_absent_coords_witness :
  nearest decimal_float ([] ++ row_at_zero :: dummy_rows) 37.5512 126.9882 5
    (PScalar VNone) =
  nearest decimal_float ([] ++ dummy_rows) 37.5512 126.9882 5 (PScalar VNone).
Proof.
  apply (proj1 (nearest_skips_absent_coords decimal_float [] dummy_rows
                  row_at_zero 37.5512 126.9882 5 (PScalar VNone))).
  left. right. right. reflexivity.
Defined.

(** A request from "강남" over an empty catalog, with a question. *)
Definition request_gangnam : gmap string pyval :=
  {[ "rows" := PRows [];
     "origin_mode" := PScalar (VStr "manual");
     "origin_label" := PScalar (VStr "강남");
     "question" := PScalar (VStr "야경 추천") ]}.

(** C5 along one run: the request through the four stages in turn. *)
Lemma stages_keep_upstream_keys_witness :
  ∃ s1 s2 s3 s4,
    (origin_resolver_node decimal_float decimal_int request_gangnam = Ok s1 ∧
     keeps_keys request_gangnam s1 RESOLVER_KEYS) ∧
    (agent_c decimal_float decimal_int s1 = Ok s2 ∧
     keeps_keys s1 s2 ["recommendations"; "center"]) ∧
    (agent_e decimal_float render_plain s2 = Ok s3 ∧
     keeps_keys s2 s3 ["map_html"]) ∧
    (agent_d repr_plain settings_unset chat_down s3 = (Ok s4, []) ∧
     keeps_keys s3 s4 ["answer"; "sources"]).
Proof.
  pose proof (stages_keep_upstream_keys decimal_float decimal_int repr_plain
                settings_unset chat_down render_plain) as keeps.
  eexists _, _, _, _.
  split; [split; [reflexivity|]|].
  { apply (proj1 (keeps _ _)). reflexivity. }
  split; [split; [reflexivity|]|].
  { apply (proj1 (proj2 (keeps _ _))). reflexivity. }
  split; [split; [reflexivity|]|].
  { apply (proj1 (proj2 (proj2 (keeps _ _)))). reflexivity. }
  split; [reflexivity|].
  apply (proj2 (proj2 (proj2 (keeps _ _))) []). reflexivity.
Defined.

(** A configured chat endpoint that answers. *)
Definition settings_set : Settings :=
  {| KAKAO_API_KEY := ENV_MISSING; AOAI_ENDPOINT := "https://aoai.example";
     AOAI_API_KEY := "key"; AOAI_DEPLOYMENT := "gpt" |}.

Definition chat_up (_ : Settings) (_ : pyval) (_ : list (gmap string scalar))
  : option string := Some "남산타워를 추천합니다.".

Definition state_recommended : gmap string pyval :=
  {[ "question" := PScalar (VStr "야경 추천");
     "recommendations" := PRows dummy_rows ]}.

(** C8 on a context without recommendations, and on one with two of them
    while the chat endpoint answers: the two sources are the titles and the
    addresses of the two rows. *)
Lemma agent_d_answer_and_sources_witness :
  agent_d repr_plain settings_set chat_up request_gangnam =
    (Ok (<["sources" := PRows []]>
         (<["answer" := PScalar (VStr NO_RESULTS_ANSWER)]> request_gangnam)), []) ∧
  ∃ out evs s1 s2,
    agent_d repr_plain settings_set chat_up state_recommended = (Ok out, evs) ∧
    out !! "sources" = Some (PRows [s1; s2]) ∧
    s1 !! "TITLE" = Some (VStr "남산타워") ∧ s1 !! "URL" = Some (VStr "https://n") ∧
    s2 !! "TITLE" = Some (VStr "서울로7017") ∧ s2 !! "URL" = Some (VStr "https://s") ∧
    s1 !! "ADDR" = None ∧ s2 !! "ADDR" = None.
Proof.
  split.
  - apply (proj1 (agent_d_answer_and_sources repr_plain settings_set chat_up
                    request_gangnam)).
    reflexivity.
  - destruct (proj1 (proj2 (agent_d_answer_and_sources repr_plain settings_set
                              chat_up state_recommended)) dummy_rows eq_refl)
      as (out & evs & srcs & Hrun & Hsrc & Hall).
    apply Forall2_cons_inv_l in Hall as (s1 & srcs1 & (Ht1 & Hu1 & Hn1) & Hall & ->).
    apply Forall2_cons_inv_l in Hall as (s2 & srcs2 & (Ht2 & Hu2 & Hn2) & Hall & ->).
    apply Forall2_nil_inv_l in Hall as ->.
    exists out, evs, s1, s2.
    split; [exact Hrun|]. split; [exact Hsrc|].
    split; [exact Ht1|]. split; [exact Hu1|].
    split; [exact Ht2|]. split; [exact Hu2|].
    split; [by apply Hn1|by apply Hn2].
Defined.

(** The state [run_o_to_d] builds for a run from "강남" over an empty
    catalog, and the gate on it. *)
Definition run_state_gangnam : gmap string pyval :=
  o_to_d_state [] "manual" 37.4979 127.0276 "강남" "야경 추천" 2 (Some 3%R) None.

Lemma gate_passes_gangnam :
  ensure_origin_valid decimal_float decimal_int run_state_gangnam = Ok tt.
Proof.
  unfold ensure_origin_valid.
  change (state_get run_state_gangnam "origin_mode") with (PScalar (VStr "manual")).
  change (state_get run_state_gangnam "origin_lat") with (PScalar (VFloat 37.4979)).
  change (state_get run_state_gangnam "origin_lon") with (PScalar (VFloat 127.0276)).
  change (state_get run_state_gangnam "radius_km") with (PScalar (VFloat 3)).
  change (state_get_default run_state_gangnam "topn" (PScalar (VInt 5)))
    with (PScalar (VInt 2)).
  simpl. unfold Rleb, Rltb.
  repeat (destruct (Rle_dec _ _); [|lra]). simpl.
  destruct (Rlt_dec 3 0); [lra|]. reflexivity.
Qed.

(** C2: the gate on a mode that is neither [device] nor [manual], a run
    with a negative radius, and a run that reaches the recommender. *)
Lemma gate_rejects_and_aborts_witness :
  (∃ e, ensure_origin_valid decimal_float decimal_int
          {[ "origin_mode" := PScalar (VStr "walk") ]} = Raise e) ∧
  (∃ e, run_o_to_d decimal_float decimal_int repr_plain settings_unset chat_down
          render_plain dummy_rows "device" 37.5512 126.9882 "내 위치" "" 5
          (Some (-1)%R) None = (Raise e, [])) ∧
  ensure_origin_valid decimal_float decimal_int run_state_gangnam = Ok tt.
Proof.
  pose proof (gate_rejects_and_aborts decimal_float decimal_int repr_plain
                settings_unset chat_down render_plain) as (Hgate & Hrun & Hrank).
  split_and!.
  - apply Hgate. left. intros mode Hmode.
    change (Ok "walk" = Ok mode) in Hmode. injection Hmode as <-.
    split; discriminate.
  - apply Hrun. right. right. right. exists (-1)%R. split; [reflexivity|lra].
  - assert (∃ r, run_o_to_d decimal_float decimal_int repr_plain settings_unset
                   chat_down render_plain [] "manual" 37.4979 127.0276 "강남"
                   "야경 추천" 2 (Some 3%R) None =
                 (r, [EvNode "AgentO_OriginResolver"; EvNode "AgentC_Recommender";
                      EvNode "AgentE_Map"; EvNode "AgentD_Answer"]))
      as [r Hr].
    { unfold run_o_to_d. fold run_state_gangnam. rewrite gate_passes_gangnam.
      eexists. reflexivity. }
    apply (Hrank _ _ _ _ _ _ _ _ _ _ _ Hr).
    apply list_elem_of_further, list_elem_of_here.
Defined.

(** An index of two documents that have the same vector. *)
Definition doc_namsan : Document :=
  {| doc_id := 0; doc_title := "남산타워"; doc_url := "https://n";
     doc_text := "남산타워 | 서울의 대표 야경 | 용산구 | https://n";
     doc_meta := {[ "addr" := VStr "용산구"; "operating" := VNone; "fee" := VNone ]} |}.

Definition doc_seoullo : Document :=
  {| doc_id := 1; doc_title := "서울로7017"; doc_url := "https://s";
     doc_text := "서울로7017 | 고가 보행로의 도시 야경 | 중구 | https://s";
     doc_meta := {[ "addr" := VStr "중구"; "operating" := VNone; "fee" := VNone ]} |}.

Definition index_two : Index :=
  {| docs := [doc_namsan; doc_seoullo];
     embeddings := Some [[1%R]; [1%R]];
     embedder := Some embedder_const |}.

Lemma norm_zero_1 : norm [0%R] = 0%R.
Proof.
  unfold norm, Rsum. simpl. replace (0 * 0 + 0)%R with 0%R by ring. apply sqrt_0.
Qed.

(** C9: the empty index, the empty query, a query of norm zero, and a
    document of norm zero. *)
Lemma search_empty_and_zero_norm_witness :
  search argsort_stable EMPTY_INDEX "야경" 5 = Ok [] ∧
  search argsort_stable index_two "" 5 = Ok [] ∧
  cosine_scores [[1%R]; [2%R]] [0%R] = Ok [0%R; 0%R] ∧
  ∃ scores, cosine_scores [[0%R]; [1%R]] [1%R] = Ok scores ∧
            scores !! 0 = Some 0%R.
Proof.
  pose proof (search_empty_and_zero_norm repr_plain get_embedder_const
                argsort_stable) as (Hnone & _ & Hq & Hd & Hret).
  split_and!.
  - apply Hnone. left. reflexivity.
  - apply Hnone. right. left. reflexivity.
  - apply (Hq [[1%R]; [2%R]] [0%R]). exact norm_zero_1.
  - destruct (Hret [[0%R]; [1%R]] [1%R]) as [scores Hs].
    { repeat apply Forall_cons_2; first [apply Forall_nil_2 | reflexivity]. }
    exists scores. split; [exact Hs|].
    apply (Hd [[0%R]; [1%R]] [1%R] [0%R] scores 0 Hs); [reflexivity|].
    exact norm_zero_1.
Defined.

(** C10 as amended, on the two documents with [k = 1]. *)
Lemma search_ranked_witness :
  ∃ hits, search argsort_stable index_two "야경" 1 = Ok hits ∧
    ∃ scores,
      cosine_scores [[1%R]; [1%R]] (encode_query embedder_const "야경") = Ok scores ∧
      length hits = 1 ∧
      NoDup (top_indices argsort_stable 1 scores) ∧
      Forall2 (λ i h, ∃ d s, docs index_two !! i = Some d ∧ scores !! i = Some s ∧
                             is_hit d s h) (top_indices argsort_stable 1 scores) hits ∧
      StronglySorted (λ a b, (hit_score b <= hit_score a)%R) hits ∧
      (∀ i j si sj, i ∈ top_indices argsort_stable 1 scores →
         j ∉ top_indices argsort_stable 1 scores →
         scores !! i = Some si → scores !! j = Some sj → (sj <= si)%R).
Proof.
  destruct (search_ranked argsort_stable argsort_stable_spec index_two
              [[1%R]; [1%R]] embedder_const "야경" 1) as [Hret Hall];
    [lia|done|done|reflexivity|reflexivity|].
  destruct Hret as [hits Hh].
  { split; [reflexivity|].
    repeat apply Forall_cons_2; first [apply Forall_nil_2 | reflexivity]. }
  exists hits. split; [exact Hh|]. exact (Hall hits Hh).
Defined.

(** An index of 301 documents, numbered in the order of insertion, and a
    backend for which the query has no word of the corpus: its vector is
    zero, so every document has the cosine 0 with it. *)
Definition numbered_doc (i : nat) : Document :=
  {| doc_id := i; doc_title := str_of_Z (Z.of_nat i); doc_url := "";
     doc_text := "야경"; doc_meta := ∅ |}.

Definition embedder_zero : Embedder :=
  {| embedder_name := "keyword"; encode_query := λ _, [0%R] |}.

Definition index_ties : Index :=
  {| docs := map numbered_doc (seq 0 301);
     embeddings := Some (replicate 301 [1%R]);
     embedder := Some embedder_zero |}.

(** C10, where the code departs from the claim.  The 301 documents all
    have the cosine 0 with the query, and [search] with [k = 301] returns
    them all, but not in the order of insertion: [argsort] has partitioned
    the equal keys. *)
Lemma search_ties_not_in_insertion_order :
  ∃ hits,
    search argsort_quick index_ties "한강" 301 = Ok hits ∧
    length hits = 301 ∧
    Forall (λ h, h !! "SCORE" = Some (VFloat 0)) hits ∧
    map (λ h, h !! "TITLE") hits ≠
    map (λ d, Some (VStr (doc_title d))) (docs index_ties).
Proof.
  set (order := aquicksort (λ _ _, false) 301).
  set (ds := map numbered_doc (seq 0 301)).
  set (scores := map (λ _ : list R, 0%R) (replicate 301 [1%R])).
  assert (length order = 301) as Hlen by (vm_compute; reflexivity).
  assert (Forall (λ i, i < 301) order) as Hall.
  { apply Forall_forall. intros i Hi.
    assert (forallb (λ i, i <? 301) order = true) as Hb by (vm_compute; reflexivity).
    rewrite forallb_forall in Hb. apply list_elem_of_In, Hb in Hi.
    by apply Nat.ltb_lt in Hi. }
  assert (order !! 1 = Some 190) as Hsecond by (vm_compute; reflexivity).
  assert (length ds = 301) as Hds by (subst ds; by rewrite length_map, length_seq).
  assert (∀ i, i < 301 → ds !! i = Some (numbered_doc i)) as Hdoc.
  { intros i Hi. subst ds. by rewrite list_lookup_fmap, lookup_seq_lt. }
  assert (length scores = 301) as Hsc
    by (subst scores; by rewrite length_map, length_replicate).
  assert (∀ i s, scores !! i = Some s → s = 0%R) as Hzero.
  { intros i s Hs. subst scores. rewrite list_lookup_fmap in Hs.
    by apply fmap_Some in Hs as (? & _ & ->). }
  assert (search argsort_quick index_ties "한강" 301 =
          mapM (λ i, match ds !! i, scores !! i with
                     | Some d, Some s => Ok (hit_of d s)
                     | _, _ => Raise IndexError
                     end) order) as Hsearch.
  { assert ("한강" ≠ "") as Hq by discriminate.
    rewrite (search_unfold argsort_quick index_ties (numbered_doc 0)
               (map numbered_doc (seq 1 300)) [1%R] (replicate 300 [1%R])
               embedder_zero "한강" 301 eq_refl eq_refl eq_refl Hq).
    change ([1%R] :: replicate 300 [1%R]) with (replicate 301 [1%R]).
    change (numbered_doc 0 :: map numbered_doc (seq 1 300)) with ds.
    change (encode_query embedder_zero "한강") with [0%R].
    rewrite (cosine_scores_zero_query _ _ norm_zero_1). fold scores. cbn [rbind].
    rewrite (argsort_quick_equal (map Ropp scores) (- 0)%R);
      [|subst scores; apply Forall_fmap, Forall_fmap, Forall_forall;
        intros; reflexivity|lra].
    rewrite length_map, Hsc. fold order.
    rewrite py_take_nonneg by lia.
    rewrite take_ge by (rewrite Hlen; lia). reflexivity. }
  assert (docs index_ties !! 1 = Some (numbered_doc 1)) as Hfirst by reflexivity.
  clearbody order ds scores.
  destruct (mapM_hits ds scores order) as (hits & Hhits & Hrel).
  { eapply Forall_impl; [exact Hall|]. intros i Hi. simpl in Hi. rewrite Hds, Hsc. lia. }
  exists hits. split; [by rewrite Hsearch|]. split_and!.
  - by rewrite <- (Forall2_length _ _ _ Hrel).
  - apply Forall_forall. intros h Hh.
    apply list_elem_of_lookup in Hh as [p Hp].
    destruct (Forall2_lookup_r _ _ _ _ _ Hrel Hp) as (i & _ & d & s & _ & Hs & ->).
    apply Hzero in Hs as ->. apply hit_of_is_hit.
  - intros Heq. apply (f_equal (λ l, l !! 1)) in Heq.
    destruct (Forall2_lookup_l _ _ _ _ _ Hrel Hsecond)
      as (h & Hh & d & s & Hd & _ & ->).
    rewrite !list_lookup_fmap, Hh, Hfirst in Heq.
    rewrite Hdoc in Hd by lia. injection Hd as <-.
    simpl in Heq. rewrite (proj1 (hit_of_is_hit (numbered_doc 190) s)) in Heq.
    vm_compute in Heq. discriminate.
Qed.

(** ** Further concrete runs *)

Lemma dummy_rows_typed : Forall typed_row dummy_rows.
Proof.
  repeat apply Forall_cons_2;
    first [apply Forall_nil_2 | repeat split; right; by eexists].
Qed.

Lemma dummy_rows_finite : Forall finite_coords dummy_rows.
Proof.
  repeat apply Forall_cons_2; first [apply Forall_nil_2 | split; exact I].
Qed.

Lemma dummy_candidates (radius_km : pyval) :
  typed_radius radius_km →
  ∃ cands, candidates decimal_float 37.5512 126.9882 radius_km dummy_rows = Ok cands.
Proof. intros Hr. by apply candidates_total; [apply dummy_rows_typed|]. Qed.

Lemma dummy_nearest (topn : Z) :
  ∃ recs, nearest decimal_float dummy_rows 37.5512 126.9882 topn (PScalar VNone)
          = Ok recs.
Proof.
  destruct (dummy_candidates (PScalar VNone)) as [cands Hc]; [by left|].
  unfold nearest. rewrite Hc. by eexists.
Qed.

(** The two rows from the first of them, one result asked for. *)
Lemma nearest_takes_the_nearest_witness :
  ∃ recs cands rest,
    nearest decimal_float dummy_rows 37.5512 126.9882 1 (PScalar VNone) = Ok recs ∧
    candidates decimal_float 37.5512 126.9882 (PScalar VNone) dummy_rows = Ok cands ∧
    recs ++ rest ≡ₚ cands ∧
    length recs = 1 `min` length cands.
Proof.
  destruct (dummy_nearest 1) as [recs H].
  destruct (nearest_takes_the_nearest decimal_float _ _ _ _ _ _
              dummy_rows_finite H)
    as (cands & rest & Hc & Hp & Hl & _).
  by exists recs, cands, rest.
Defined.

(** No result asked for gives what one result asked for gives, and that
    is the head of what two give. *)
Lemma nearest_topn_prefix_witness :
  nearest decimal_float dummy_rows 37.5512 126.9882 0 (PScalar VNone) =
  nearest decimal_float dummy_rows 37.5512 126.9882 1 (PScalar VNone) ∧
  ∃ recs recs',
    nearest decimal_float dummy_rows 37.5512 126.9882 1 (PScalar VNone) = Ok recs ∧
    nearest decimal_float dummy_rows 37.5512 126.9882 2 (PScalar VNone) = Ok recs' ∧
    recs `prefix_of` recs'.
Proof.
  split.
  - apply (proj1 (nearest_topn_prefix decimal_float dummy_rows 37.5512 126.9882
                    0 0 (PScalar VNone))). lia.
  - destruct (dummy_nearest 1) as [recs H1]. destruct (dummy_nearest 2) as [recs' H2].
    exists recs, recs'. split; [done|]. split; [done|].
    apply (proj2 (nearest_topn_prefix decimal_float dummy_rows 37.5512 126.9882
                    1 2 (PScalar VNone))); [lia|done|done].
Defined.

(** The two rows within three kilometres. *)
Lemma radius_filters_candidates_witness :
  ∃ all,
    candidates decimal_float 37.5512 126.9882 (PScalar VNone) dummy_rows = Ok all ∧
    candidates decimal_float 37.5512 126.9882 (PScalar (VFloat 3)) dummy_rows =
    Ok (filter (within 37.5512 126.9882 3) all).
Proof.
  destruct (dummy_candidates (PScalar VNone)) as [all Hall]; [by left|].
  exists all. split; [done|].
  apply (proj1 (radius_filters_candidates decimal_float dummy_rows all
                  37.5512 126.9882 3 (PScalar (VFloat 3)) eq_refl Hall)).
Defined.

(** A preset key between blanks, and an alias in capitals. *)
Lemma get_preset_coord_matches_witness :
  get_preset_coord (PScalar (VStr "  강남 ")) = Ok (Some (37.4979, 127.0276)%R) ∧
  ∃ c, PRESET_COORDS !! "남산" = Some c ∧
       get_preset_coord (PScalar (VStr " NamSan")) = Ok (Some c).
Proof.
  split.
  - apply (proj1 (get_preset_coord_matches "  강남 ")). reflexivity.
  - apply (proj1 (proj2 (get_preset_coord_matches " NamSan"))). reflexivity.
Defined.

(** The request from "강남". *)
Lemma resolver_output_valid_witness :
  ∃ out lat lon,
    origin_resolver_node decimal_float decimal_int state_gangnam = Ok out ∧
    out !! "lat" = Some (PScalar (VFloat lat)) ∧
    out !! "lon" = Some (PScalar (VFloat lon)) ∧
    (-90 <= lat <= 90)%R ∧ (-180 <= lon <= 180)%R.
Proof.
  assert (∃ out, origin_resolver_node decimal_float decimal_int state_gangnam = Ok out)
    as [out H] by (eexists; reflexivity).
  destruct (resolver_output_valid decimal_float decimal_int _ _ H)
    as (mode & lat & lon & _ & _ & Hlat & _ & Hlon & _ & Hr1 & Hr2 & _).
  by exists out, lat, lon.
Defined.

(** The request from "강남" with no result asked for: the resolver
    returns and the gate refuses what it returned. *)
Lemma resolver_then_gate_witness :
  ∃ out,
    origin_resolver_node decimal_float decimal_int
      (<["topn" := PScalar (VInt 0)]> state_gangnam) = Ok out ∧
    ensure_origin_valid decimal_float decimal_int out ≠ Ok tt.
Proof.
  assert (∃ out,
            origin_resolver_node decimal_float decimal_int
              (<["topn" := PScalar (VInt 0)]> state_gangnam) = Ok out ∧
            out !! "topn" = Some (PScalar (VInt 0)))
    as (out & H & Htopn) by (eexists; split; reflexivity).
  exists out. split; [exact H|].
  destruct (resolver_then_gate decimal_float decimal_int _ _ H)
    as (n & radius & Hn & _ & _ & Hiff).
  rewrite Htopn in Hn. injection Hn as <-.
  intros Hok. apply Hiff in Hok as [Hn _]. lia.
Defined.

(** A manual request for "강남" that also carries text where the
    coordinates should be. *)
Definition state_gangnam_garbage : gmap string pyval :=
  {[ "origin_mode" := PScalar (VStr "manual");
     "origin_label" := PScalar (VStr "강남");
     "origin_lat" := PScalar (VStr "north");
     "origin_lon" := PScalar VNone ]}.

Lemma manual_preset_overrides_coordinates_witness :
  ∃ out,
    origin_resolver_node decimal_float decimal_int state_gangnam_garbage = Ok out ∧
    out !! "lat" = Some (PScalar (VFloat 37.4979)) ∧
    out !! "lon" = Some (PScalar (VFloat 127.0276)) ∧
    out !! "origin_label" = Some (PScalar (VStr "강남")).
Proof.
  apply (manual_preset_overrides_coordinates decimal_float decimal_int
           state_gangnam_garbage "manual" "강남" (37.4979, 127.0276)%R);
    reflexivity.
Defined.

Lemma resolver_returns_iff_witness :
  ∃ out, origin_resolver_node decimal_float decimal_int state_gangnam = Ok out.
Proof.
  apply (proj1 (resolver_returns_iff decimal_float decimal_int state_gangnam)).
  exists "manual". split; [reflexivity|]. right. split; [reflexivity|].
  left. eexists. reflexivity.
Defined.

(** A context for the recommender that already holds a center, [None]. *)
Definition state_centered : gmap string pyval :=
  {[ "rows" := PRows []; "lat" := PScalar (VFloat 37.5512);
     "lon" := PScalar (VFloat 126.9882); "center" := PScalar VNone ]}.

Lemma agent_c_recommendations_witness :
  (∃ out, agent_c decimal_float decimal_int state_centered = Ok out ∧
          out !! "center" = Some (PScalar VNone)) ∧
  rmap (λ out, out !! "recommendations")
    (agent_c decimal_float decimal_int
       (<["radius_km" := PScalar (VStr "  ")]> state_centered)) =
  rmap (λ out, out !! "recommendations")
    (agent_c decimal_float decimal_int
       (<["radius_km" := PScalar VNone]> state_centered)).
Proof.
  split.
  - assert (∃ out, agent_c decimal_float decimal_int state_centered = Ok out)
      as [out H] by (eexists; reflexivity).
    exists out. split; [exact H|].
    destruct (proj1 (agent_c_recommendations decimal_float decimal_int state_centered)
                out H) as (lat & lon & _ & _ & Hc & _).
    exact Hc.
  - apply (proj2 (agent_c_recommendations decimal_float decimal_int state_centered)).
    reflexivity.
Defined.

Lemma agent_e_map_html_witness :
  ∃ out, agent_e decimal_float render_plain state_recommended = Ok out.
Proof.
  apply (proj1 (agent_e_map_html decimal_float render_plain state_recommended)).
  left. reflexivity.
Defined.

Lemma agent_d_answers_witness :
  ∃ out answer,
    agent_d repr_plain settings_set chat_up state_recommended
    = (Ok out, [EvRemoteChat]) ∧
    out !! "answer" = Some (PScalar (VStr answer)) ∧ answer ≠ "".
Proof.
  assert (∃ out, agent_d repr_plain settings_set chat_up state_recommended
                 = (Ok out, [EvRemoteChat])) as [out H] by (eexists; reflexivity).
  destruct (agent_d_answers repr_plain settings_set chat_up _ _ _ H)
    as (answer & recs & _ & Ha & Hne & _).
  by exists out, answer.
Defined.

Lemma run_gangnam_returns :
  ∃ out, run_o_to_d decimal_float decimal_int repr_plain settings_unset chat_down
           render_plain [] "manual" 37.4979 127.0276 "강남" "야경 추천" 2
           (Some 3%R) None = (Ok out, RUN_NODES).
Proof.
  unfold run_o_to_d. fold run_state_gangnam. rewrite gate_passes_gangnam.
  eexists. reflexivity.
Qed.

Lemma run_o_to_d_trace_witness :
  ∃ out a,
    run_o_to_d decimal_float decimal_int repr_plain settings_unset chat_down
      render_plain [] "manual" 37.4979 127.0276 "강남" "야경 추천" 2
      (Some 3%R) None = (Ok out, RUN_NODES) ∧
    out !! "rows" = Some (PRows []) ∧
    out !! "answer" = Some (PScalar (VStr a)) ∧ a ≠ "".
Proof.
  destruct run_gangnam_returns as [out H].
  destruct (run_o_to_d_trace decimal_float decimal_int repr_plain settings_unset
              chat_down render_plain _ _ _ _ _ _ _ _ _ _ _ H)
    as (_ & _ & Hrows & _ & recs & h & a & _ & _ & Ha & Hne & _).
  by exists out, a.
Defined.

(** The legacy run with no result asked for and no center. *)
Lemma run_c_to_d_trace_witness :
  ∃ out evs,
    run_c_to_d decimal_float decimal_int repr_plain settings_unset chat_down
      render_plain [] 37.5512 126.9882 "야경" 0 None None None = (Ok out, evs) ∧
    out !! "center" = Some (PPair 37.5512 126.9882).
Proof.
  assert (∃ out evs,
            run_c_to_d decimal_float decimal_int repr_plain settings_unset chat_down
              render_plain [] 37.5512 126.9882 "야경" 0 None None None = (Ok out, evs))
    as (out & evs & H) by (eexists _, _; reflexivity).
  destruct (run_c_to_d_trace decimal_float decimal_int repr_plain settings_unset
              chat_down render_plain _ _ _ _ _ _ _ _ _ _ H) as (_ & Hc & _).
  by exists out, evs.
Defined.

Lemma build_dummy_returns :
  ∃ idx', build_index repr_plain get_embedder_const dummy_rows EMPTY_INDEX
          = (Ok tt, idx') ∧ length (docs idx') = 2.
Proof. eexists. split; reflexivity. Qed.

Lemma build_index_outcome_witness :
  build_index repr_plain get_embedder_const [] index_two = (Ok tt, EMPTY_INDEX) ∧
  ∃ idx', build_index repr_plain get_embedder_const dummy_rows EMPTY_INDEX
          = (Ok tt, idx') ∧
          length (docs idx') = 2.
Proof.
  split.
  - by apply (proj1 (build_index_outcome repr_plain get_embedder_const [] index_two)).
  - destruct build_dummy_returns as (idx' & H & _). exists idx'. split; [done|].
    by destruct (proj2 (proj2 (build_index_outcome repr_plain get_embedder_const
                                 dummy_rows EMPTY_INDEX)) idx' ltac:(done) H)
      as [Hlen _].
Defined.

Lemma build_then_search_witness :
  ∃ idx' hits,
    build_index repr_plain get_embedder_const dummy_rows EMPTY_INDEX = (Ok tt, idx') ∧
    search argsort_stable idx' "야경" 1 = Ok hits ∧
    length hits = 1.
Proof.
  destruct build_dummy_returns as (idx' & H & Hlen). exists idx'.
  destruct (build_then_search repr_plain get_embedder_const argsort_stable
              dummy_rows EMPTY_INDEX idx' "야경" 1 argsort_stable_spec)
    as (hits & Hs & Hl); [done|done|lia|exact H| |].
  - intros e m [= <- <-].
    split; [by rewrite !length_map|]. apply Forall_fmap, Forall_true. done.
  - by exists hits.
Defined.

(** A raw row as the API client hands it on: every value a string. *)
Definition raw_row : gmap string scalar :=
  {[ "NUM" := VStr " 1 "; "TITLE" := VStr " 남산타워 "; "ADDR" := VStr " 서울시 용산구 ";
     "LA" := VStr "37"; "LO" := VStr " 127 "; "URL" := VStr " http://namsan.com ";
     "OPERATING_TIME" := VStr "10:00~22:00 "; "TEL_NO" := VStr "" ]}.

Lemma raw_row_text : Forall (λ k, text_or_none (row_get raw_row k)) FIELDS.
Proof.
  repeat apply Forall_cons_2;
    first [apply Forall_nil_2 | by left | right; by eexists].
Qed.

Lemma normalize_row_schema_witness :
  ∃ out,
    normalize_row decimal_float raw_row = Ok out ∧
    (∀ k, is_Some (out !! k) ↔ k ∈ FIELDS) ∧
    normalize_row decimal_float (<["LA" := VFloat 37]> raw_row) = Raise AttributeError.
Proof.
  pose proof (normalize_row_schema decimal_float raw_row) as (Hret & _ & Hout).
  destruct (Hret raw_row_text) as [out H]. exists out. split; [exact H|].
  split; [apply (Hout out H)|].
  apply (proj1 (proj2 (normalize_row_schema decimal_float
                         (<["LA" := VFloat 37]> raw_row)))).
  unfold FIELDS. do 4 apply Exists_cons_tl. apply Exists_cons_hd.
  intros [H'|[s H']]; discriminate H'.
Defined.

(** The third page of 200 starts where the second ends, and index 401 is
    on a page. *)
Lemma page_ranges_tile_witness :
  (page_to_index_range (2 + 1) PAGE_SIZE).1
  = ((page_to_index_range 2 PAGE_SIZE).2 + 1)%Z ∧
  ∃ p, ((page_to_index_range p PAGE_SIZE).1 ≤ 401
        ≤ (page_to_index_range p PAGE_SIZE).2)%Z.
Proof.
  assert (0 < PAGE_SIZE)%Z as Hs by done.
  destruct (page_ranges_tile PAGE_SIZE Hs) as (_ & _ & Hnext & Hcover).
  split; [apply Hnext|].
  destruct (Hcover 401%Z) as (p & _ & Hp & _); [lia|]. by exists p.
Defined.

Lemma parse_pages_result_witness :
  parse_pages decimal_int " 1-5" = Ok [1; 2; 3; 4; 5]%Z ∧
  (∃ start n, [1; 2; 3; 4; 5]%Z = seqZ start n ∧ (1 ≤ start)%Z ∧ (1 ≤ n)%Z) ∧
  parse_pages decimal_int "5-1" = Raise (ValueError "--pages 범위를 확인하세요 (예: 1-5)") ∧
  parse_pages decimal_int "3" = Ok [3%Z] ∧
  parse_pages decimal_int "0" = Raise (ValueError "--pages는 1 이상의 정수여야 합니다.") ∧
  ∃ msg, parse_pages decimal_int "x-2" = Raise (ValueError msg).
Proof.
  pose proof (parse_pages_result decimal_int " 1-5") as (Hshape & Hrange & _).
  pose proof (parse_pages_result decimal_int "5-1") as (_ & Hbad & _).
  pose proof (parse_pages_result decimal_int "3") as (_ & _ & Hone & _).
  pose proof (parse_pages_result decimal_int "0") as (_ & _ & Hzero & _).
  pose proof (parse_pages_result decimal_int "x-2") as (_ & _ & _ & Hpart & _).
  assert (parse_pages decimal_int " 1-5" = Ok [1; 2; 3; 4; 5]%Z) as H15.
  { apply (proj1 (Hrange "1" "5" 1%Z 5%Z eq_refl eq_refl eq_refl)); lia. }
  split; [exact H15|]. split_and!.
  - destruct (Hshape _ H15) as (start & n & Hseq & Hs & Hn & _). by exists start, n.
  - apply (proj2 (Hbad "5" "1" 5%Z 1%Z eq_refl eq_refl eq_refl)). lia.
  - apply (proj1 (Hone 3%Z eq_refl eq_refl)). lia.
  - apply (proj2 (Hzero 0%Z eq_refl eq_refl)). lia.
  - destruct (Hpart "x" "2" (ValueError "invalid literal for int()") eq_refl)
      as [Hr [msg Hmsg]]; [by left|].
    exists msg. by rewrite <- Hmsg.
Defined.

Lemma _cosine_properties_witness :
  _cosine [3; 4]%R [4; 3; 7]%R = _cosine [4; 3; 7]%R [3; 4]%R ∧
  _cosine [3; 4]%R [4; 3; 7]%R = _cosine [3; 4]%R [4; 3]%R ∧
  _cosine [1; 0]%R [0; 1]%R = 0%R ∧
  _cosine [0; 0]%R [2; 5]%R = 0%R.
Proof.
  destruct _cosine_properties as (Hsym & Hzip & Horth). split_and!.
  - apply Hsym.
  - apply (Hzip [3; 4]%R [4; 3; 7]%R).
  - apply Horth. simpl.
    apply Forall_cons_2; [by right|]. apply Forall_cons_2; [by left|].
    apply Forall_nil_2.
  - apply Horth. simpl.
    apply Forall_cons_2; [by left|]. apply Forall_cons_2; [by left|].
    apply Forall_nil_2.
Defined.

(** The two rows without radius, and under a radius of minus one
    kilometre. *)
Lemma nearest_distances_witness :
  (∃ recs,
     nearest decimal_float dummy_rows 37.5512 126.9882 5 (PScalar VNone) = Ok recs ∧
     Forall (λ c, (0 <= dist_key c)%R) recs) ∧
  nearest decimal_float dummy_rows 37.5512 126.9882 5 (PScalar (VFloat (-1))) = Ok [].
Proof.
  split.
  - destruct (dummy_nearest 5) as [recs H]. exists recs. split; [done|].
    destruct (nearest_distances decimal_float _ _ _ _ _ _ dummy_rows_finite H)
      as [Hall _].
    eapply Forall_impl; [exact Hall|]. intros c (_ & [H0 _] & _). exact H0.
  - destruct (dummy_candidates (PScalar (VFloat (-1)))) as [cands Hc];
      [right; by eexists|].
    assert (∃ recs, nearest decimal_float dummy_rows 37.5512 126.9882 5
                      (PScalar (VFloat (-1))) = Ok recs) as [recs H].
    { unfold nearest. rewrite Hc. by eexists. }
    rewrite H. f_equal.
    apply (proj2 (proj2 (nearest_distances decimal_float _ _ _ _ _ _
                           dummy_rows_finite H)) (-1)%R);
      [done|lra].
Defined.



(** The scatter data of the two rows around Namsan. *)
Lemma scatter_in_unit_square_witness :
  ∃ sc,
    normalize_points_for_scatter dummy_rows (37.5512, 126.9882)%R = Some sc ∧
    length (xs sc) = 2 ∧ length (ys sc) = 2 ∧
    Forall (λ x, (0 <= x <= 1)%R) (xs sc) ∧
    Forall (λ y, (0 <= y <= 1)%R) (ys sc).
Proof.
  assert (Forall (λ r, ∀ p, rec_point r = Some p → on_globe p) dummy_rows) as Hrecs.
  { apply Forall_cons_2; [|apply Forall_cons_2; [|apply Forall_nil_2]]; intros p Hp.
    - change (Some (37.5512, 126.9882)%R = Some p) in Hp. injection Hp as <-.
      unfold on_globe. simpl. lra.
    - change (Some (37.5563, 126.9723)%R = Some p) in Hp. injection Hp as <-.
      unfold on_globe. simpl. lra. }
  assert (on_globe (37.5512, 126.9882)%R) as Hcenter.
  { unfold on_globe. simpl. lra. }
  destruct (scatter_in_unit_square dummy_rows (37.5512, 126.9882)%R Hrecs Hcenter)
    as [Hret Hall].
  destruct (proj2 Hret) as [sc Hsc].
  { repeat apply Forall_cons_2; first [apply Forall_nil_2 | by eexists]. }
  exists sc. split; [exact Hsc|].
  destruct (Hall sc Hsc) as (Hx & Hy & _ & Hin).
  destruct Hin as (a & b & c & d & _ & _ & _ & _ & Hxs & Hys & _); [done|].
  done.
Defined.
